(** * imagecut: segmentation planner, grid planner and resumable batch run

    A shallow embedding of the three Python modules of the repository

    - [interactive_splitter.py]  (class [InteractiveSplitter]),
    - [image_splitter.py]        (class [ImageSplitter]),
    - [batch_processor.py]       (class [BatchProcessor]),

    followed by the properties of the specification that concern them.

    Python integers are unbounded and are modelled by [Z]; [//] is floor
    division, which is [Z.div].  Python lists are lists, a [set] of paths is
    a [gset string].  A [try ... except Exception as e] block is modelled in
    the error monad [result]: [Raise e] carries [str(e)].  The Pillow image
    library and the file system are outside the repository: they are the
    operations of the class [Codec], and every function that uses them is
    parametric in it. *)

From Stdlib Require Import ZArith Lia ZifyNat.
From stdpp Require Import base option list sorting strings pretty gmap.

#[local] Open Scope Z_scope.

(** ** Exceptions *)

Inductive result (A : Type) : Type :=
  | Ok (a : A)
  | Raise (e : string).
Arguments Ok {A} a.
Arguments Raise {A} e.

#[global] Instance result_ret : MRet result := @Ok.
#[global] Instance result_bind : MBind result :=
  λ A B f m, match m with Ok a => f a | Raise e => Raise e end.

Definition is_ok {A} (r : result A) : bool :=
  match r with Ok _ => true | Raise _ => false end.

(** ** The external image library and file system

    [save im path format quality] stands for
    [im.save(path, format=..., quality=..., optimize=True)] followed by
    [path.stat().st_size]: it returns the byte size of the file written.
    [display_data] stands for the copy / resize / PNG / base64 steps of
    [load_image]. *)

Definition box : Type := Z * Z * Z * Z.

Definition box_top (b : box) : Z := b.1.1.2.
Definition box_bottom (b : box) : Z := b.2.

Class Codec : Type := {
  image : Type;
  Image_open : string → result image;
  Image_size : image → Z * Z;
  crop : image → box → result image;
  mode : image → string;
  convert : image → string → result image;
  resize : image → Z * Z → result image;
  save : image → string → string → Z → result Z;
  mkdir : string → result unit;
  display_data : image → result string;
}.

(** A codec none of whose crop / convert / resize / save / mkdir steps
    raises. *)
Definition never_fails (C : Codec) : Prop :=
  (∀ im b, is_ok (crop im b) = true) ∧
  (∀ im m, is_ok (convert im m) = true) ∧
  (∀ im d, is_ok (resize im d) = true) ∧
  (∀ im p f q, is_ok (save im p f q) = true) ∧
  (∀ p, is_ok (mkdir p) = true).

(** ** Python helpers *)

(** [sorted(l)] on integers. *)
Definition sorted (l : list Z) : list Z := merge_sort Z.le l.

(** [x in l] on a list of integers. *)
Definition inb (x : Z) (l : list Z) : bool := bool_decide (x ∈ l).

(** [f"{n:03d}"]: decimal, zero-padded to width 3, the sign counted in the
    width. *)
Fixpoint zeros (n : nat) : string :=
  match n with O => "" | S n => "0" +:+ zeros n end.

Definition zfill (w : nat) (s : string) : string :=
  zeros (w - String.length s) +:+ s.

Definition fmt_03d (n : Z) : string :=
  if n <? 0 then "-" +:+ zfill 2 (pretty (Z.abs_N n))
  else zfill 3 (pretty (Z.abs_N n)).

(** [str(Path(a) / b)]. *)
Definition path_join (a b : string) : string := a +:+ "/" +:+ b.

(** Truth value of an optional string ([None] and [""] are false). *)
Definition truthy (o : option string) : bool :=
  match o with
  | Some s => negb (bool_decide (s = ""))
  | None => false
  end.

(** [range(len(l) - 1)], the indices of the planner's loop. *)
Definition range_pairs (l : list Z) : list nat := seq 0 (length l - 1).

(** [sorted([0] + cut_positions + [img_height])]. *)
Definition boundaries (cut_positions : list Z) (img_height : Z) : list Z :=
  sorted ([0] ++ cut_positions ++ [img_height]).

(** [bottom - top] for every iteration of the planner's loop, where
    [top = sorted_positions[i]] and [bottom = sorted_positions[i + 1]]. *)
Definition segment_heights (cut_positions : list Z) (img_height : Z) : list Z :=
  let sorted_positions := boundaries cut_positions img_height in
  map (λ i, nth (S i) sorted_positions 0 - nth i sorted_positions 0)
      (range_pairs sorted_positions).

Definition sum (l : list Z) : Z := foldr Z.add 0 l.

(** ** interactive_splitter.py *)

Module SegmentOutput.
Record t : Type := mk {
  index : Z;
  filename : string;
  crop_box : box;
  dimensions : Z * Z;
  st_size : Z;
  sku : string;
  has_size_suffix : bool;
  download_url : string;
}.
End SegmentOutput.

Module SplitResult.
Record t : Type := mk {
  splits_created : Z;
  skipped_areas : Z;
  excluded_segments : Z;
  output_directory : string;
  sku : string;
  details : list SegmentOutput.t;
}.
End SplitResult.

(** The dictionary returned by the split operations: [{"error": msg}] or
    the success record. *)
Inductive response : Type :=
  | Error (msg : string)
  | Success (r : SplitResult.t).

Record skip_area : Type := { skip_start : Z; skip_end : Z }.

Record image_info : Type := {
  info_path : string;
  info_filename : string;
}.

Record InteractiveSplitter : Type := {
  current_image_path : option string;
  current_image_data : option string;
  current_sku : option string;
  uploaded_images : list image_info;
  current_image_index : Z;
}.

Definition msg_no_image_or_cuts : string :=
  "画像が読み込まれていないか、カット位置が指定されていません".
Definition msg_no_sku : string :=
  "SKU（商品コード）が入力されていません".
Definition msg_no_images : string :=
  "処理する画像がありません".

(** The overlap test of the inner [for skip_area in skip_areas] loop with
    its [break]. *)
Definition is_in_skip_area (skip_areas : list skip_area) (top bottom : Z) : bool :=
  existsb (λ a, negb ((bottom <=? skip_start a) || (top >=? skip_end a)))
          skip_areas.

Record loop_state : Type := {
  split_info : list SegmentOutput.t;
  segment_index : Z;
  global_segment_index : Z;
  excluded_by_segment_count : Z;
}.

Section Planner.
Context {C : Codec}.

Definition load_image (self : InteractiveSplitter) (image_path : string)
  : InteractiveSplitter * result string :=
  match (img ← Image_open image_path; display_data img) with
  | Ok b64 =>
      ({| current_image_path := Some image_path;
          current_image_data := Some b64;
          current_sku := current_sku self;
          uploaded_images := uploaded_images self;
          current_image_index := current_image_index self |}, Ok b64)
  | Raise e => (self, Raise e)
  end.

Section Loop.
Variables (img : image) (img_width : Z) (sku_name sku_output_path : string).
Variables (sorted_positions : list Z) (skip_areas : list skip_area).
Variables (excluded_segments size_segments : list Z).

(** The two artifacts a surviving segment can give, numbered [n] in the
    file name and the [index] field. *)
Definition output_filename (n : Z) : string :=
  sku_name +:+ "_" +:+ fmt_03d n +:+ ".jpg".
Definition size_filename (n : Z) : string :=
  sku_name +:+ "_" +:+ fmt_03d n +:+ "-size.jpg".

Definition artifact (n : Z) (name : string) (crop_box : box) (sz : Z)
    (suffix : bool) : SegmentOutput.t :=
  {| SegmentOutput.index := n;
     SegmentOutput.filename := name;
     SegmentOutput.crop_box := crop_box;
     SegmentOutput.dimensions := (img_width, box_bottom crop_box - box_top crop_box);
     SegmentOutput.st_size := sz;
     SegmentOutput.sku := sku_name;
     SegmentOutput.has_size_suffix := suffix;
     SegmentOutput.download_url := "/download/" +:+ sku_name +:+ "/" +:+ name |}.

(** Crop, normalise the colour mode, save the base artifact and, for a
    size-suffix segment, the second one.  [local] is the per-file
    segment index, [n] the number written to the outputs. *)
Definition emit_segment (local n top bottom : Z) : result (list SegmentOutput.t) :=
  let crop_box : box := (0, top, img_width, bottom) in
  cropped ← crop img crop_box;
  cropped ← (if bool_decide (mode cropped = "P") || bool_decide (mode cropped = "RGBA")
             then convert cropped "RGB" else Ok cropped);
  let has_size_suffix := inb local size_segments in
  sz ← save cropped (path_join sku_output_path (output_filename n)) "JPEG" 95;
  let base := artifact n (output_filename n) crop_box sz false in
  if has_size_suffix then
    sz' ← save cropped (path_join sku_output_path (size_filename n)) "JPEG" 95;
    Ok [base; artifact n (size_filename n) crop_box sz' true]
  else Ok [base].

(** One iteration of [for i in range(len(sorted_positions) - 1)].
    [global] selects the body of [_split_with_global_numbering], which
    numbers outputs by [global_segment_index] and advances it for
    surviving segments only. *)
Definition loop_body (global : bool) (i : nat) (st : loop_state) : result loop_state :=
  let top := nth i sorted_positions 0 in
  let bottom := nth (S i) sorted_positions 0 in
  if inb (segment_index st) excluded_segments then
    Ok {| split_info := split_info st;
          segment_index := segment_index st + 1;
          global_segment_index := global_segment_index st;
          excluded_by_segment_count := excluded_by_segment_count st + 1 |}
  else if is_in_skip_area skip_areas top bottom then
    Ok {| split_info := split_info st;
          segment_index := segment_index st + 1;
          global_segment_index := global_segment_index st;
          excluded_by_segment_count := excluded_by_segment_count st |}
  else
    let n := if global then global_segment_index st else segment_index st in
    new ← emit_segment (segment_index st) n top bottom;
    Ok {| split_info := split_info st ++ new;
          segment_index := segment_index st + 1;
          global_segment_index :=
            if global then global_segment_index st + 1
            else global_segment_index st;
          excluded_by_segment_count := excluded_by_segment_count st |}.

Fixpoint split_loop (global : bool) (idxs : list nat) (st : loop_state)
  : result loop_state :=
  match idxs with
  | [] => Ok st
  | i :: idxs => st' ← loop_body global i st; split_loop global idxs st'
  end.

(** Iteration [i] of [split_by_positions] seen on its own: whether its
    interval is dropped (by its index [i + 1] or by a skip area), its
    crop box, and the entries it appends. *)
Definition dropped (i : nat) : bool :=
  inb (Z.of_nat i + 1) excluded_segments
  || is_in_skip_area skip_areas (nth i sorted_positions 0)
       (nth (S i) sorted_positions 0).

Definition pair_box (i : nat) : box :=
  (0, nth i sorted_positions 0, img_width, nth (S i) sorted_positions 0).

Definition entries (i : nat) : result (list SegmentOutput.t) :=
  if dropped i then Ok []
  else emit_segment (Z.of_nat i + 1) (Z.of_nat i + 1)
         (nth i sorted_positions 0) (nth (S i) sorted_positions 0).
End Loop.

(** The [try] block shared by [split_by_positions] ([global = false],
    [start_index] unused) and [_split_with_global_numbering]. *)
Definition split_try (global : bool) (path sku_name output_dir : string)
    (cut_positions : list Z) (skip_areas : list skip_area)
    (excluded_segments size_segments : list Z) (start_index : Z)
  : result SplitResult.t :=
  img ← Image_open path;
  let '(img_width, img_height) := Image_size img in
  let sku_output_path := path_join (path_join output_dir "manual_split") sku_name in
  _ ← mkdir sku_output_path;
  let sorted_positions := boundaries cut_positions img_height in
  st ← split_loop img img_width sku_name sku_output_path sorted_positions
         skip_areas excluded_segments size_segments global
         (range_pairs sorted_positions)
         {| split_info := []; segment_index := 1;
            global_segment_index := start_index;
            excluded_by_segment_count := 0 |};
  Ok {| SplitResult.splits_created := Z.of_nat (length (split_info st));
        SplitResult.skipped_areas := Z.of_nat (length skip_areas);
        SplitResult.excluded_segments := excluded_by_segment_count st;
        SplitResult.output_directory := sku_output_path;
        SplitResult.sku := sku_name;
        SplitResult.details := split_info st |}.

Definition catch (r : result SplitResult.t) : response :=
  match r with Ok r => Success r | Raise e => Error e end.

Definition split_by_positions (self : InteractiveSplitter)
    (cut_positions : list Z) (skip_areas : list skip_area)
    (excluded_segments size_segments : list Z) : response :=
  if negb (truthy (current_image_path self)) || bool_decide (cut_positions = [])
  then Error msg_no_image_or_cuts
  else if negb (truthy (current_sku self)) then Error msg_no_sku
  else catch (split_try false (default "" (current_image_path self))
                (default "" (current_sku self)) "output"
                cut_positions skip_areas excluded_segments size_segments 1).

(** In [_split_with_global_numbering] the SKU is not checked; with no SKU
    the path concatenation raises a [TypeError] inside the [try]. *)
Definition split_with_global_numbering (self : InteractiveSplitter)
    (cut_positions : list Z) (skip_areas : list skip_area)
    (excluded_segments size_segments : list Z) (start_index : Z) : response :=
  if negb (truthy (current_image_path self)) || bool_decide (cut_positions = [])
  then Error msg_no_image_or_cuts
  else match current_sku self with
       | None => catch (_ ← Image_open (default "" (current_image_path self));
                        Raise "unsupported operand type(s) for /: 'PosixPath' and 'NoneType'")
       | Some sku_name =>
           catch (split_try true (default "" (current_image_path self))
                    sku_name "output"
                    cut_positions skip_areas excluded_segments size_segments
                    start_index)
       end.

(** *** batch_process *)

Record batch_state : Type := {
  all_results : list (string * Z * response);
  total_splits : Z;
  global_index : Z;
}.

(** One iteration of [for i, image_info in enumerate(self.uploaded_images)].
    The fields of [self] changed by [load_image] are restored at the end of
    the iteration, so [self] itself is the state of every iteration. *)
Definition batch_step (self : InteractiveSplitter)
    (cut_positions : list Z) (skip_areas : list skip_area)
    (excluded_segments size_segments : list Z) (global_numbering : bool)
    (i : Z) (info : image_info) (bs : batch_state) : batch_state :=
  let self' := (load_image self (info_path info)).1 in
  if global_numbering then
    let result := split_with_global_numbering self' cut_positions skip_areas
                    excluded_segments size_segments (global_index bs) in
    match result with
    | Success r =>
        {| all_results := all_results bs ++ [(info_filename info, i, result)];
           total_splits := total_splits bs + SplitResult.splits_created r;
           global_index := global_index bs + SplitResult.splits_created r |}
    | Error _ =>
        {| all_results := all_results bs ++ [(info_filename info, i, result)];
           total_splits := total_splits bs;
           global_index := global_index bs |}
    end
  else
    let result := split_by_positions self' cut_positions skip_areas
                    excluded_segments size_segments in
    match result with
    | Success r =>
        {| all_results := all_results bs ++ [(info_filename info, i, result)];
           total_splits := total_splits bs + SplitResult.splits_created r;
           global_index := global_index bs |}
    | Error _ =>
        {| all_results := all_results bs ++ [(info_filename info, i, result)];
           total_splits := total_splits bs;
           global_index := global_index bs |}
    end.

Fixpoint batch_loop (self : InteractiveSplitter)
    (cut_positions : list Z) (skip_areas : list skip_area)
    (excluded_segments size_segments : list Z) (global_numbering : bool)
    (i : Z) (images : list image_info) (bs : batch_state) : batch_state :=
  match images with
  | [] => bs
  | info :: images =>
      batch_loop self cut_positions skip_areas excluded_segments size_segments
        global_numbering (i + 1) images
        (batch_step self cut_positions skip_areas excluded_segments
           size_segments global_numbering i info bs)
  end.

Definition is_success (r : response) : bool :=
  match r with Success _ => true | Error _ => false end.

Record BatchResult : Type := {
  total_images : Z;
  success_count : Z;
  error_count : Z;
  total_splits_created : Z;
  batch_sku : option string;
  batch_results : list (string * Z * response);
}.

Definition batch_process (self : InteractiveSplitter)
    (cut_positions : list Z) (skip_areas : list skip_area)
    (excluded_segments size_segments : list Z) (global_numbering : bool)
  : string + BatchResult :=
  if bool_decide (uploaded_images self = []) then inl msg_no_images
  else if negb (truthy (current_sku self)) then inl msg_no_sku
  else
    let bs := batch_loop self cut_positions skip_areas excluded_segments
                size_segments global_numbering 0 (uploaded_images self)
                {| all_results := []; total_splits := 0; global_index := 1 |} in
    let success_count :=
      Z.of_nat (length (filter (λ e, is_success e.2 = true) (all_results bs))) in
    inr {| total_images := Z.of_nat (length (uploaded_images self));
           success_count := success_count;
           error_count := Z.of_nat (length (all_results bs)) - success_count;
           total_splits_created := total_splits bs;
           batch_sku := current_sku self;
           batch_results := all_results bs |}.
End Planner.

(** ** image_splitter.py *)

Record format_dims : Type := { width : Z; height : Z }.

Record Config : Type := {
  output_formats : gmap string format_dims;
  overlap_pixels : option Z;
  quality : option Z;
  output_format : option string;
}.

Definition default_config : Config :=
  {| output_formats :=
       <["instagram_square" := {| width := 1080; height := 1080 |}]>
       (<["instagram_story" := {| width := 1080; height := 1920 |}]>
       (<["twitter_card" := {| width := 1200; height := 630 |}]>
       (<["facebook_post" := {| width := 1200; height := 630 |}]>
       (<["custom" := {| width := 800; height := 600 |}]> ∅))));
     overlap_pixels := Some 0;
     quality := Some 95;
     output_format := Some "JPEG" |}.

Module SplitInfo.
Record t : Type := mk {
  index : Z;
  filename : string;
  crop_box : box;
  output_size : Z * Z;
}.
End SplitInfo.

(** The result dictionary of [split_image]; an absent key is [None]. *)
Module FileResult.
Record t : Type := mk {
  success : bool;
  error : option string;
  splits_created : option Z;
  output_directory : option string;
  details : list SplitInfo.t;
  source_file : option string;
  timestamp : option Z;
}.
End FileResult.

Definition msg_unsupported (output_format : string) : string :=
  "未対応フォーマット: " +:+ output_format.

Section ImageSplitter.
Context {C : Codec}.
(** [Path(p).stem] and the reading of the clock by [time.time()]. *)
Variable stem : string → string.
Variable now : Z.
Variable config : Config.

(** [self.config[key]] inside the [try] block: a missing key raises
    [KeyError(key)]. *)
Definition config_get {A} (key : string) (o : option A) : result A :=
  match o with Some a => Ok a | None => Raise ("'" +:+ key +:+ "'") end.

Section GridLoop.
Variables (img : image) (img_width img_height : Z).
Variables (target_width target_height overlap : Z).
Variables (base_name format_name output_path : string).

(** The crop box of iteration [i], with the clamp to the image. *)
Definition grid_box (i : Z) : box :=
  let top := i * target_height - (i * overlap) in
  let bottom := top + target_height in
  if bottom >? img_height
  then (0, img_height - target_height, img_width, img_height)
  else (0, top, img_width, bottom).

Definition grid_filename (i : Z) : string :=
  base_name +:+ "_" +:+ format_name +:+ "_" +:+ fmt_03d (i + 1) +:+ ".jpg".

(** The dictionary appended to [split_info] by iteration [i]. *)
Definition grid_entry (i : Z) : SplitInfo.t :=
  {| SplitInfo.index := i + 1;
     SplitInfo.filename := grid_filename i;
     SplitInfo.crop_box := grid_box i;
     SplitInfo.output_size := (target_width, target_height) |}.

Definition grid_body (i : Z) (split_info : list SplitInfo.t)
  : result (list SplitInfo.t) :=
  let crop_box := grid_box i in
  cropped ← crop img crop_box;
  cropped ← (if bool_decide (mode cropped = "P") || bool_decide (mode cropped = "RGBA")
             then convert cropped "RGB" else Ok cropped);
  cropped ← (if bool_decide (Image_size cropped = (target_width, target_height))
             then Ok cropped
             else resize cropped (target_width, target_height));
  let output_filename := grid_filename i in
  fmt ← config_get "output_format" (output_format config);
  q ← config_get "quality" (quality config);
  _ ← save cropped (path_join output_path output_filename) fmt q;
  Ok (split_info ++ [grid_entry i]).

Fixpoint grid_loop (idxs : list nat) (split_info : list SplitInfo.t)
  : result (list SplitInfo.t) :=
  match idxs with
  | [] => Ok split_info
  | i :: idxs =>
      split_info ← grid_body (Z.of_nat i) split_info;
      grid_loop idxs split_info
  end.
End GridLoop.

(** [range(n)] for an integer [n]: empty when [n <= 0]. *)
Definition range (n : Z) : list nat := seq 0 (Z.to_nat n).

Definition split_image_try (image_path output_format_name output_path : string)
    (target_width target_height : Z) : result FileResult.t :=
  img ← Image_open image_path;
  let '(img_width, img_height) := Image_size img in
  let base_name := stem image_path in
  splits ← (if bool_decide (target_height = 0)
            then Raise "integer division or modulo by zero"
            else Ok (img_height `div` target_height));
  let overlap := default 0 (overlap_pixels config) in
  split_info ← grid_loop img img_width img_height target_width target_height
                 overlap base_name output_format_name output_path
                 (range splits) [];
  Ok {| FileResult.success := true;
        FileResult.error := None;
        FileResult.splits_created := Some (Z.of_nat (length split_info));
        FileResult.output_directory := Some output_path;
        FileResult.details := split_info;
        FileResult.source_file := None;
        FileResult.timestamp := None |}.

Definition failure (e : string) (source : option string) (t : option Z)
  : FileResult.t :=
  {| FileResult.success := false;
     FileResult.error := Some e;
     FileResult.splits_created := None;
     FileResult.output_directory := None;
     FileResult.details := [];
     FileResult.source_file := source;
     FileResult.timestamp := t |}.

(** [ImageSplitter.split_image].  The format check and the creation of the
    output directory stand before the [try]: what they raise leaves the
    function. *)
Definition split_image (image_path output_format_name output_dir : string)
  : result FileResult.t :=
  match output_formats config !! output_format_name with
  | None => Raise (msg_unsupported output_format_name)
  | Some target_dims =>
      let output_path := path_join output_dir output_format_name in
      _ ← mkdir output_path;
      match split_image_try image_path output_format_name output_path
              (width target_dims) (height target_dims) with
      | Ok r => Ok r
      | Raise e => Ok (failure e None None)
      end
  end.

(** ** batch_processor.py *)

(** [BatchProcessor.process_single_image]: the whole call sits in a
    [try ... except Exception]. *)
Definition process_single_image (image_path output_format_name output_dir : string)
  : FileResult.t :=
  match split_image image_path output_format_name output_dir with
  | Ok result =>
      {| FileResult.success := FileResult.success result;
         FileResult.error := FileResult.error result;
         FileResult.splits_created := FileResult.splits_created result;
         FileResult.output_directory := FileResult.output_directory result;
         FileResult.details := FileResult.details result;
         FileResult.source_file := Some image_path;
         FileResult.timestamp := Some now |}
  | Raise e => failure e (Some image_path) (Some now)
  end.
End ImageSplitter.

(** The content of a resume file. *)
Record ResumeData : Type := {
  resume_timestamp : Z;
  processed_files : list string;
  total_processed : Z;
}.

Definition image_extensions : list string :=
  [".jpg"; ".jpeg"; ".png"; ".gif"; ".bmp"; ".tiff"].

(** The state of the [as_completed] loop of [process_directory_parallel];
    [resume_files] is the part of the file system that holds resume files. *)
Record run_state : Type := {
  results : list FileResult.t;
  completed : Z;
  processed : gset string;
  resume_files : gmap string ResumeData;
}.

(** What a run leaves behind: [self.results], the resume files, and the
    files that were submitted to the executor. *)
Record run : Type := {
  run_results : list FileResult.t;
  run_resume_files : gmap string ResumeData;
  run_submitted : list string;
}.

Section BatchProcessor.
Context {C : Codec}.
Variable stem : string → string.
Variable now : Z.
Variable config : Config.
(** [input_path.rglob("*")] ([None]: the directory does not exist),
    [Path.suffix.lower()], and the order in which the futures of the
    submitted files complete. *)
Variable rglob : string → option (list string).
Variable suffix_lower : string → string.
Variable as_completed : list string → list string.

Definition save_resume_data (resume_file : string) (processed_files : gset string)
    (fs : gmap string ResumeData) : gmap string ResumeData :=
  <[resume_file :=
      {| resume_timestamp := now;
         processed_files := elements processed_files;
         total_processed := Z.of_nat (size processed_files) |}]> fs.

Definition completed_body (output_format_name output_dir : string)
    (resume_file : option string) (image_file : string) (st : run_state)
  : run_state :=
  let result := process_single_image stem now config image_file
                  output_format_name output_dir in
  let completed := completed st + 1 in
  if truthy resume_file then
    let processed := {[image_file]} ∪ processed st in
    {| results := results st ++ [result];
       completed := completed;
       processed := processed;
       resume_files :=
         if bool_decide (completed `mod` 50 = 0)
         then save_resume_data (default "" resume_file) processed (resume_files st)
         else resume_files st |}
  else
    {| results := results st ++ [result];
       completed := completed;
       processed := processed st;
       resume_files := resume_files st |}.

Definition process_directory_parallel (self_results : list FileResult.t)
    (fs : gmap string ResumeData)
    (input_dir output_format_name output_dir : string)
    (resume_file : option string) : result run :=
  match rglob input_dir with
  | None => Raise ("入力ディレクトリが見つかりません: " +:+ input_dir)
  | Some entries =>
      let image_files :=
        filter (λ f, suffix_lower f ∈ image_extensions) entries in
      let processed_files : gset string :=
        if truthy resume_file then
          match fs !! default "" resume_file with
          | Some resume_data => list_to_set (processed_files resume_data)
          | None => ∅
          end
        else ∅ in
      let remaining_files := filter (λ f, f ∉ processed_files) image_files in
      if bool_decide (remaining_files = []) then
        Ok {| run_results := self_results;
              run_resume_files := fs;
              run_submitted := [] |}
      else
        let st := foldl (λ st f, completed_body output_format_name output_dir
                                   resume_file f st)
                    {| results := self_results; completed := 0;
                       processed := processed_files; resume_files := fs |}
                    (as_completed remaining_files) in
        Ok {| run_results := results st;
              run_resume_files :=
                if truthy resume_file
                then save_resume_data (default "" resume_file) (processed st)
                       (resume_files st)
                else resume_files st;
              run_submitted := remaining_files |}
  end.
End BatchProcessor.

(** ** A reference codec

    Images are their pixel sizes; the files that can be opened are listed in
    a table.  No step other than opening a missing file raises, an empty
    crop included. *)
Definition table_codec (files : list (string * (Z * Z))) : Codec :=
  {| image := Z * Z;
     Image_open := λ p,
       match list_find (λ e, e.1 = p) files with
       | Some (_, e) => Ok e.2
       | None => Raise ("cannot identify image file '" +:+ p +:+ "'")
       end;
     Image_size := λ im, im;
     crop := λ _ b, Ok (b.1.2 - b.1.1.1, b.2 - b.1.1.2);
     mode := λ _, "RGB";
     convert := λ im _, Ok im;
     resize := λ _ d, Ok d;
     save := λ im _ _ _, Ok (im.1 * im.2);
     mkdir := λ _, Ok ();
     display_data := λ _, Ok "" |}.

Definition example_codec : Codec :=
  table_codec [("a.png", (800, 3000)); ("b.png", (800, 3000))].

(** The same codec, except that saving an image without pixels raises. *)
Definition strict_codec : Codec :=
  {| image := Z * Z;
     Image_open := Image_open (Codec := example_codec);
     Image_size := λ im, im;
     crop := λ _ b, Ok (b.1.2 - b.1.1.1, b.2 - b.1.1.2);
     mode := λ _, "RGB";
     convert := λ im _, Ok im;
     resize := λ _ d, Ok d;
     save := λ im _ _ _,
       if bool_decide (im.1 = 0 ∨ im.2 = 0)
       then Raise "cannot write empty image"
       else Ok (im.1 * im.2);
     mkdir := λ _, Ok ();
     display_data := λ _, Ok "" |}.

Definition example_splitter : InteractiveSplitter :=
  {| current_image_path := Some "a.png";
     current_image_data := None;
     current_sku := Some "SKU";
     uploaded_images :=
       [ {| info_path := "a.png"; info_filename := "a.png" |};
         {| info_path := "b.png"; info_filename := "b.png" |} ];
     current_image_index := 0 |}.


(** Two responses that agree on everything but the number of skip areas
    reported, which is one higher in the first. *)
Definition same_segments (with_area without : response) : Prop :=
  match with_area, without with
  | Success r, Success r' =>
      SplitResult.details r = SplitResult.details r' ∧
      SplitResult.splits_created r = SplitResult.splits_created r' ∧
      SplitResult.excluded_segments r = SplitResult.excluded_segments r' ∧
      SplitResult.output_directory r = SplitResult.output_directory r' ∧
      SplitResult.sku r = SplitResult.sku r' ∧
      SplitResult.skipped_areas r = SplitResult.skipped_areas r' + 1
  | Error e, Error e' => e = e'
  | _, _ => False
  end.

(** ** Further functions of interactive_splitter.py *)

Module PreviewSegment.
Record t : Type := mk {
  index : Z;
  top : Z;
  height : Z;
  bottom : Z;
  is_skipped : bool;
}.
End PreviewSegment.

Definition msg_not_loaded : string := "画像が読み込まれていません".
Definition msg_no_uploads : string := "アップロードされた画像がありません".
Definition msg_bad_direction : string := "無効な方向指定です".

(** One iteration of the loop of the route [preview_splits]: a segment that
    overlaps a skip area is left out and does not advance [segment_index]. *)
Definition preview_body (sorted_positions : list Z) (skip_areas : list skip_area)
    (i : nat) (st : list PreviewSegment.t * Z) : list PreviewSegment.t * Z :=
  let top := nth i sorted_positions 0 in
  let bottom := nth (S i) sorted_positions 0 in
  let segment_height := bottom - top in
  if is_in_skip_area skip_areas top bottom then st
  else (st.1 ++ [ {| PreviewSegment.index := st.2;
                     PreviewSegment.top := top;
                     PreviewSegment.height := segment_height;
                     PreviewSegment.bottom := bottom;
                     PreviewSegment.is_skipped := false |} ],
        st.2 + 1).

(** The route [preview_splits]; [display_height] is
    [current_image_data['display_size']['height']], [None] when no image is
    loaded.  The positions are in display space and are not scaled. *)
Definition preview_splits (display_height : option Z) (cut_positions : list Z)
    (skip_areas : list skip_area) : string + list PreviewSegment.t :=
  match display_height with
  | None => inl msg_not_loaded
  | Some height =>
      let sorted_positions := boundaries cut_positions height in
      inr (foldl (λ st i, preview_body sorted_positions skip_areas i st)
             ([], 1) (range_pairs sorted_positions)).1
  end.

(** [InteractiveSplitter.clear_session], without the removal of the
    uploaded files: the SKU is the one field it leaves. *)
Definition clear_session (self : InteractiveSplitter) : InteractiveSplitter :=
  {| current_image_path := None;
     current_image_data := None;
     current_sku := current_sku self;
     uploaded_images := [];
     current_image_index := -1 |}.

Definition dummy_info : image_info := {| info_path := ""; info_filename := "" |}.

Section Navigate.
Context {C : Codec}.

(** The route [navigate_image].  It answers with the error, or with the
    display data, the new index, the number of images and the file name;
    the index is stored only when the image loads. *)
Definition navigate_image (self : InteractiveSplitter) (direction : string)
  : InteractiveSplitter * (string + (string * Z * Z * string)) :=
  if bool_decide (uploaded_images self = []) then (self, inl msg_no_uploads)
  else
    let total_images := Z.of_nat (length (uploaded_images self)) in
    let current_index := current_image_index self in
    let step new_index :=
      let new_image := nth (Z.to_nat new_index) (uploaded_images self) dummy_info in
      match load_image self (info_path new_image) with
      | (self', Ok data) =>
          ({| current_image_path := current_image_path self';
              current_image_data := current_image_data self';
              current_sku := current_sku self';
              uploaded_images := uploaded_images self';
              current_image_index := new_index |},
           inr (data, new_index, total_images, info_filename new_image))
      | (self', Raise e) => (self', inl e)
      end in
    if bool_decide (direction = "next")
    then step ((current_index + 1) `mod` total_images)
    else if bool_decide (direction = "prev")
    then step ((current_index - 1) `mod` total_images)
    else (self, inl msg_bad_direction).
End Navigate.

(** ** Further functions of image_splitter.py and batch_processor.py *)

(** [d[k] = d.get(k, 0) + 1]. *)
Definition count_up `{Countable K} (k : K) (d : gmap K Z) : gmap K Z :=
  <[k := default 0 (d !! k) + 1]> d.

(** The sum of the values of a histogram. *)
Definition histogram_total `{Countable K} (d : gmap K Z) : Z :=
  map_fold (λ _ v acc, v + acc) 0 d.

(** The sum of key times count over a histogram with integer keys. *)
Definition weighted_total (d : gmap Z Z) : Z :=
  map_fold (λ k v acc, k * v + acc) 0 d.

(** The report of [BatchProcessor.generate_detailed_report].  The field
    [success_rate] is a floating-point quotient and is left out. *)
Module BatchReport.
Record t : Type := mk {
  total_processed : Z;
  successful : Z;
  failed : Z;
  total_splits_created : Z;
  error_analysis : gmap string Z;
  split_statistics : gmap Z Z;
  processing_details : list FileResult.t;
}.
End BatchReport.

Definition generate_detailed_report (results : list FileResult.t) : BatchReport.t :=
  let successful_results := filter (λ r, FileResult.success r = true) results in
  let failed_results := filter (λ r, FileResult.success r ≠ true) results in
  let error_analysis :=
    foldl (λ d r, count_up (default "Unknown" (FileResult.error r)) d)
          ∅ failed_results in
  let stats :=
    foldl (λ st r,
             let splits := default 0 (FileResult.splits_created r) in
             (count_up splits st.1, st.2 + splits))
          (∅, 0) successful_results in
  {| BatchReport.total_processed := Z.of_nat (length results);
     BatchReport.successful := Z.of_nat (length successful_results);
     BatchReport.failed := Z.of_nat (length failed_results);
     BatchReport.total_splits_created := stats.2;
     BatchReport.error_analysis := error_analysis;
     BatchReport.split_statistics := stats.1;
     BatchReport.processing_details := results |}.

(** The report of [ImageSplitter.generate_report]. *)
Module SplitReport.
Record t : Type := mk {
  total_processed : Z;
  successful : Z;
  failed : Z;
  total_splits_created : Z;
  details : list FileResult.t;
}.
End SplitReport.

Definition generate_report (results : list FileResult.t) : SplitReport.t :=
  {| SplitReport.total_processed := Z.of_nat (length results);
     SplitReport.successful :=
       Z.of_nat (length (filter (λ r, FileResult.success r = true) results));
     SplitReport.failed :=
       Z.of_nat (length (filter (λ r, FileResult.success r ≠ true) results));
     SplitReport.total_splits_created :=
       sum (map (λ r, default 0 (FileResult.splits_created r)) results);
     SplitReport.details := results |}.

(** [ImageSplitter.load_config] over the configuration files of the file
    system: a file that exists is returned as it is, a missing one is
    created with the default configuration. *)
Definition load_config (fs : gmap string Config) (config_file : string)
  : gmap string Config * Config :=
  match fs !! config_file with
  | Some config => (fs, config)
  | None => (<[config_file := default_config]> fs, default_config)
  end.

(** The dictionary of [analyze_image]; [file_size] is the byte size from
    which the source derives [file_size_mb], and [aspect_ratio] is left out:
    both are rounded floating-point values. *)
Module Analysis.
Record t : Type := mk {
  path : string;
  dimensions : Z * Z;
  file_size : Z;
  is_vertical : bool;
  splits_possible : gmap string Z;
}.
End Analysis.

Section ImageSplitterBatch.
Context {C : Codec}.
Variable stem : string → string.
Variable config : Config.
(** [os.path.getsize], [input_path.iterdir()] ([None]: the directory does
    not exist) and [Path.suffix.lower()]. *)
Variable getsize : string → result Z.
Variable iterdir : string → option (list string).
Variable suffix_lower : string → string.

(** [analyze_image]: any exception gives [None].  The quotient
    [height / width] of [aspect_ratio] raises for a width of 0, and the
    loop over the formats raises for a target height of 0 when the image is
    vertical. *)
Definition analyze_image (image_path : string) : option Analysis.t :=
  match
    (img ← Image_open image_path;
     let '(image_width, image_height) := Image_size img in
     file_size ← getsize image_path;
     _ ← (if bool_decide (image_width = 0)
          then Raise "division by zero" else Ok ());
     let is_vertical := bool_decide (image_height > image_width) in
     splits_possible ←
       (if is_vertical then
          if bool_decide (map_Forall (λ _ d, height d ≠ 0) (output_formats config))
          then Ok ((λ d, image_height `div` height d) <$> output_formats config)
          else Raise "integer division or modulo by zero"
        else Ok ∅);
     Ok {| Analysis.path := image_path;
           Analysis.dimensions := (image_width, image_height);
           Analysis.file_size := file_size;
           Analysis.is_vertical := is_vertical;
           Analysis.splits_possible := splits_possible |})
  with
  | Ok analysis => Some analysis
  | Raise _ => None
  end.

(** [ImageSplitter.batch_process]: [split_image] is called outside any
    [try], with the default output directory. *)
Fixpoint image_batch_loop (output_format_name : string) (files : list string)
    (results : list (FileResult.t * option Analysis.t))
  : result (list (FileResult.t * option Analysis.t)) :=
  match files with
  | [] => Ok results
  | image_file :: files =>
      if bool_decide (suffix_lower image_file ∈ image_extensions) then
        let analysis := analyze_image image_file in
        r ← split_image stem config image_file output_format_name "output";
        image_batch_loop output_format_name files
          (results ++
             [ ({| FileResult.success := FileResult.success r;
                   FileResult.error := FileResult.error r;
                   FileResult.splits_created := FileResult.splits_created r;
                   FileResult.output_directory := FileResult.output_directory r;
                   FileResult.details := FileResult.details r;
                   FileResult.source_file := Some image_file;
                   FileResult.timestamp := FileResult.timestamp r |},
                analysis) ])
      else image_batch_loop output_format_name files results
  end.

Definition image_batch_process (input_dir output_format_name : string)
  : result (list (FileResult.t * option Analysis.t)) :=
  match iterdir input_dir with
  | None => Raise ("入力ディレクトリが見つかりません: " +:+ input_dir)
  | Some files => image_batch_loop output_format_name files []
  end.
End ImageSplitterBatch.

(** ** Download URLs *)

(** [s.split(c)] for a separator of one character. *)
Fixpoint split_on (c : Ascii.ascii) (s : string) : list string :=
  match s with
  | EmptyString => [""]
  | String a s' =>
      let parts := split_on c s' in
      if bool_decide (a = c) then "" :: parts
      else match parts with
           | p :: ps => String a p :: ps
           | [] => [String a ""]
           end
  end.

(** The character ['/']. *)
Definition slash : Ascii.ascii := Ascii.ascii_of_nat 47.

(** The parsing of a download URL in the route [download_multiple]:
    [parts[-2]] and [parts[-1]] when there are at least three parts. *)
Definition parse_download_url (url : string) : option (string * string) :=
  let parts := split_on slash url in
  if bool_decide (3 ≤ length parts)%nat then
    Some (nth (length parts - 2) parts "", nth (length parts - 1) parts "")
  else None.

(** The file the routes [download_file] and [download_multiple] read. *)
Definition download_path (sku_name filename : string) : string :=
  path_join (path_join (path_join "output" "manual_split") sku_name) filename.

(** Whether a character occurs in a string. *)
Fixpoint occurs (c : Ascii.ascii) (s : string) : bool :=
  match s with
  | EmptyString => false
  | String a s' => bool_decide (a = c) || occurs c s'
  end.

(** ** Shapes of the planner's output *)

(** What the planner's loop decides about an output apart from its number
    and file: crop box, dimensions and suffix flag. *)
Definition geometry (d : SegmentOutput.t) : box * (Z * Z) * bool :=
  (SegmentOutput.crop_box d, SegmentOutput.dimensions d,
   SegmentOutput.has_size_suffix d).

(** The geometries that iteration [i] of the planner's loop appends. *)
Definition segment_shape (img_width : Z) (sorted_positions : list Z)
    (skip_areas : list skip_area) (excluded_segments size_segments : list Z)
    (i : nat) : list (box * (Z * Z) * bool) :=
  let top := nth i sorted_positions 0 in
  let bottom := nth (S i) sorted_positions 0 in
  if dropped sorted_positions skip_areas excluded_segments i then []
  else ((0, top, img_width, bottom), (img_width, bottom - top), false)
       :: (if inb (Z.of_nat i + 1) size_segments
           then [((0, top, img_width, bottom), (img_width, bottom - top), true)]
           else []).

(** The boundary pairs that are not dropped. *)
Definition survivors (sorted_positions : list Z) (skip_areas : list skip_area)
    (excluded_segments : list Z) : list nat :=
  filter (λ i, dropped sorted_positions skip_areas excluded_segments i = false)
         (range_pairs sorted_positions).

(** The base artifacts of a list of outputs. *)
Definition base_outputs (details : list SegmentOutput.t) : list SegmentOutput.t :=
  filter (λ d, SegmentOutput.has_size_suffix d = false) details.

(** ** Counting over batch entries *)

(** [result['splits_created']] of a batch entry that is not an error. *)
Definition created (r : response) : Z :=
  match r with
  | Success r => SplitResult.splits_created r
  | Error _ => 0
  end.

Definition created_total (entries : list (string * Z * response)) : Z :=
  sum (map (λ e, created e.2) entries).

(** The numbers of the outputs of a batch entry. *)
Definition output_numbers (r : response) : list Z :=
  match r with
  | Success r => map SegmentOutput.index (SplitResult.details r)
  | Error _ => []
  end.

(** ** Names and numbers of the planner's outputs *)

(** The file name of an artifact numbered [n]. *)
Definition artifact_name (sku_name : string) (n : Z) (suffix : bool) : string :=
  if suffix then size_filename sku_name n else output_filename sku_name n.

(** The number and the suffix flag of an output. *)
Definition label (d : SegmentOutput.t) : Z * bool :=
  (SegmentOutput.index d, SegmentOutput.has_size_suffix d).

(** An output that carries the SKU, and whose file name and download URL
    are those the loop builds from the SKU, its number and its flag. *)
Definition well_named (sku_name : string) (d : SegmentOutput.t) : Prop :=
  SegmentOutput.sku d = sku_name ∧
  SegmentOutput.filename d
    = artifact_name sku_name (SegmentOutput.index d)
        (SegmentOutput.has_size_suffix d) ∧
  SegmentOutput.download_url d
    = "/download/" +:+ sku_name +:+ "/" +:+ SegmentOutput.filename d.

(** The counter that numbers the outputs: [global_segment_index] under
    global numbering, [segment_index] otherwise. *)
Definition counter (g : bool) (st : loop_state) : Z :=
  if g then global_segment_index st else segment_index st.

(** The numbers and flags that iteration [i] of [split_by_positions]
    appends. *)
Definition segment_labels (sorted_positions : list Z)
    (skip_areas : list skip_area) (excluded_segments size_segments : list Z)
    (i : nat) : list (Z * bool) :=
  if dropped sorted_positions skip_areas excluded_segments i then []
  else (Z.of_nat i + 1, false)
       :: (if inb (Z.of_nat i + 1) size_segments
           then [(Z.of_nat i + 1, true)] else []).

(** [read_number acc s]: the decimal digits at the front of [s], read into
    [acc], and what follows them. *)
Fixpoint read_number (acc : N) (s : string) : N * string :=
  match s with
  | EmptyString => (acc, "")
  | String c s' =>
      match Ascii.is_nat c with
      | Some d => read_number (10 * acc + N.of_nat d) s'
      | None => (acc, s)
      end
  end.

(** A string that does not start with a digit. *)
Definition no_digit_ahead (s : string) : Prop :=
  match s with
  | EmptyString => True
  | String c _ => Ascii.is_nat c = None
  end.

(** * Properties *)

(** ** The error monad *)

Lemma bind_Ok {A B} (m : result A) (k : A → result B) (b : B) :
  m ≫= k = Ok b → ∃ a, m = Ok a ∧ k a = Ok b.
Proof. destruct m as [a|e]; [eauto | discriminate]. Qed.

Lemma is_ok_Ok {A} (r : result A) : is_ok r = true → ∃ a, r = Ok a.
Proof. destruct r; [eauto | discriminate]. Qed.

Ltac bind_inv H :=
  let a := fresh "a" in
  let E := fresh "E" in
  apply bind_Ok in H; destruct H as (a & E & H).

(** ** Sorting and boundary pairs *)

Lemma sorted_perm l : sorted l ≡ₚ l.
Proof. apply merge_sort_Permutation. Qed.

Lemma sorted_length l : length (sorted l) = length l.
Proof. apply Permutation_length, sorted_perm. Qed.

Lemma sorted_strongly l : StronglySorted Z.le (sorted l).
Proof. apply StronglySorted_merge_sort; apply _. Qed.

Lemma sorted_elem x l : x ∈ sorted l ↔ x ∈ l.
Proof. by rewrite sorted_perm. Qed.

(** In a sorted list the entries grow with the position. *)
Lemma strongly_sorted_nth (l : list Z) :
  StronglySorted Z.le l →
  ∀ i j, (i ≤ j)%nat → (j < length l)%nat → nth i l 0 ≤ nth j l 0.
Proof.
  induction 1 as [|x l Hl IH Hx]; intros i j Hij Hj; simpl in *; [lia|].
  destruct j as [|j].
  - assert (i = 0%nat) as -> by lia. lia.
  - destruct i as [|i].
    + rewrite Forall_forall in Hx. apply Hx.
      apply list_elem_of_In, nth_In. lia.
    + apply IH; lia.
Qed.

Lemma sorted_nth_le l i j :
  (i ≤ j)%nat → (j < length (sorted l))%nat →
  nth i (sorted l) 0 ≤ nth j (sorted l) 0.
Proof. apply strongly_sorted_nth, sorted_strongly. Qed.


(** The heights of the consecutive intervals of a list telescope. *)
Lemma heights_telescope (l : list Z) a n :
  (a + n < length l)%nat →
  foldr Z.add 0 (map (λ i, nth (S i) l 0 - nth i l 0) (seq a n))
  = nth (a + n) l 0 - nth a l 0.
Proof.
  revert a. induction n as [|n IH]; intros a Hn; simpl.
  - rewrite Nat.add_0_r. lia.
  - rewrite IH by lia. replace (S a + n)%nat with (a + S n)%nat by lia. lia.
Qed.

Lemma boundaries_length cuts H :
  length (boundaries cuts H) = S (S (length cuts)).
Proof.
  unfold boundaries. rewrite sorted_length. simpl.
  rewrite length_app. simpl. lia.
Qed.

Lemma boundaries_elem x cuts H :
  x ∈ boundaries cuts H ↔ x = 0 ∨ x ∈ cuts ∨ x = H.
Proof.
  unfold boundaries. rewrite sorted_elem. simpl.
  rewrite elem_of_cons, elem_of_app, list_elem_of_singleton. tauto.
Qed.

Lemma boundaries_nth_elem cuts H i :
  (i < length (boundaries cuts H))%nat →
  nth i (boundaries cuts H) 0 ∈ boundaries cuts H.
Proof. intros. by apply list_elem_of_In, nth_In. Qed.

Lemma elem_nth (l : list Z) x :
  x ∈ l → ∃ j, (j < length l)%nat ∧ nth j l 0 = x.
Proof. intros Hx. apply list_elem_of_In in Hx. by apply In_nth. Qed.

(** With the cuts inside the image, the first boundary is [0] and the last
    one is the image height. *)
Lemma boundaries_first cuts H :
  0 ≤ H → Forall (λ c, 0 ≤ c ≤ H) cuts → nth 0 (boundaries cuts H) 0 = 0.
Proof.
  intros HH Hc.
  assert (0 ∈ boundaries cuts H) as Hz by (apply boundaries_elem; auto).
  apply elem_nth in Hz as (j & Hj & Hz).
  pose proof (sorted_nth_le ([0] ++ cuts ++ [H]) 0 j ltac:(lia) Hj) as Hle.
  fold (boundaries cuts H) in Hle.
  assert (nth 0 (boundaries cuts H) 0 ∈ boundaries cuts H) as Hin.
  { apply boundaries_nth_elem. rewrite boundaries_length. lia. }
  apply boundaries_elem in Hin as [?|[Hin|?]]; [lia| |lia].
  rewrite Forall_forall in Hc. apply Hc in Hin. lia.
Qed.

Lemma boundaries_last cuts H :
  0 ≤ H → Forall (λ c, 0 ≤ c ≤ H) cuts →
  nth (S (length cuts)) (boundaries cuts H) 0 = H.
Proof.
  intros HH Hc.
  assert (H ∈ boundaries cuts H) as Hz by (apply boundaries_elem; auto).
  apply elem_nth in Hz as (j & Hj & Hz).
  pose proof (boundaries_length cuts H) as Hlen.
  pose proof (sorted_nth_le ([0] ++ cuts ++ [H]) j (S (length cuts))) as Hle.
  fold (boundaries cuts H) in Hle.
  specialize (Hle ltac:(lia) ltac:(lia)).
  assert (nth (S (length cuts)) (boundaries cuts H) 0 ∈ boundaries cuts H) as Hin.
  { apply boundaries_nth_elem. lia. }
  apply boundaries_elem in Hin as [?|[Hin|?]]; [lia| |lia].
  rewrite Forall_forall in Hc. apply Hc in Hin. lia.
Qed.




(** ** Filtering *)

Lemma filter_all {A} (P : A → Prop) `{∀ x, Decision (P x)} (l : list A) :
  Forall P l → filter P l = l.
Proof.
  induction 1 as [|x l Hx _ IH]; [done|].
  by rewrite filter_cons_True, IH.
Qed.

Lemma filter_none {A} (P : A → Prop) `{∀ x, Decision (P x)} (l : list A) :
  Forall (λ x, ¬ P x) l → filter P l = [].
Proof.
  induction 1 as [|x l Hx _ IH]; [done|].
  by rewrite filter_cons_False, IH.
Qed.

Lemma elem_of_concat {A} (x : A) (ls : list (list A)) :
  x ∈ concat ls ↔ ∃ j l, ls !! j = Some l ∧ x ∈ l.
Proof.
  induction ls as [|l ls IH]; simpl.
  - split; [by intros ?%elem_of_nil | by intros (j & l & ? & _)].
  - rewrite elem_of_app, IH. split.
    + intros [Hx | (j & l' & Hj & Hx)]; [by exists 0%nat, l | by exists (S j), l'].
    + intros ([|j] & l' & Hj & Hx); simpl in Hj; [left; congruence | right; eauto].
Qed.

(** ** The planner's loop *)

Section LoopFacts.
Context {C : Codec}.
Variables (img : image) (img_width : Z) (sku_name sku_output_path : string).
Variables (sorted_positions : list Z) (skip_areas : list skip_area).
Variables (excluded_segments size_segments : list Z).

Local Abbreviation entries_at :=
  (entries img img_width sku_name sku_output_path sorted_positions
     skip_areas excluded_segments size_segments).
Local Abbreviation dropped_at :=
  (dropped sorted_positions skip_areas excluded_segments).
Local Abbreviation loop := (split_loop img img_width sku_name sku_output_path
                    sorted_positions skip_areas excluded_segments
                    size_segments false).

Lemma emit_segment_inv local n top bottom es :
  emit_segment img img_width sku_name sku_output_path size_segments
    local n top bottom = Ok es →
  ∃ sz sz',
    es = artifact img_width sku_name n (output_filename sku_name n)
           (0, top, img_width, bottom) sz false
         :: (if inb local size_segments
             then [artifact img_width sku_name n (size_filename sku_name n)
                     (0, top, img_width, bottom) sz' true]
             else []).
Proof.
  unfold emit_segment. intros H.
  bind_inv H. bind_inv H. bind_inv H.
  destruct (inb local size_segments).
  - bind_inv H. injection H as <-. eauto.
  - injection H as <-. exists a1, 0. done.
Qed.

Lemma entries_index i es d :
  entries_at i = Ok es → d ∈ es →
  SegmentOutput.index d = Z.of_nat i + 1 ∧
  SegmentOutput.crop_box d = pair_box img_width sorted_positions i ∧
  dropped_at i = false ∧
  (SegmentOutput.filename d = output_filename sku_name (Z.of_nat i + 1) ∨
   SegmentOutput.filename d = size_filename sku_name (Z.of_nat i + 1)).
Proof.
  unfold entries. destruct (dropped _ _ _ i) eqn:Hd.
  - intros [= <-] Hin. by apply elem_of_nil in Hin.
  - intros (sz & sz' & ->)%emit_segment_inv Hin.
    apply elem_of_cons in Hin as [->|Hin]; [simpl; auto|].
    destruct (inb _ size_segments); [|by apply elem_of_nil in Hin].
    apply list_elem_of_singleton in Hin as ->. simpl; auto.
Qed.

Lemma entries_survivor i es :
  dropped_at i = false → entries_at i = Ok es →
  ∃ sz sz',
    es = artifact img_width sku_name (Z.of_nat i + 1)
           (output_filename sku_name (Z.of_nat i + 1))
           (pair_box img_width sorted_positions i) sz false
         :: (if inb (Z.of_nat i + 1) size_segments
             then [artifact img_width sku_name (Z.of_nat i + 1)
                     (size_filename sku_name (Z.of_nat i + 1))
                     (pair_box img_width sorted_positions i) sz' true]
             else []).
Proof.
  unfold entries. intros ->. apply emit_segment_inv.
Qed.

Lemma entries_dropped i es :
  dropped_at i = true → entries_at i = Ok es → es = [].
Proof. unfold entries. intros ->. congruence. Qed.

(** The loop appends the entries of its iterations in order, advances the
    segment index at every iteration, and counts the excluded indices. *)
Lemma split_loop_spec n : ∀ a st st',
  segment_index st = Z.of_nat a + 1 →
  loop (seq a n) st = Ok st' →
  ∃ ess,
    Forall2 (λ i es, entries_at i = Ok es) (seq a n) ess ∧
    split_info st' = split_info st ++ concat ess ∧
    segment_index st' = Z.of_nat (a + n) + 1 ∧
    excluded_by_segment_count st' =
      excluded_by_segment_count st +
      Z.of_nat (length (filter (λ i, inb (Z.of_nat i + 1) excluded_segments = true)
                          (seq a n))).
Proof.
  induction n as [|n IH]; intros a st st' Hidx Hloop; simpl in *.
  - injection Hloop as <-. exists []. split_and!; [constructor| |f_equal; lia|lia].
    by rewrite app_nil_r.
  - bind_inv Hloop. rename a0 into st1.
    unfold loop_body in E. rewrite Hidx in E.
    unfold entries, dropped.
    destruct (inb (Z.of_nat a + 1) excluded_segments) eqn:Hex; simpl.
    + injection E as <-.
      apply IH in Hloop as (ess & HF & Hinfo & Hseg & Hcnt); [|simpl; lia].
      exists ([] :: ess). simpl in *. split_and!.
      * constructor; [|done]. unfold entries, dropped. by rewrite Hex.
      * done.
      * rewrite Hseg. f_equal. lia.
      * rewrite Hcnt. rewrite filter_cons_True by done. simpl. lia.
    + destruct (is_in_skip_area _ _ _) eqn:Hskip.
      * injection E as <-.
        apply IH in Hloop as (ess & HF & Hinfo & Hseg & Hcnt); [|simpl; lia].
        exists ([] :: ess). simpl in *. split_and!.
        -- constructor; [|done]. unfold entries, dropped. by rewrite Hex, Hskip.
        -- done.
        -- rewrite Hseg. f_equal. lia.
        -- rewrite Hcnt. rewrite filter_cons_False; [lia|]. by rewrite Hex.
      * bind_inv E. injection E as <-.
        apply IH in Hloop as (ess & HF & Hinfo & Hseg & Hcnt); [|simpl; lia].
        exists (a0 :: ess). simpl in *. split_and!.
        -- constructor; [|done]. unfold entries, dropped. by rewrite Hex, Hskip.
        -- by rewrite Hinfo, <- app_assoc.
        -- rewrite Hseg. f_equal. lia.
        -- rewrite Hcnt. rewrite filter_cons_False; [lia|]. by rewrite Hex.
Qed.

(** Conversely the loop succeeds when every iteration's codec calls do. *)
Lemma split_loop_ok n : ∀ a st,
  segment_index st = Z.of_nat a + 1 →
  Forall (λ i, is_ok (entries_at i) = true) (seq a n) →
  is_ok (loop (seq a n) st) = true.
Proof.
  induction n as [|n IH]; intros a st Hidx HF; simpl in *; [done|].
  apply Forall_cons in HF as [Ha HF].
  unfold loop_body. rewrite Hidx.
  unfold entries, dropped in Ha.
  destruct (inb (Z.of_nat a + 1) excluded_segments); simpl in *.
  - apply IH; [simpl; lia|done].
  - destruct (is_in_skip_area _ _ _).
    + apply IH; [simpl; lia|done].
    + apply is_ok_Ok in Ha as [es ->]. simpl. apply IH; [simpl; lia|done].
Qed.

Lemma entries_all_index i es :
  entries_at i = Ok es →
  Forall (λ d, SegmentOutput.index d = Z.of_nat i + 1) es.
Proof.
  intros He. apply Forall_forall. intros d Hd.
  by destruct (entries_index _ _ _ He Hd).
Qed.

(** The index of every entry appended from iteration [a] on is above [a]. *)
Lemma concat_index_above n : ∀ a ess,
  Forall2 (λ i es, entries_at i = Ok es) (seq a n) ess →
  Forall (λ d, Z.of_nat a + 1 ≤ SegmentOutput.index d) (concat ess).
Proof.
  induction n as [|n IH]; intros a ess HF; simpl in *.
  - apply Forall2_nil_inv_l in HF as ->. constructor.
  - apply Forall2_cons_inv_l in HF as (es0 & ess' & He0 & HF & ->).
    simpl. apply Forall_app. split.
    + eapply Forall_impl; [by apply entries_all_index|]. simpl. lia.
    + eapply Forall_impl; [by apply IH|]. simpl. lia.
Qed.

(** The artifacts numbered [a + j + 1] are those of iteration [a + j]. *)
Lemma filter_index_concat n : ∀ a ess,
  Forall2 (λ i es, entries_at i = Ok es) (seq a n) ess →
  ∀ j es, ess !! j = Some es →
  filter (λ d, SegmentOutput.index d = Z.of_nat (a + j) + 1) (concat ess) = es.
Proof.
  induction n as [|n IH]; intros a ess HF j es Hj; simpl in *.
  - apply Forall2_nil_inv_l in HF as ->. done.
  - apply Forall2_cons_inv_l in HF as (es0 & ess' & He0 & HF & ->).
    simpl. rewrite filter_app. destruct j as [|j]; simpl in *.
    + injection Hj as ->. rewrite Nat.add_0_r.
      rewrite (filter_all _ es) by by apply entries_all_index.
      rewrite (filter_none _ (concat ess')); [by rewrite app_nil_r|].
      eapply Forall_impl; [by eapply concat_index_above|]. simpl. lia.
    + rewrite (filter_none _ es0).
      2:{ eapply Forall_impl; [by apply entries_all_index|]. simpl. lia. }
      simpl. replace (a + S j)%nat with (S a + j)%nat by lia. by eapply IH.
Qed.
End LoopFacts.

(** ** split_by_positions *)

Section SplitFacts.
Context {C : Codec}.

Lemma filenames_differ sku_name n :
  output_filename sku_name n ≠ size_filename sku_name n.
Proof.
  unfold output_filename, size_filename. intros Heq.
  do 3 apply String.app_inj in Heq. discriminate.
Qed.

(** A successful call went through the loop over all boundary pairs of
    the loaded image. *)
Lemma split_by_positions_success self cuts skips excl sizes r path img W H :
  current_image_path self = Some path →
  Image_open path = Ok img →
  Image_size img = (W, H) →
  split_by_positions self cuts skips excl sizes = Success r →
  ∃ sku_name ess,
    current_sku self = Some sku_name ∧
    SplitResult.sku r = sku_name ∧
    Forall2 (λ i es,
               entries img W sku_name
                 (path_join (path_join "output" "manual_split") sku_name)
                 (boundaries cuts H) skips excl sizes i = Ok es)
            (range_pairs (boundaries cuts H)) ess ∧
    SplitResult.details r = concat ess ∧
    SplitResult.splits_created r = Z.of_nat (length (concat ess)) ∧
    SplitResult.skipped_areas r = Z.of_nat (length skips) ∧
    SplitResult.excluded_segments r =
      Z.of_nat (length (filter (λ i, inb (Z.of_nat i + 1) excl = true)
                          (range_pairs (boundaries cuts H)))).
Proof.
  intros Hpath Hopen Hsize. unfold split_by_positions.
  rewrite Hpath. destruct (_ || _); [discriminate|].
  destruct (current_sku self) as [sku_name|] eqn:Hsku; [|discriminate].
  destruct (negb _); [discriminate|]. simpl.
  unfold split_try. rewrite Hopen. simpl. rewrite Hsize.
  destruct (mkdir _) as [[]|]; [simpl|discriminate].
  destruct (split_loop _ _ _ _ _ _ _ _ _ _ _) as [st|] eqn:Hloop;
    [simpl|discriminate].
  intros [= <-]. simpl.
  apply split_loop_spec in Hloop as (ess & HF & Hinfo & _ & Hcnt); [|done].
  simpl in *. exists sku_name, ess. rewrite Hinfo, Hcnt. split_and!; try done.
Qed.

(** With a codec that does not fail, an image that opens, a SKU and at
    least one cut, the call succeeds. *)
Lemma entries_ok img W sku_name dir sp skips excl sizes i :
  never_fails C →
  is_ok (entries img W sku_name dir sp skips excl sizes i) = true.
Proof.
  intros (Hcrop & Hconv & _ & Hsave & _). unfold entries.
  destruct (dropped _ _ _ _); [done|]. unfold emit_segment.
  destruct (is_ok_Ok _ (Hcrop img (0, nth i sp 0, W, nth (S i) sp 0)))
    as [c ->]. simpl.
  assert (∃ c', (if bool_decide (mode c = "P") || bool_decide (mode c = "RGBA")
                 then convert c "RGB" else Ok c) = Ok c') as [c' ->].
  { destruct (_ || _); [apply is_ok_Ok, Hconv | eauto]. }
  simpl.
  destruct (is_ok_Ok _ (Hsave c'
    (path_join dir (output_filename sku_name (Z.of_nat i + 1))) "JPEG" 95))
    as [sz ->]. simpl.
  destruct (inb _ sizes); [|done].
  destruct (is_ok_Ok _ (Hsave c'
    (path_join dir (size_filename sku_name (Z.of_nat i + 1))) "JPEG" 95))
    as [sz' ->]. done.
Qed.

Lemma split_by_positions_succeeds self cuts skips excl sizes path sku_name img :
  never_fails C →
  current_image_path self = Some path → path ≠ "" →
  current_sku self = Some sku_name → sku_name ≠ "" →
  cuts ≠ [] →
  Image_open path = Ok img →
  ∃ r, split_by_positions self cuts skips excl sizes = Success r.
Proof.
  intros Hnf Hpath Hp Hsku Hs Hcuts Hopen. unfold split_by_positions.
  rewrite Hpath, Hsku. simpl.
  rewrite !bool_decide_eq_false_2 by done. simpl.
  unfold split_try. rewrite Hopen. simpl.
  destruct (Image_size img) as [W H].
  destruct Hnf as (? & ? & ? & ? & Hmk).
  destruct (is_ok_Ok _ (Hmk (path_join (path_join "output" "manual_split") sku_name)))
    as [[] ->]. simpl.
  match goal with |- context [split_loop ?a ?b ?c ?d ?e ?f ?g ?h ?i ?j ?k] =>
    destruct (is_ok_Ok (split_loop a b c d e f g h i j k)) as [st ->] end.
  - apply split_loop_ok; [done|]. apply Forall_forall. intros i _.
    by apply entries_ok.
  - simpl. eauto.
Qed.

(** The loop does not look at the skip areas beyond the overlap test. *)
Lemma split_loop_skip_ext img W sku_name dir sp skips skips' excl sizes g idxs :
  ∀ st,
  Forall (λ i, is_in_skip_area skips (nth i sp 0) (nth (S i) sp 0)
               = is_in_skip_area skips' (nth i sp 0) (nth (S i) sp 0)) idxs →
  split_loop img W sku_name dir sp skips excl sizes g idxs st
  = split_loop img W sku_name dir sp skips' excl sizes g idxs st.
Proof.
  induction idxs as [|i idxs IH]; intros st HF; [done|].
  apply Forall_cons in HF as [Hi HF]. simpl.
  unfold loop_body. rewrite Hi.
  destruct (inb _ excl); simpl; [by apply IH|].
  destruct (is_in_skip_area skips' _ _); simpl; [by apply IH|].
  destruct (emit_segment _ _ _ _ _ _ _ _ _); simpl; [by apply IH|done].
Qed.

(** The overlap test against a zero-width area. *)
Lemma zero_width_overlap s top bottom :
  negb ((bottom <=? s) || (top >=? s)) = bool_decide (top < s < bottom).
Proof.
  destruct (Z.leb_spec bottom s), (Z.geb_spec top s); simpl;
    symmetry; (apply bool_decide_eq_true_2 || apply bool_decide_eq_false_2); lia.
Qed.

Lemma is_in_skip_area_app l1 l2 top bottom :
  is_in_skip_area (l1 ++ l2) top bottom
  = is_in_skip_area l1 top bottom || is_in_skip_area l2 top bottom.
Proof. apply existsb_app. Qed.

Lemma is_in_skip_area_zero_width l1 l2 s top bottom :
  is_in_skip_area (l1 ++ {| skip_start := s; skip_end := s |} :: l2) top bottom
  = bool_decide (top < s < bottom) || is_in_skip_area (l1 ++ l2) top bottom.
Proof.
  rewrite !is_in_skip_area_app. simpl. rewrite zero_width_overlap.
  destruct (is_in_skip_area l1 _ _), (bool_decide _),
    (is_in_skip_area l2 _ _); done.
Qed.
End SplitFacts.

(** * The claims of the specification *)

(** C1.  Segment indices 1, 2, 3, ... go to the consecutive boundary pairs
    of [sorted([0] + cuts + [H])] in order, one per pair whether or not the
    pair is dropped: every output of a successful split carries the index
    [i + 1] of the pair [i] whose crop box it has, that index is in its file
    name, every pair that is not dropped has an output with its index, and
    whether pair [i] is dropped depends on [i] and its bounds only.  The
    count of segments dropped by exclusion is the number of pair indices in
    the excluded list.  For height 3000, cuts [1000, 2000] and excluded
    segments [2], the outputs are #1 and #3 and that count is 1. *)
Theorem segment_index_stable {C : Codec} self cuts skips excl sizes r path img W H :
  current_image_path self = Some path →
  Image_open path = Ok img →
  Image_size img = (W, H) →
  split_by_positions self cuts skips excl sizes = Success r →
  let sp := boundaries cuts H in
  (∀ d, d ∈ SplitResult.details r →
     ∃ i, (S i < length sp)%nat ∧
          SegmentOutput.index d = Z.of_nat i + 1 ∧
          SegmentOutput.crop_box d = (0, nth i sp 0, W, nth (S i) sp 0) ∧
          dropped sp skips excl i = false ∧
          (SegmentOutput.filename d
             = output_filename (SplitResult.sku r) (Z.of_nat i + 1) ∨
           SegmentOutput.filename d
             = size_filename (SplitResult.sku r) (Z.of_nat i + 1))) ∧
  (∀ i, (S i < length sp)%nat → dropped sp skips excl i = false →
     ∃ d, d ∈ SplitResult.details r ∧
          SegmentOutput.index d = Z.of_nat i + 1 ∧
          SegmentOutput.crop_box d = (0, nth i sp 0, W, nth (S i) sp 0)) ∧
  SplitResult.excluded_segments r =
    Z.of_nat (length (filter (λ i, Z.of_nat i + 1 ∈ excl) (range_pairs sp))) ∧
  (H = 3000 → cuts = [1000; 2000] → skips = [] → excl = [2] → sizes = [] →
   map (λ d, (SegmentOutput.index d, SegmentOutput.crop_box d))
       (SplitResult.details r)
   = [(1, (0, 0, W, 1000)); (3, (0, 2000, W, 3000))] ∧
   SplitResult.excluded_segments r = 1).
Proof.
  intros Hpath Hopen Hsize Hsplit sp.
  destruct (split_by_positions_success _ _ _ _ _ _ _ _ _ _ Hpath Hopen Hsize Hsplit)
    as (sku_name & ess & Hsku & Hrsku & HF & Hdet & _ & _ & Hexcl).
  fold sp in HF, Hexcl. rewrite Hrsku, Hdet.
  split_and!.
  - intros d (j & es & Hj & Hd)%elem_of_concat.
    destruct (Forall2_lookup_r _ _ _ _ _ HF Hj) as (i & Hi & He).
    unfold range_pairs in Hi. apply lookup_seq in Hi as [-> Hlt]. simpl in He.
    destruct (entries_index _ _ _ _ _ _ _ _ _ _ _ He Hd) as (? & ? & ? & ?).
    exists j. split_and!; try done. lia.
  - intros i Hi Hdrop.
    assert (range_pairs sp !! i = Some i) as Hl.
    { unfold range_pairs. apply lookup_seq. lia. }
    destruct (Forall2_lookup_l _ _ _ _ _ HF Hl) as (es & Hes & He).
    destruct (entries_survivor _ _ _ _ _ _ _ _ _ _ Hdrop He) as (sz & sz' & ->).
    exists (artifact W sku_name (Z.of_nat i + 1)
              (output_filename sku_name (Z.of_nat i + 1)) (pair_box W sp i) sz false).
    split_and!; [|done|done].
    apply elem_of_concat. exists i. eexists. split; [exact Hes|].
    apply elem_of_cons. by left.
  - rewrite Hexcl. do 2 f_equal. apply list_filter_iff. intros i.
    unfold inb. by rewrite bool_decide_eq_true.
  - intros -> -> -> -> ->. subst sp.
    assert (boundaries [1000; 2000] 3000 = [0; 1000; 2000; 3000]) as Hb
      by (by vm_compute).
    rewrite Hb in *. unfold range_pairs in *. simpl in HF, Hexcl.
    apply Forall2_cons_inv_l in HF as (e0 & ess0 & He0 & HF & ->).
    apply Forall2_cons_inv_l in HF as (e1 & ess1 & He1 & HF & ->).
    apply Forall2_cons_inv_l in HF as (e2 & ess2 & He2 & HF & ->).
    apply Forall2_nil_inv_l in HF as ->.
    apply entries_survivor in He0 as (? & ? & ->); [|by vm_compute].
    apply entries_dropped in He1 as ->; [|by vm_compute].
    apply entries_survivor in He2 as (? & ? & ->); [|by vm_compute].
    split; [done|]. rewrite Hexcl. by vm_compute.
Qed.

Lemma segment_index_stable_witness :
  ∃ r, split_by_positions (C := example_codec) example_splitter
         [1000; 2000] [] [2] [] = Success r ∧
       map (λ d, (SegmentOutput.index d, SegmentOutput.crop_box d))
           (SplitResult.details r)
       = [(1, (0, 0, 800, 1000)); (3, (0, 2000, 800, 3000))] ∧
       SplitResult.excluded_segments r = 1.
Proof.
  eexists. split; [vm_compute; reflexivity|].
  eapply (segment_index_stable (C := example_codec) example_splitter
            [1000; 2000] [] [2] [] _ "a.png" (800, 3000) 800 3000);
    reflexivity.
Defined.

(** C2, as the code has it.  The overlap test against a skip area with
    [start = end = s] holds exactly for the intervals with
    [top < s < bottom]: such an area drops every segment that strictly
    contains [s].  When no interval strictly contains [s], the split with the
    area present gives the same segments, counts and error as without it;
    only the number of skip areas it reports is one higher. *)
Theorem zero_width_skip_area {C : Codec} self cuts l1 l2 s excl sizes :
  (∀ path img W H,
     current_image_path self = Some path →
     Image_open path = Ok img →
     Image_size img = (W, H) →
     Forall (λ i, ¬ (nth i (boundaries cuts H) 0 < s
                     < nth (S i) (boundaries cuts H) 0))
            (range_pairs (boundaries cuts H))) →
  (∀ top bottom,
     is_in_skip_area [ {| skip_start := s; skip_end := s |} ] top bottom
     = bool_decide (top < s < bottom)) ∧
  same_segments
    (split_by_positions self cuts
       (l1 ++ {| skip_start := s; skip_end := s |} :: l2) excl sizes)
    (split_by_positions self cuts (l1 ++ l2) excl sizes).
Proof.
  intros Hs. split.
  { intros top bottom. simpl. rewrite zero_width_overlap. apply orb_false_r. }
  unfold split_by_positions.
  destruct (current_image_path self) as [path|] eqn:Hpath; [|done].
  destruct (_ || _); [done|]. destruct (negb _); [done|]. simpl.
  unfold split_try.
  destruct (Image_open path) as [img|] eqn:Hopen; [simpl|done].
  destruct (Image_size img) as [W H] eqn:Hsize.
  destruct (mkdir _) as [[]|]; [simpl|done].
  rewrite (split_loop_skip_ext _ _ _ _ _ _ (l1 ++ l2)).
  - destruct (split_loop _ _ _ _ _ _ _ _ _ _ _); [simpl|done].
    split_and!; try done. rewrite !length_app. simpl. lia.
  - eapply Forall_impl; [by eapply Hs|]. simpl. intros i Hi.
    rewrite is_in_skip_area_zero_width. by rewrite bool_decide_eq_false_2.
Qed.

Lemma zero_width_skip_area_witness :
  same_segments
    (split_by_positions (C := example_codec) example_splitter [1000; 2000]
       ([] ++ {| skip_start := 1000; skip_end := 1000 |} :: []) [] [])
    (split_by_positions (C := example_codec) example_splitter [1000; 2000]
       ([] ++ []) [] []).
Proof.
  apply (zero_width_skip_area (C := example_codec) example_splitter
           [1000; 2000] [] [] 1000 [] []).
  intros path img W H Hpath Hopen Hsize.
  injection Hpath as <-. injection Hopen as <-. injection Hsize as <- <-.
  apply Forall_forall. intros i Hi. vm_compute in Hi.
  repeat (apply elem_of_cons in Hi as [->|Hi]; [vm_compute; intros [? ?]; congruence|]).
  by apply elem_of_nil in Hi.
Defined.

(** A zero-width skip area strictly inside the first segment drops it. *)
Lemma zero_width_skip_area_drops :
  ∃ r r',
    split_by_positions (C := example_codec) example_splitter [1000; 2000]
      [ {| skip_start := 500; skip_end := 500 |} ] [] [] = Success r ∧
    split_by_positions (C := example_codec) example_splitter [1000; 2000]
      [] [] [] = Success r' ∧
    map SegmentOutput.index (SplitResult.details r) = [2; 3] ∧
    map SegmentOutput.index (SplitResult.details r') = [1; 2; 3] ∧
    SplitResult.details r ≠ SplitResult.details r'.
Proof.
  do 2 eexists. split_and!; [vm_compute; reflexivity ..|discriminate].
Qed.

(** C3, as the code has it.  With no cut position the split does not run:
    the guard at the head of [split_by_positions] returns the error record,
    whatever image is loaded, and no segment is produced. *)
Theorem no_cut_positions_is_an_error {C : Codec} self skips excl sizes :
  split_by_positions self [] skips excl sizes = Error msg_no_image_or_cuts.
Proof.
  unfold split_by_positions. rewrite bool_decide_eq_true_2 by done.
  by rewrite orb_true_r.
Qed.

(** With an image of height 3000 loaded and no cut, there is no single
    segment spanning the image. *)
Lemma no_cut_positions_no_segment :
  ¬ ∃ r, split_by_positions (C := example_codec) example_splitter [] [] [] []
         = Success r ∧
         map SegmentOutput.crop_box (SplitResult.details r) = [(0, 0, 800, 3000)].
Proof. intros (r & Hr & _). vm_compute in Hr. discriminate. Qed.

(** Every output of a successful split has the crop box of a boundary
    pair. *)
Lemma split_details_pair {C : Codec} self cuts skips excl sizes r path img W H d :
  current_image_path self = Some path →
  Image_open path = Ok img →
  Image_size img = (W, H) →
  split_by_positions self cuts skips excl sizes = Success r →
  d ∈ SplitResult.details r →
  ∃ i, (S i < length (boundaries cuts H))%nat ∧
       SegmentOutput.crop_box d = pair_box W (boundaries cuts H) i.
Proof.
  intros Hpath Hopen Hsize Hsplit.
  destruct (split_by_positions_success _ _ _ _ _ _ _ _ _ _ Hpath Hopen Hsize Hsplit)
    as (sku_name & ess & _ & _ & HF & -> & _).
  intros (j & es & Hj & Hd)%elem_of_concat.
  destruct (Forall2_lookup_r _ _ _ _ _ HF Hj) as (i & Hi & He).
  unfold range_pairs in Hi. apply lookup_seq in Hi as [-> Hlt]. simpl in He.
  destruct (entries_index _ _ _ _ _ _ _ _ _ _ _ He Hd) as (_ & ? & _).
  exists j. split; [lia|done].
Qed.





(** With a codec that refuses to save an empty image the same input makes
    the whole split an error, the segments before and after the repeated cut
    included. *)
Lemma zero_height_refused_by_codec :
  split_by_positions (C := strict_codec) example_splitter [1000; 1000] [] [] []
  = Error "cannot write empty image".
Proof. by vm_compute. Qed.

(** C6.  In a successful split the outputs numbered [k] are those of
    boundary pair [k]: none when the pair is dropped; for a surviving pair
    whose index is in the size-suffix list exactly two, a base artifact with
    the suffix flag false and a [-size] artifact with the flag true, with the
    same crop box and dimensions and different file names; for any other
    surviving pair exactly one, the base artifact. *)
Theorem size_suffix_artifacts {C : Codec}
    self cuts skips excl sizes r path img W H i :
  current_image_path self = Some path →
  Image_open path = Ok img →
  Image_size img = (W, H) →
  split_by_positions self cuts skips excl sizes = Success r →
  let sp := boundaries cuts H in
  let k := Z.of_nat i + 1 in
  let outputs := filter (λ d, SegmentOutput.index d = k) (SplitResult.details r) in
  let crop_box : box := (0, nth i sp 0, W, nth (S i) sp 0) in
  let dimensions := (W, nth (S i) sp 0 - nth i sp 0) in
  (S i < length sp)%nat →
  (dropped sp skips excl i = true → outputs = []) ∧
  (dropped sp skips excl i = false → k ∈ sizes →
   ∃ b s, outputs = [b; s] ∧
          SegmentOutput.crop_box b = crop_box ∧
          SegmentOutput.crop_box s = crop_box ∧
          SegmentOutput.dimensions b = dimensions ∧
          SegmentOutput.dimensions s = dimensions ∧
          SegmentOutput.has_size_suffix b = false ∧
          SegmentOutput.has_size_suffix s = true ∧
          SegmentOutput.filename b = output_filename (SplitResult.sku r) k ∧
          SegmentOutput.filename s = size_filename (SplitResult.sku r) k ∧
          SegmentOutput.filename b ≠ SegmentOutput.filename s) ∧
  (dropped sp skips excl i = false → k ∉ sizes →
   ∃ b, outputs = [b] ∧
        SegmentOutput.crop_box b = crop_box ∧
        SegmentOutput.dimensions b = dimensions ∧
        SegmentOutput.has_size_suffix b = false ∧
        SegmentOutput.filename b = output_filename (SplitResult.sku r) k).
Proof.
  intros Hpath Hopen Hsize Hsplit sp k outputs crop_box dimensions Hi.
  destruct (split_by_positions_success _ _ _ _ _ _ _ _ _ _ Hpath Hopen Hsize Hsplit)
    as (sku_name & ess & _ & Hrsku & HF & Hdet & _).
  fold sp in HF.
  assert (range_pairs sp !! i = Some i) as Hl.
  { unfold range_pairs. apply lookup_seq. lia. }
  destruct (Forall2_lookup_l _ _ _ _ _ HF Hl) as (es & Hes & He).
  assert (outputs = es) as ->.
  { subst outputs k. rewrite Hdet.
    by apply (filter_index_concat _ _ _ _ _ _ _ _ _ 0%nat _ HF i). }
  rewrite Hrsku. split_and!.
  - intros Hd. by eapply entries_dropped.
  - intros Hd Hk.
    destruct (entries_survivor _ _ _ _ _ _ _ _ _ _ Hd He) as (sz & sz' & ->).
    unfold inb. rewrite bool_decide_eq_true_2 by done.
    do 2 eexists. split; [reflexivity|]. simpl.
    split_and!; try done. apply filenames_differ.
  - intros Hd Hk.
    destruct (entries_survivor _ _ _ _ _ _ _ _ _ _ Hd He) as (sz & sz' & ->).
    unfold inb. rewrite bool_decide_eq_false_2 by done.
    eexists. split; [reflexivity|]. done.
Qed.

Lemma size_suffix_artifacts_witness :
  ∃ r, split_by_positions (C := example_codec) example_splitter
         [1000; 2000] [] [] [1] = Success r ∧
       ∃ b s,
         filter (λ d, SegmentOutput.index d = 1) (SplitResult.details r) = [b; s] ∧
         SegmentOutput.crop_box b = (0, 0, 800, 1000) ∧
         SegmentOutput.crop_box s = (0, 0, 800, 1000) ∧
         SegmentOutput.has_size_suffix b = false ∧
         SegmentOutput.has_size_suffix s = true ∧
         SegmentOutput.filename b ≠ SegmentOutput.filename s.
Proof.
  destruct (split_by_positions (C := example_codec) example_splitter
              [1000; 2000] [] [] [1]) as [e|r] eqn:Hr;
    [vm_compute in Hr; discriminate|].
  exists r. split; [reflexivity|].
  destruct (size_suffix_artifacts (C := example_codec) example_splitter
              [1000; 2000] [] [] [1] r "a.png" (800, 3000) 800 3000 0
              eq_refl eq_refl eq_refl Hr) as (_ & Hw & _); [vm_compute; lia|].
  destruct Hw as (b & s & Hbs & Hb & Hs & _ & _ & Hfb & Hfs & _ & _ & Hne).
  - reflexivity.
  - apply list_elem_of_singleton. reflexivity.
  - exists b, s. split_and!; assumption.
Defined.

(** C9.  For an image height [H >= 0] and cut positions all in [[0, H]],
    the heights [bottom - top] of all consecutive boundary pairs of
    [sorted([0] + cuts + [H])], dropped or not, add up to [H]. *)
Theorem segment_heights_sum cuts H :
  0 ≤ H → Forall (λ c, 0 ≤ c ≤ H) cuts → sum (segment_heights cuts H) = H.
Proof.
  intros HH Hc. unfold sum, segment_heights, range_pairs.
  pose proof (boundaries_length cuts H) as Hlen.
  rewrite heights_telescope by lia. rewrite Hlen. simpl.
  rewrite boundaries_first, boundaries_last by done. lia.
Qed.

Lemma segment_heights_sum_witness :
  segment_heights [2000; 1000; 1000] 3000 = [1000; 0; 1000; 1000] ∧
  sum (segment_heights [2000; 1000; 1000] 3000) = 3000.
Proof.
  split; [by vm_compute|].
  apply (segment_heights_sum [2000; 1000; 1000] 3000); [lia|].
  repeat constructor; lia.
Defined.

(** C4 at a batch of two images of height 3000 with cuts [1000, 2000] and
    size-suffix segment 1, global numbering on: the first file gets the
    numbers 1, 2, 3 (1 twice, for the [-size] artifact), and the second file
    starts at 5, not at 4, because [batch_process] advances [global_index]
    by the number of artifacts [splits_created]. *)
Lemma global_index_counts_size_suffix_artifacts :
  match batch_process (C := example_codec) example_splitter
          [1000; 2000] [] [] [1] true with
  | inr r =>
      map (λ e, match e.2 with
                | Success r => map SegmentOutput.filename (SplitResult.details r)
                | Error _ => []
                end) (batch_results r)
      = [ ["SKU_001.jpg"; "SKU_001-size.jpg"; "SKU_002.jpg"; "SKU_003.jpg"];
          ["SKU_005.jpg"; "SKU_005-size.jpg"; "SKU_006.jpg"; "SKU_007.jpg"] ]
  | inl _ => False
  end.
Proof. by vm_compute. Qed.

(** ** split_image *)

Section GridFacts.
Context {C : Codec}.
Variable stem : string → string.
Variable config : Config.



Section Loop.
Variables (img : image) (W H Tw T v : Z).
Variables (base_name format_name output_path : string).

Local Abbreviation body :=
  (grid_body config img W H Tw T v base_name format_name output_path).
Local Abbreviation loop :=
  (grid_loop config img W H Tw T v base_name format_name output_path).
Local Abbreviation entry := (grid_entry W H Tw T v base_name format_name).

Lemma grid_body_inv i acc acc' :
  body i acc = Ok acc' → acc' = acc ++ [entry i].
Proof.
  unfold grid_body. intros Hb. do 6 bind_inv Hb. congruence.
Qed.

Lemma grid_loop_inv idxs : ∀ acc acc',
  loop idxs acc = Ok acc' →
  acc' = acc ++ map (λ i, entry (Z.of_nat i)) idxs.
Proof.
  induction idxs as [|i idxs IH]; intros acc acc' Hl; simpl in *.
  - injection Hl as <-. by rewrite app_nil_r.
  - bind_inv Hl. apply grid_body_inv in E as ->.
    apply IH in Hl as ->. by rewrite <- app_assoc.
Qed.

Lemma grid_body_ok i acc f q :
  never_fails C →
  output_format config = Some f → quality config = Some q →
  body i acc = Ok (acc ++ [entry i]).
Proof.
  intros (Hcrop & Hconv & Hres & Hsave & _) Hf Hq. unfold grid_body.
  destruct (is_ok_Ok _ (Hcrop img (grid_box W H T v i))) as [c ->]. simpl.
  assert (∃ c', (if bool_decide (mode c = "P") || bool_decide (mode c = "RGBA")
                 then convert c "RGB" else Ok c) = Ok c') as [c' ->].
  { destruct (_ || _); [apply is_ok_Ok, Hconv | eauto]. }
  simpl.
  assert (∃ c'', (if bool_decide (Image_size c' = (Tw, T))
                  then Ok c' else resize c' (Tw, T)) = Ok c'') as [c'' ->].
  { destruct (bool_decide _); [eauto | apply is_ok_Ok, Hres]. }
  simpl. rewrite Hf, Hq. simpl.
  by destruct (is_ok_Ok _ (Hsave c''
    (path_join output_path (grid_filename base_name format_name i)) f q))
    as [sz ->].
Qed.

Lemma grid_loop_ok idxs f q : ∀ acc,
  never_fails C →
  output_format config = Some f → quality config = Some q →
  loop idxs acc = Ok (acc ++ map (λ i, entry (Z.of_nat i)) idxs).
Proof.
  induction idxs as [|i idxs IH]; intros acc Hnf Hf Hq; simpl.
  - by rewrite app_nil_r.
  - rewrite (grid_body_ok _ _ f q) by done. simpl.
    rewrite IH by done. by rewrite <- app_assoc.
Qed.
End Loop.



(** With a codec that does not fail and a complete configuration, the
    call returns the entries of the iterations [0 .. H div T - 1]. *)
Lemma split_image_grid path fmt out dims f q img W H :
  never_fails C →
  output_formats config !! fmt = Some dims →
  output_format config = Some f → quality config = Some q →
  Image_open path = Ok img → Image_size img = (W, H) →
  height dims ≠ 0 →
  ∃ r, split_image stem config path fmt out = Ok r ∧
       FileResult.success r = true ∧
       FileResult.splits_created r
         = Some (Z.of_nat (length (range (H `div` height dims)))) ∧
       FileResult.details r
         = map (λ i, grid_entry W H (width dims) (height dims)
                       (default 0 (overlap_pixels config)) (stem path) fmt
                       (Z.of_nat i))
               (range (H `div` height dims)).
Proof.
  intros Hnf Hfmt Hf Hq Hopen Hsize HT. unfold split_image. rewrite Hfmt.
  pose proof Hnf as (_ & _ & _ & _ & Hmk).
  destruct (is_ok_Ok _ (Hmk (path_join out fmt))) as [[] ->]. simpl.
  unfold split_image_try. rewrite Hopen. simpl. rewrite Hsize.
  rewrite bool_decide_eq_false_2 by done. simpl.
  rewrite (grid_loop_ok _ _ _ _ _ _ _ _ _ _ f q) by done. simpl.
  eexists. split; [reflexivity|]. simpl. rewrite length_map. done.
Qed.

(** A failure value returned by [split_image] itself has a message and
    no source path. *)
Lemma split_image_failure path fmt out r :
  split_image stem config path fmt out = Ok r →
  FileResult.success r = false →
  FileResult.source_file r = None ∧ ∃ msg, FileResult.error r = Some msg.
Proof.
  unfold split_image.
  destruct (output_formats config !! fmt) as [dims|]; [|discriminate].
  destruct (mkdir _) as [[]|]; [simpl|discriminate].
  destruct (split_image_try _ _ _ _ _ _ _) as [r'|e] eqn:Htry.
  - intros [= <-]. unfold split_image_try in Htry.
    bind_inv Htry. destruct (Image_size a). do 2 bind_inv Htry.
    by injection Htry as <-.
  - intros [= <-] _. simpl. eauto.
Qed.
End GridFacts.

Lemma table_codec_never_fails files : never_fails (table_codec files).
Proof. by repeat split. Qed.

(** C7, as the code has it.  [split_image] raises for an output format
    that is not configured, and for a failure to create the output
    directory; a failure inside its [try] block (a source that cannot be
    opened, a crop, resize or save that fails) comes back as a failure value
    that has a message and no source path.  The dispatch wrapper
    [process_single_image] never raises: it returns a result that carries
    the source path and, when it is a failure, a message, whether
    [split_image] returned the failure or raised. *)
Theorem transform_failures {C : Codec} stem now config path fmt out :
  let r := process_single_image stem now config path fmt out in
  (output_formats config !! fmt = None →
   split_image stem config path fmt out = Raise (msg_unsupported fmt)) ∧
  (∀ e, is_Some (output_formats config !! fmt) →
        mkdir (path_join out fmt) = Raise e →
        split_image stem config path fmt out = Raise e) ∧
  (∀ e, is_Some (output_formats config !! fmt) →
        is_ok (mkdir (path_join out fmt)) = true →
        Image_open path = Raise e →
        split_image stem config path fmt out = Ok (failure e None None)) ∧
  (∀ r', split_image stem config path fmt out = Ok r' →
         FileResult.success r' = false →
         FileResult.source_file r' = None ∧
         ∃ msg, FileResult.error r' = Some msg) ∧
  FileResult.source_file r = Some path ∧
  (FileResult.success r = false → ∃ msg, FileResult.error r = Some msg) ∧
  (∀ e, split_image stem config path fmt out = Raise e →
        r = failure e (Some path) (Some now)).
Proof.
  intros r. split_and!.
  - intros Hf. unfold split_image. by rewrite Hf.
  - intros e [dims Hf] Hmk. unfold split_image. by rewrite Hf, Hmk.
  - intros e [dims Hf] Hmk Hopen. unfold split_image. rewrite Hf.
    apply is_ok_Ok in Hmk as [[] ->]. simpl.
    unfold split_image_try. by rewrite Hopen.
  - apply split_image_failure.
  - subst r. unfold process_single_image. by destruct (split_image _ _ _ _ _).
  - subst r. unfold process_single_image.
    destruct (split_image _ _ _ _ _) as [r'|e] eqn:Hs; simpl; [|eauto].
    intros Hfail. by destruct (split_image_failure _ _ _ _ _ _ Hs Hfail).
  - intros e He. subst r. unfold process_single_image. by rewrite He.
Qed.

(** An unsupported output format makes [split_image] raise, and a source
    that cannot be opened gives a failure value without the source path. *)
Lemma split_image_raises :
  split_image (C := example_codec) (λ p, p) default_config
    "a.png" "bogus" "output" = Raise (msg_unsupported "bogus") ∧
  ∃ r, split_image (C := example_codec) (λ p, p) default_config
         "missing.png" "custom" "output" = Ok r ∧
       FileResult.success r = false ∧
       FileResult.source_file r = None.
Proof. split; [by vm_compute|]. eexists. split; [by vm_compute|done]. Qed.



(** ** process_directory_parallel *)

Section BatchFacts.
Context {C : Codec}.
Variable stem : string → string.
Variable now : Z.
Variable config : Config.
Variable rglob : string → option (list string).
Variable suffix_lower : string → string.
Variable as_completed : list string → list string.
Variables (fmt out : string) (rf : string).
Hypothesis rf_nonempty : rf ≠ "".

Local Abbreviation body :=
  (completed_body stem now config fmt out (Some rf)).



End BatchFacts.



(** * Further properties *)

(** ** The planner's loop, with either numbering *)

Lemma sorted_Permutation l l' : l ≡ₚ l' → sorted l = sorted l'.
Proof.
  intros Hp. apply (StronglySorted_unique Z.le); try apply sorted_strongly.
  by rewrite !sorted_perm.
Qed.

Lemma boundaries_Permutation cuts cuts' H :
  cuts ≡ₚ cuts' → boundaries cuts H = boundaries cuts' H.
Proof. intros Hp. unfold boundaries. apply sorted_Permutation. by rewrite Hp. Qed.

Lemma numbers_from_cons (g : Z) m :
  map (λ j, g + Z.of_nat j) (seq 0 (S m))
  = g :: map (λ j, g + 1 + Z.of_nat j) (seq 0 m).
Proof.
  simpl. f_equal; [lia|]. rewrite <- seq_shift, map_map.
  apply map_ext. intros j. lia.
Qed.

Section ShapeFacts.
Context {C : Codec}.
Variables (img : image) (img_width : Z) (sku_name sku_output_path : string).
Variables (sorted_positions : list Z) (skip_areas : list skip_area).
Variables (excluded_segments size_segments : list Z).

Local Abbreviation loop := (split_loop img img_width sku_name sku_output_path
                              sorted_positions skip_areas excluded_segments
                              size_segments).
Local Abbreviation shape :=
  (segment_shape img_width sorted_positions skip_areas excluded_segments
     size_segments).
Local Abbreviation is_dropped :=
  (dropped sorted_positions skip_areas excluded_segments).

(** Whatever the numbering, the loop appends the shapes of its iterations
    in order; the global number advances at the surviving iterations only,
    and the outputs appended carry the numbers in between. *)
Lemma split_loop_shape g n : ∀ a st st',
  segment_index st = Z.of_nat a + 1 →
  loop g (seq a n) st = Ok st' →
  ∃ new,
    split_info st' = split_info st ++ new ∧
    map geometry new = flat_map shape (seq a n) ∧
    segment_index st' = Z.of_nat (a + n) + 1 ∧
    excluded_by_segment_count st' =
      excluded_by_segment_count st +
      Z.of_nat (length (filter (λ i, Z.of_nat i + 1 ∈ excluded_segments) (seq a n))) ∧
    (g = true →
     global_segment_index st' =
       global_segment_index st +
       Z.of_nat (length (filter (λ i, is_dropped i = false) (seq a n))) ∧
     map SegmentOutput.index (base_outputs new) =
       map (λ j, global_segment_index st + Z.of_nat j)
           (seq 0 (length (filter (λ i, is_dropped i = false) (seq a n)))) ∧
     Forall (λ d, global_segment_index st ≤ SegmentOutput.index d
                  < global_segment_index st'
       ) new) ∧
    (g = false →
     map SegmentOutput.index (base_outputs new) =
       map (λ i, Z.of_nat i + 1) (filter (λ i, is_dropped i = false) (seq a n))).
Proof.
  induction n as [|n IH]; intros a st st' Hidx Hloop.
  - injection Hloop as <-. exists []. rewrite app_nil_r. simpl.
    split_and!; try done; [f_equal; lia|lia|]. intros _. split_and!; [lia|done|done].
  - change (seq a (S n)) with (a :: seq (S a) n) in *. simpl in Hloop.
    bind_inv Hloop. rename a0 into st1.
    unfold loop_body in E. rewrite Hidx in E.
    change (flat_map shape (a :: seq (S a) n))
      with (shape a ++ flat_map shape (seq (S a) n)).
    destruct (inb (Z.of_nat a + 1) excluded_segments) eqn:Hex.
    + injection E as <-.
      apply IH in Hloop as (new & Hinfo & Hgeo & Hseg & Hcnt & Hg & Hl); [|simpl; lia].
      simpl in Hinfo, Hseg, Hcnt, Hg, Hl. exists new.
      assert (is_dropped a = true) as Hd by (unfold dropped; by rewrite Hex).
      apply bool_decide_eq_true in Hex.
      rewrite filter_cons_True by done.
      rewrite (filter_cons_False (λ i, is_dropped i = false)) by (by rewrite Hd).
      unfold segment_shape at 1. rewrite Hd. simpl.
      split_and!; try done.
      * rewrite Hseg. f_equal. lia.
      * rewrite Hcnt. lia.
    + assert (Z.of_nat a + 1 ∉ excluded_segments) as Hnex
        by (by apply bool_decide_eq_false in Hex).
      rewrite filter_cons_False by done.
      destruct (is_in_skip_area _ _ _) eqn:Hskip.
      * injection E as <-.
        apply IH in Hloop as (new & Hinfo & Hgeo & Hseg & Hcnt & Hg & Hl); [|simpl; lia].
        simpl in Hinfo, Hseg, Hcnt, Hg, Hl. exists new.
        assert (is_dropped a = true) as Hd
          by (unfold dropped; by rewrite Hex, Hskip).
        rewrite (filter_cons_False (λ i, is_dropped i = false)) by (by rewrite Hd).
        unfold segment_shape at 1. rewrite Hd. simpl.
        split_and!; try done.
        rewrite Hseg. f_equal. lia.
      * bind_inv E. injection E as <-. rename a0 into es.
        apply emit_segment_inv in E0 as (sz & sz' & ->).
        apply IH in Hloop as (new & Hinfo & Hgeo & Hseg & Hcnt & Hg & Hl); [|simpl; lia].
        simpl in Hinfo, Hseg, Hcnt, Hg, Hl.
        assert (is_dropped a = false) as Hd
          by (unfold dropped; by rewrite Hex, Hskip).
        rewrite (filter_cons_True (λ i, is_dropped i = false)) by done.
        unfold segment_shape at 1. rewrite Hd.
        eexists (_ ++ new). rewrite Hinfo, <- app_assoc. split; [reflexivity|].
        split_and!.
        -- rewrite map_app, Hgeo. f_equal. by destruct (inb _ size_segments).
        -- rewrite Hseg. f_equal. lia.
        -- done.
        -- intros ->. destruct (Hg eq_refl) as (Hgi & Hbase & Hrange).
           split_and!.
           ++ rewrite Hgi. simpl. lia.
           ++ unfold base_outputs in *. rewrite filter_app, map_app, Hbase.
              simpl length.
              rewrite (numbers_from_cons (global_segment_index st)).
              rewrite filter_cons_True by done.
              destruct (inb _ size_segments).
              ** by rewrite filter_cons_False by done.
              ** done.
           ++ apply Forall_app. split.
              ** simpl in Hgi.
                 destruct (inb _ size_segments); repeat constructor; simpl; lia.
              ** eapply Forall_impl; [exact Hrange|]. simpl. intros d. lia.
        -- intros ->. unfold base_outputs in *.
           rewrite filter_app, map_app, (Hl eq_refl).
           rewrite filter_cons_True by done.
           destruct (inb _ size_segments).
           ++ by rewrite filter_cons_False by done.
           ++ done.
Qed.
End ShapeFacts.

Lemma flat_map_shape_length W sp skips excl sizes l :
  length (flat_map (segment_shape W sp skips excl sizes) l)
  = (length (filter (λ i, dropped sp skips excl i = false) l)
     + length (filter (λ i, (Z.of_nat i + 1)%Z ∈ sizes)
                 (filter (λ i, dropped sp skips excl i = false) l)))%nat.
Proof.
  induction l as [|i l IH]; [done|].
  simpl. rewrite length_app, IH. unfold segment_shape.
  destruct (dropped sp skips excl i) eqn:Hd.
  - rewrite (filter_cons_False (λ i, dropped sp skips excl i = false))
      by (by rewrite Hd). done.
  - rewrite (filter_cons_True (λ i, dropped sp skips excl i = false)) by done.
    unfold inb. destruct (bool_decide (Z.of_nat i + 1 ∈ sizes)) eqn:Hs.
    + apply bool_decide_eq_true in Hs. rewrite filter_cons_True by done.
      simpl. lia.
    + apply bool_decide_eq_false in Hs. rewrite filter_cons_False by done.
      simpl. lia.
Qed.

Lemma filter_partition_length {A} (P Q R : A → Prop)
    `{∀ x, Decision (P x)} `{∀ x, Decision (Q x)} `{∀ x, Decision (R x)} (l : list A) :
  (∀ x, (P x ∧ ¬ Q x ∧ ¬ R x) ∨ (¬ P x ∧ Q x ∧ ¬ R x) ∨ (¬ P x ∧ ¬ Q x ∧ R x)) →
  (length (filter P l) + length (filter Q l) + length (filter R l))%nat = length l.
Proof.
  intros Hcases. induction l as [|x l IH]; [done|].
  destruct (Hcases x) as [(?&?&?)|[(?&?&?)|(?&?&?)]].
  - rewrite (filter_cons_True P), (filter_cons_False Q), (filter_cons_False R) by done.
    simpl. lia.
  - rewrite (filter_cons_False P), (filter_cons_True Q), (filter_cons_False R) by done.
    simpl. lia.
  - rewrite (filter_cons_False P), (filter_cons_False Q), (filter_cons_True R) by done.
    simpl. lia.
Qed.

Section SplitShape.
Context {C : Codec}.

(** The [try] block of both split operations, seen through the shapes. *)
Lemma split_try_shape g path sku_name dir cuts skips excl sizes start r img W H :
  Image_open path = Ok img →
  Image_size img = (W, H) →
  split_try g path sku_name dir cuts skips excl sizes start = Ok r →
  let sp := boundaries cuts H in
  map geometry (SplitResult.details r)
    = flat_map (segment_shape W sp skips excl sizes) (range_pairs sp) ∧
  SplitResult.splits_created r = Z.of_nat (length (SplitResult.details r)) ∧
  SplitResult.skipped_areas r = Z.of_nat (length skips) ∧
  SplitResult.excluded_segments r =
    Z.of_nat (length (filter (λ i, Z.of_nat i + 1 ∈ excl) (range_pairs sp))) ∧
  SplitResult.sku r = sku_name ∧
  SplitResult.output_directory r = path_join (path_join dir "manual_split") sku_name ∧
  (g = true →
   map SegmentOutput.index (base_outputs (SplitResult.details r))
     = map (λ j, start + Z.of_nat j) (seq 0 (length (survivors sp skips excl))) ∧
   Forall (λ d, start ≤ SegmentOutput.index d
                < start + Z.of_nat (length (survivors sp skips excl)))
          (SplitResult.details r)) ∧
  (g = false →
   map SegmentOutput.index (base_outputs (SplitResult.details r))
     = map (λ i, Z.of_nat i + 1) (survivors sp skips excl)).
Proof.
  intros Hopen Hsize. unfold split_try. rewrite Hopen. simpl. rewrite Hsize.
  destruct (mkdir _) as [[]|]; [simpl|discriminate].
  destruct (split_loop _ _ _ _ _ _ _ _ _ _ _) as [st|] eqn:Hloop;
    [simpl|discriminate].
  intros [= <-]. simpl.
  apply split_loop_shape in Hloop as (new & Hinfo & Hgeo & _ & Hcnt & Hg & Hl); [|done].
  simpl in Hinfo, Hcnt, Hg, Hl. subst new.
  split_and!; try done.
  intros Hgt. destruct (Hg Hgt) as (Hgi & Hbase & Hrange).
  split; [done|]. by rewrite Hgi in Hrange.
Qed.

Lemma split_by_positions_try self cuts skips excl sizes r :
  split_by_positions self cuts skips excl sizes = Success r →
  ∃ path sku_name,
    current_image_path self = Some path ∧ path ≠ "" ∧
    current_sku self = Some sku_name ∧ sku_name ≠ "" ∧ cuts ≠ [] ∧
    split_try false path sku_name "output" cuts skips excl sizes 1 = Ok r.
Proof.
  unfold split_by_positions.
  destruct (current_image_path self) as [path|]; [|discriminate].
  destruct (current_sku self) as [sku_name|]; simpl.
  - destruct (bool_decide (path = "")) eqn:Hp; [discriminate|].
    destruct (bool_decide (cuts = [])) eqn:Hc; [discriminate|].
    destruct (bool_decide (sku_name = "")) eqn:Hs; [discriminate|]. simpl.
    apply bool_decide_eq_false in Hp, Hc, Hs.
    destruct (split_try _ _ _ _ _ _ _ _ _) eqn:Ht; [|discriminate].
    intros [= <-]. by exists path, sku_name.
  - by destruct (_ || _).
Qed.

Lemma split_with_global_numbering_try self cuts skips excl sizes start r :
  split_with_global_numbering self cuts skips excl sizes start = Success r →
  ∃ path sku_name,
    current_image_path self = Some path ∧ path ≠ "" ∧
    current_sku self = Some sku_name ∧ cuts ≠ [] ∧
    split_try true path sku_name "output" cuts skips excl sizes start = Ok r.
Proof.
  unfold split_with_global_numbering.
  destruct (current_image_path self) as [path|]; [|discriminate]. simpl.
  destruct (bool_decide (path = "")) eqn:Hp; [discriminate|].
  destruct (bool_decide (cuts = [])) eqn:Hc; [discriminate|]. simpl.
  apply bool_decide_eq_false in Hp, Hc.
  destruct (current_sku self) as [sku_name|].
  - destruct (split_try _ _ _ _ _ _ _ _ _) eqn:Ht; [|discriminate].
    intros [= <-]. by exists path, sku_name.
  - by destruct (Image_open path).
Qed.

Lemma split_try_open g path sku_name dir cuts skips excl sizes start r :
  split_try g path sku_name dir cuts skips excl sizes start = Ok r →
  ∃ img, Image_open path = Ok img.
Proof. unfold split_try. intros Ht. bind_inv Ht. eauto. Qed.
End SplitShape.

Lemma split_try_Permutation {C : Codec} g path sku_name dir cuts cuts' skips excl sizes start :
  cuts ≡ₚ cuts' →
  split_try g path sku_name dir cuts skips excl sizes start
  = split_try g path sku_name dir cuts' skips excl sizes start.
Proof.
  intros Hp. unfold split_try.
  destruct (Image_open path) as [img|]; [simpl|done].
  destruct (Image_size img) as [W H].
  by rewrite (boundaries_Permutation cuts cuts' H Hp).
Qed.

Lemma nil_Permutation_decide (cuts cuts' : list Z) :
  cuts ≡ₚ cuts' → bool_decide (cuts = []) = bool_decide (cuts' = []).
Proof.
  intros Hp. apply bool_decide_ext. split; intros ->.
  - by apply Permutation_nil_l in Hp.
  - by apply Permutation_nil_r in Hp.
Qed.

(** X1.  The order in which the cut positions are given does not matter:
    two lists that are permutations of each other give the same result in
    [split_by_positions], in [_split_with_global_numbering] and in the
    preview. *)
Theorem cut_order_irrelevant {C : Codec} self cuts cuts' skips excl sizes start :
  cuts ≡ₚ cuts' →
  split_by_positions self cuts skips excl sizes
    = split_by_positions self cuts' skips excl sizes ∧
  split_with_global_numbering self cuts skips excl sizes start
    = split_with_global_numbering self cuts' skips excl sizes start ∧
  ∀ display_height,
    preview_splits display_height cuts skips
    = preview_splits display_height cuts' skips.
Proof.
  intros Hp. split_and!.
  - unfold split_by_positions.
    by rewrite (nil_Permutation_decide _ _ Hp), (split_try_Permutation _ _ _ _ _ _ _ _ _ _ Hp).
  - unfold split_with_global_numbering.
    rewrite (nil_Permutation_decide _ _ Hp).
    destruct (current_sku self); [|done].
    by rewrite (split_try_Permutation _ _ _ _ _ _ _ _ _ _ Hp).
  - intros [h|]; [|done]. unfold preview_splits.
    by rewrite (boundaries_Permutation _ _ h Hp).
Qed.

Lemma cut_order_irrelevant_witness :
  split_by_positions (C := example_codec) example_splitter [2000; 1000] [] [2] [1]
  = split_by_positions (C := example_codec) example_splitter [1000; 2000] [] [2] [1].
Proof.
  apply (cut_order_irrelevant (C := example_codec) example_splitter
           [2000; 1000] [1000; 2000] [] [2] [1] 1).
  apply perm_swap.
Defined.

(** X2.  The counts of a successful [split_by_positions]: [splits_created]
    is the number of surviving boundary pairs plus the number of those
    whose index is in the size-suffix list; the surviving pairs, the pairs
    excluded by index ([excluded_segments]) and the pairs dropped by a skip
    area alone add up to [len(cuts) + 1]; and [skipped_areas] is the number
    of skip areas submitted, not the number of segments they dropped. *)
Theorem split_counts {C : Codec} self cuts skips excl sizes r path img W H :
  current_image_path self = Some path →
  Image_open path = Ok img →
  Image_size img = (W, H) →
  split_by_positions self cuts skips excl sizes = Success r →
  let sp := boundaries cuts H in
  let alive := survivors sp skips excl in
  SplitResult.splits_created r
    = Z.of_nat (length alive)
      + Z.of_nat (length (filter (λ i, Z.of_nat i + 1 ∈ sizes) alive)) ∧
  Z.of_nat (length alive) + SplitResult.excluded_segments r
    + Z.of_nat (length (filter
        (λ i, (Z.of_nat i + 1 ∉ excl) ∧
              is_in_skip_area skips (nth i sp 0) (nth (S i) sp 0) = true)
        (range_pairs sp)))
    = Z.of_nat (length cuts) + 1 ∧
  SplitResult.skipped_areas r = Z.of_nat (length skips).
Proof.
  intros Hpath Hopen Hsize Hsplit sp alive.
  destruct (split_by_positions_try _ _ _ _ _ _ Hsplit)
    as (path' & sku_name & Hpath' & _ & _ & _ & _ & Htry).
  rewrite Hpath in Hpath'. injection Hpath' as <-.
  destruct (split_try_shape _ _ _ _ _ _ _ _ _ _ _ _ _ Hopen Hsize Htry)
    as (Hgeo & Hlen & Hskip & Hexcl & _).
  fold sp in Hgeo, Hexcl. split_and!; [| |done].
  - rewrite Hlen, <- (length_map geometry), Hgeo, flat_map_shape_length.
    unfold alive, survivors. lia.
  - rewrite Hexcl. unfold alive, survivors.
    pose proof (filter_partition_length
      (λ i, dropped sp skips excl i = false)
      (λ i, Z.of_nat i + 1 ∈ excl)
      (λ i, (Z.of_nat i + 1 ∉ excl) ∧
            is_in_skip_area skips (nth i sp 0) (nth (S i) sp 0) = true)
      (range_pairs sp)) as Hpart.
    assert (length (range_pairs sp) = S (length cuts)) as Hrl.
    { unfold range_pairs, sp. rewrite length_seq, boundaries_length. lia. }
    rewrite Hrl in Hpart.
    rewrite <- Nat2Z.inj_add, <- Nat2Z.inj_add, Hpart; [lia|].
    intros i. unfold dropped, inb.
    destruct (decide (Z.of_nat i + 1 ∈ excl)) as [Hin|Hin].
    + rewrite bool_decide_eq_true_2 by done. simpl. right. left.
      split; [discriminate|]. split; [done|]. tauto.
    + rewrite bool_decide_eq_false_2 by done. simpl.
      destruct (is_in_skip_area _ _ _); [right; right|left].
      * split; [discriminate|]. split; [done|]. split; done.
      * split; [done|]. split; [done|]. intros [_ ?]. discriminate.
Qed.

Lemma split_counts_witness :
  ∃ r, split_by_positions (C := example_codec) example_splitter
         [1000; 2000] [ {| skip_start := 2500; skip_end := 2600 |} ] [1] [2]
       = Success r ∧
       SplitResult.splits_created r = 2 ∧
       SplitResult.excluded_segments r = 1 ∧
       SplitResult.skipped_areas r = 1.
Proof.
  destruct (split_by_positions (C := example_codec) example_splitter
              [1000; 2000] [ {| skip_start := 2500; skip_end := 2600 |} ] [1] [2])
    as [e|r] eqn:Hr; [vm_compute in Hr; discriminate|].
  exists r. split; [reflexivity|].
  destruct (split_counts (C := example_codec) example_splitter
              [1000; 2000] [ {| skip_start := 2500; skip_end := 2600 |} ] [1] [2]
              r "a.png" (800, 3000) 800 3000 eq_refl eq_refl eq_refl Hr)
    as (Hc & Hsum & Hs).
  split_and!; [exact Hc| |exact Hs].
  vm_compute in Hr. injection Hr as <-. reflexivity.
Defined.

Lemma base_geometry l :
  map geometry (base_outputs l) = filter (λ g, g.2 = false) (map geometry l).
Proof.
  unfold base_outputs. induction l as [|d l IH]; [done|]. simpl.
  destruct (SegmentOutput.has_size_suffix d) eqn:Hd.
  - rewrite filter_cons_False by (by rewrite Hd).
    rewrite filter_cons_False by (simpl; by rewrite Hd). done.
  - rewrite filter_cons_True by done.
    rewrite filter_cons_True by (simpl; by rewrite Hd). simpl. by rewrite IH.
Qed.

Lemma base_shape W sp skips excl sizes l :
  filter (λ g, g.2 = false) (flat_map (segment_shape W sp skips excl sizes) l)
  = map (λ i, ((0, nth i sp 0, W, nth (S i) sp 0),
               (W, nth (S i) sp 0 - nth i sp 0), false))
        (filter (λ i, dropped sp skips excl i = false) l).
Proof.
  induction l as [|i l IH]; [done|]. simpl. rewrite filter_app, IH.
  unfold segment_shape. destruct (dropped sp skips excl i) eqn:Hd.
  - by rewrite (filter_cons_False (λ i, dropped sp skips excl i = false))
      by (by rewrite Hd).
  - rewrite (filter_cons_True (λ i, dropped sp skips excl i = false)) by done.
    rewrite filter_cons_True by done.
    destruct (inb _ sizes); [by rewrite filter_cons_False by done|done].
Qed.

(** The base artifacts of a successful split, read off the shapes. *)
Lemma base_outputs_spec {C : Codec}
    self cuts skips excl sizes r path img W H :
  current_image_path self = Some path →
  Image_open path = Ok img →
  Image_size img = (W, H) →
  split_by_positions self cuts skips excl sizes = Success r →
  let sp := boundaries cuts H in
  map (λ d, (SegmentOutput.index d, SegmentOutput.crop_box d,
             SegmentOutput.dimensions d))
      (base_outputs (SplitResult.details r))
  = map (λ i, (Z.of_nat i + 1, (0, nth i sp 0, W, nth (S i) sp 0),
               (W, nth (S i) sp 0 - nth i sp 0)))
        (survivors sp skips excl).
Proof.
  intros Hpath Hopen Hsize Hsplit sp.
  destruct (split_by_positions_try _ _ _ _ _ _ Hsplit)
    as (path' & sku_name & Hpath' & _ & _ & _ & _ & Htry).
  rewrite Hpath in Hpath'. injection Hpath' as <-.
  destruct (split_try_shape _ _ _ _ _ _ _ _ _ _ _ _ _ Hopen Hsize Htry)
    as (Hgeo & _ & _ & _ & _ & _ & _ & Hidx).
  fold sp in Hgeo, Hidx. specialize (Hidx eq_refl).
  pose proof (base_geometry (SplitResult.details r)) as Hbase.
  rewrite Hgeo, base_shape in Hbase. fold (survivors sp skips excl) in Hbase.
  revert Hidx Hbase. generalize (base_outputs (SplitResult.details r)).
  generalize (survivors sp skips excl).
  induction l as [|i l IH]; intros [|d ds]; simpl; try done.
  intros [= Hi Hidx] [= Hb Hdim _ Hgeo']. rewrite Hi, Hb, Hdim.
  f_equal. by apply IH.
Qed.


(** X3.  In a successful [split_by_positions] the base artifacts (suffix
    flag false) are the surviving boundary pairs, each once and in order:
    their indices are the pair indices [i + 1], their crop boxes the pairs'
    boxes, and their dimensions the image width by [bottom - top]. *)
Theorem base_outputs_are_survivors {C : Codec}
    self cuts skips excl sizes r path img W H :
  current_image_path self = Some path →
  Image_open path = Ok img →
  Image_size img = (W, H) →
  split_by_positions self cuts skips excl sizes = Success r →
  let sp := boundaries cuts H in
  map (λ d, (SegmentOutput.index d, SegmentOutput.crop_box d,
             SegmentOutput.dimensions d))
      (base_outputs (SplitResult.details r))
  = map (λ i, (Z.of_nat i + 1, (0, nth i sp 0, W, nth (S i) sp 0),
               (W, nth (S i) sp 0 - nth i sp 0)))
        (survivors sp skips excl).
Proof. apply base_outputs_spec. Qed.

Lemma base_outputs_are_survivors_witness :
  ∃ r, split_by_positions (C := example_codec) example_splitter
         [1000; 2000] [] [2] [1] = Success r ∧
       map (λ d, (SegmentOutput.index d, SegmentOutput.crop_box d,
                  SegmentOutput.dimensions d))
           (base_outputs (SplitResult.details r))
       = [(1, (0, 0, 800, 1000), (800, 1000));
          (3, (0, 2000, 800, 3000), (800, 1000))].
Proof.
  destruct (split_by_positions (C := example_codec) example_splitter
              [1000; 2000] [] [2] [1]) as [e|r] eqn:Hr;
    [vm_compute in Hr; discriminate|].
  exists r. split; [reflexivity|].
  rewrite (base_outputs_are_survivors (C := example_codec) example_splitter
             [1000; 2000] [] [2] [1] r "a.png" (800, 3000) 800 3000
             eq_refl eq_refl eq_refl Hr).
  by vm_compute.
Defined.

Lemma heights_total cuts H :
  0 ≤ H → Forall (λ c, 0 ≤ c ≤ H) cuts →
  foldr Z.add 0
    (map (λ i, nth (S i) (boundaries cuts H) 0 - nth i (boundaries cuts H) 0)
         (range_pairs (boundaries cuts H))) = H.
Proof.
  intros HH Hc. unfold range_pairs.
  pose proof (boundaries_length cuts H) as Hlen.
  rewrite heights_telescope by lia. rewrite Hlen. simpl.
  rewrite boundaries_first, boundaries_last by done. lia.
Qed.

Lemma survivors_all sp : survivors sp [] [] = range_pairs sp.
Proof.
  unfold survivors. apply filter_all, Forall_forall. intros i _.
  unfold dropped, inb. rewrite bool_decide_eq_false_2; [done|].
  apply not_elem_of_nil.
Qed.

(** X4.  When the image height is not negative and every cut position lies
    in [[0, H]], every crop box of a successful [split_by_positions] lies
    inside the image ([0 <= top <= bottom <= H]); and when nothing is
    excluded and there is no skip area, the heights of the base artifacts
    add up to [H]: every pixel row is in exactly one base artifact. *)
Theorem outputs_inside_image {C : Codec} self cuts skips excl sizes r path img W H :
  current_image_path self = Some path →
  Image_open path = Ok img →
  Image_size img = (W, H) →
  split_by_positions self cuts skips excl sizes = Success r →
  0 ≤ H →
  Forall (λ c, 0 ≤ c ≤ H) cuts →
  (∀ d, d ∈ SplitResult.details r →
     0 ≤ box_top (SegmentOutput.crop_box d) ∧
     box_top (SegmentOutput.crop_box d) ≤ box_bottom (SegmentOutput.crop_box d) ∧
     box_bottom (SegmentOutput.crop_box d) ≤ H) ∧
  (skips = [] → excl = [] →
   sum (map (λ d, (SegmentOutput.dimensions d).2)
            (base_outputs (SplitResult.details r))) = H).
Proof.
  intros Hpath Hopen Hsize Hsplit HH Hc. split.
  - intros d Hd.
    destruct (split_details_pair _ _ _ _ _ _ _ _ _ _ _ Hpath Hopen Hsize Hsplit Hd)
      as (i & Hi & ->).
    unfold pair_box, box_top, box_bottom. simpl.
    pose proof (boundaries_length cuts H) as Hlen.
    pose proof (boundaries_first cuts H HH Hc) as H0.
    pose proof (boundaries_last cuts H HH Hc) as Hl.
    pose proof (sorted_nth_le ([0] ++ cuts ++ [H]) 0 i) as Ha.
    pose proof (sorted_nth_le ([0] ++ cuts ++ [H]) i (S i)) as Hb.
    pose proof (sorted_nth_le ([0] ++ cuts ++ [H]) (S i) (S (length cuts))) as Hd'.
    fold (boundaries cuts H) in Ha, Hb, Hd'.
    specialize (Ha ltac:(lia) ltac:(lia)).
    specialize (Hb ltac:(lia) ltac:(lia)).
    specialize (Hd' ltac:(lia) ltac:(lia)).
    lia.
  - intros -> ->.
    pose proof (base_outputs_spec _ _ _ _ _ _ _ _ _ _ Hpath Hopen Hsize Hsplit) as Hb.
    simpl in Hb. rewrite survivors_all in Hb.
    apply (f_equal (map (λ t, t.2.2))) in Hb. rewrite !map_map in Hb. simpl in Hb.
    unfold sum. rewrite Hb. by apply heights_total.
Qed.

Lemma outputs_inside_image_witness :
  ∃ r, split_by_positions (C := example_codec) example_splitter
         [1000; 2000] [] [] [1] = Success r ∧
       sum (map (λ d, (SegmentOutput.dimensions d).2)
                (base_outputs (SplitResult.details r))) = 3000.
Proof.
  destruct (split_by_positions (C := example_codec) example_splitter
              [1000; 2000] [] [] [1]) as [e|r] eqn:Hr;
    [vm_compute in Hr; discriminate|].
  exists r. split; [reflexivity|].
  apply (outputs_inside_image (C := example_codec) example_splitter
           [1000; 2000] [] [] [1] r "a.png" (800, 3000) 800 3000
           eq_refl eq_refl eq_refl Hr); try reflexivity; [lia|].
  repeat constructor; lia.
Defined.

(** X5.  In a successful [_split_with_global_numbering] started at
    [start_index], the base artifacts are numbered [start_index],
    [start_index + 1], ... without a gap, one number per surviving boundary
    pair, in the order of the pairs and with their crop boxes; a dropped
    pair uses no number, and every output, [-size] artifacts included, has
    a number below [start_index] plus the number of surviving pairs. *)
Theorem global_numbers_contiguous {C : Codec}
    self cuts skips excl sizes start r path img W H :
  current_image_path self = Some path →
  Image_open path = Ok img →
  Image_size img = (W, H) →
  split_with_global_numbering self cuts skips excl sizes start = Success r →
  let sp := boundaries cuts H in
  let alive := survivors sp skips excl in
  map SegmentOutput.index (base_outputs (SplitResult.details r))
    = map (λ j, start + Z.of_nat j) (seq 0 (length alive)) ∧
  map SegmentOutput.crop_box (base_outputs (SplitResult.details r))
    = map (λ i, (0, nth i sp 0, W, nth (S i) sp 0)) alive ∧
  Forall (λ d, start ≤ SegmentOutput.index d < start + Z.of_nat (length alive))
         (SplitResult.details r).
Proof.
  intros Hpath Hopen Hsize Hsplit sp alive.
  destruct (split_with_global_numbering_try _ _ _ _ _ _ _ Hsplit)
    as (path' & sku_name & Hpath' & _ & _ & _ & Htry).
  rewrite Hpath in Hpath'. injection Hpath' as <-.
  destruct (split_try_shape _ _ _ _ _ _ _ _ _ _ _ _ _ Hopen Hsize Htry)
    as (Hgeo & _ & _ & _ & _ & _ & Hg & _).
  fold sp in Hgeo, Hg. destruct (Hg eq_refl) as [Hidx Hrange].
  split_and!; [done| |done].
  pose proof (base_geometry (SplitResult.details r)) as Hbase.
  rewrite Hgeo, base_shape in Hbase.
  apply (f_equal (map (λ t, t.1.1))) in Hbase. rewrite !map_map in Hbase.
  exact Hbase.
Qed.

Lemma global_numbers_contiguous_witness :
  ∃ r, split_with_global_numbering (C := example_codec) example_splitter
         [1000; 2000] [] [2] [1] 7 = Success r ∧
       map SegmentOutput.index (base_outputs (SplitResult.details r)) = [7; 8].
Proof.
  destruct (split_with_global_numbering (C := example_codec) example_splitter
              [1000; 2000] [] [2] [1] 7) as [e|r] eqn:Hr;
    [vm_compute in Hr; discriminate|].
  exists r. split; [reflexivity|].
  destruct (global_numbers_contiguous (C := example_codec) example_splitter
              [1000; 2000] [] [2] [1] 7 r "a.png" (800, 3000) 800 3000
              eq_refl eq_refl eq_refl Hr) as (Hidx & _ & _).
  rewrite Hidx. by vm_compute.
Defined.

(** X6.  When both succeed on the same loaded image and inputs,
    [split_by_positions] and [_split_with_global_numbering] produce the
    same crop boxes, dimensions and suffix flags in the same order, the
    same [splits_created], [excluded_segments] and [skipped_areas]: global
    numbering changes the numbers and file names only. *)
Theorem global_numbering_keeps_geometry {C : Codec}
    self cuts skips excl sizes start r r' :
  split_by_positions self cuts skips excl sizes = Success r →
  split_with_global_numbering self cuts skips excl sizes start = Success r' →
  map geometry (SplitResult.details r) = map geometry (SplitResult.details r') ∧
  SplitResult.splits_created r = SplitResult.splits_created r' ∧
  SplitResult.excluded_segments r = SplitResult.excluded_segments r' ∧
  SplitResult.skipped_areas r = SplitResult.skipped_areas r' ∧
  SplitResult.output_directory r = SplitResult.output_directory r'.
Proof.
  intros Hl Hg.
  destruct (split_by_positions_try _ _ _ _ _ _ Hl)
    as (path & sku_name & Hpath & _ & Hsku & _ & _ & Htry).
  destruct (split_with_global_numbering_try _ _ _ _ _ _ _ Hg)
    as (path' & sku_name' & Hpath' & _ & Hsku' & _ & Htry').
  rewrite Hpath in Hpath'. injection Hpath' as <-.
  rewrite Hsku in Hsku'. injection Hsku' as <-.
  destruct (split_try_open _ _ _ _ _ _ _ _ _ _ Htry) as [img Hopen].
  destruct (Image_size img) as [W H] eqn:Hsize.
  destruct (split_try_shape _ _ _ _ _ _ _ _ _ _ _ _ _ Hopen Hsize Htry)
    as (Hgeo & Hlen & Hskip & Hexcl & _ & Hdir & _).
  destruct (split_try_shape _ _ _ _ _ _ _ _ _ _ _ _ _ Hopen Hsize Htry')
    as (Hgeo' & Hlen' & Hskip' & Hexcl' & _ & Hdir' & _).
  split_and!; try congruence.
  rewrite Hlen, Hlen', <- (length_map geometry), Hgeo, <- Hgeo', length_map. done.
Qed.

Lemma global_numbering_keeps_geometry_witness :
  ∃ r r',
    split_by_positions (C := example_codec) example_splitter
      [1000; 2000] [] [2] [1] = Success r ∧
    split_with_global_numbering (C := example_codec) example_splitter
      [1000; 2000] [] [2] [1] 7 = Success r' ∧
    map geometry (SplitResult.details r) = map geometry (SplitResult.details r').
Proof.
  destruct (split_by_positions (C := example_codec) example_splitter
              [1000; 2000] [] [2] [1]) as [e|r] eqn:Hr;
    [vm_compute in Hr; discriminate|].
  destruct (split_with_global_numbering (C := example_codec) example_splitter
              [1000; 2000] [] [2] [1] 7) as [e|r'] eqn:Hr';
    [vm_compute in Hr'; discriminate|].
  exists r, r'. split_and!; [reflexivity..|].
  apply (global_numbering_keeps_geometry (C := example_codec) example_splitter
           [1000; 2000] [] [2] [1] 7 r r' Hr Hr').
Defined.

(** ** batch_process of the interactive splitter *)

Section BatchLoopFacts.
Context {C : Codec}.
Variables (self : InteractiveSplitter) (cuts : list Z) (skips : list skip_area).
Variables (excl sizes : list Z) (g : bool).

(** The split that [batch_process] runs for one image: the image is loaded
    on top of [self], and the split starts at [start] under global
    numbering. *)
Local Abbreviation entry_result := (λ (info : image_info) (start : Z),
  if g then split_with_global_numbering (load_image self (info_path info)).1
              cuts skips excl sizes start
  else split_by_positions (load_image self (info_path info)).1
         cuts skips excl sizes).

Lemma batch_step_spec i info bs :
  batch_step self cuts skips excl sizes g i info bs
  = {| all_results :=
         all_results bs ++ [(info_filename info, i, entry_result info (global_index bs))];
       total_splits := total_splits bs + created (entry_result info (global_index bs));
       global_index :=
         global_index bs
         + (if g then created (entry_result info (global_index bs)) else 0) |}.
Proof.
  unfold batch_step. destruct g.
  - destruct (split_with_global_numbering _ _ _ _ _ _); simpl; f_equal; lia.
  - destruct (split_by_positions _ _ _ _ _); simpl; f_equal; lia.
Qed.

Lemma created_total_cons e l : created_total (e :: l) = created e.2 + created_total l.
Proof. done. Qed.

Lemma batch_loop_spec images : ∀ i bs,
  ∃ new,
    all_results (batch_loop self cuts skips excl sizes g i images bs)
      = all_results bs ++ new ∧
    total_splits (batch_loop self cuts skips excl sizes g i images bs)
      = total_splits bs + created_total new ∧
    global_index (batch_loop self cuts skips excl sizes g i images bs)
      = global_index bs + (if g then created_total new else 0) ∧
    length new = length images ∧
    ∀ k info, images !! k = Some info →
      new !! k = Some (info_filename info, i + Z.of_nat k,
                       entry_result info
                         (global_index bs
                          + (if g then created_total (take k new) else 0))).
Proof.
  induction images as [|info images IH]; intros i bs; simpl.
  - exists []. rewrite app_nil_r. unfold created_total. simpl.
    split_and!; try done; [lia|destruct g; lia].
  - rewrite batch_step_spec.
    match goal with |- context [batch_loop _ _ _ _ _ _ _ _ ?b] =>
      destruct (IH (i + 1) b) as (new & Hall & Htot & Hidx & Hlen & Hk) end.
    simpl in Hall, Htot, Hidx, Hk.
    exists ((info_filename info, i, entry_result info (global_index bs)) :: new).
    rewrite Hall, Htot, Hidx, created_total_cons, <- app_assoc. simpl.
    split_and!; [done|lia|destruct g; lia|by rewrite Hlen|].
    intros [|k] info' Hinfo; simpl in *.
    + injection Hinfo as <-. do 3 f_equal; [lia|].
      unfold created_total. simpl. destruct g; f_equal; lia.
    + rewrite (Hk k info' Hinfo). do 3 f_equal; [lia|].
      rewrite created_total_cons. simpl. destruct g; f_equal; lia.
Qed.
End BatchLoopFacts.

Section BatchProcessFacts.
Context {C : Codec}.

Lemma batch_process_spec self cuts skips excl sizes g r :
  batch_process self cuts skips excl sizes g = inr r →
  uploaded_images self ≠ [] ∧
  total_images r = Z.of_nat (length (uploaded_images self)) ∧
  length (batch_results r) = length (uploaded_images self) ∧
  success_count r
    = Z.of_nat (length (filter (λ e, is_success e.2 = true) (batch_results r))) ∧
  error_count r = Z.of_nat (length (batch_results r)) - success_count r ∧
  total_splits_created r = created_total (batch_results r) ∧
  batch_sku r = current_sku self ∧
  ∀ k info, uploaded_images self !! k = Some info →
    batch_results r !! k
    = Some (info_filename info, Z.of_nat k,
            if g then
              split_with_global_numbering (load_image self (info_path info)).1
                cuts skips excl sizes (1 + created_total (take k (batch_results r)))
            else
              split_by_positions (load_image self (info_path info)).1
                cuts skips excl sizes).
Proof.
  unfold batch_process.
  destruct (bool_decide (uploaded_images self = [])) eqn:Hup; [discriminate|].
  apply bool_decide_eq_false in Hup.
  destruct (negb _); [discriminate|].
  match goal with |- context [batch_loop _ _ _ _ _ _ _ _ ?b] =>
    destruct (batch_loop_spec self cuts skips excl sizes g (uploaded_images self) 0 b)
      as (new & Hall & Htot & Hidx & Hlen & Hk) end.
  simpl in Hall, Htot, Hidx, Hk.
  intros [= <-]. simpl. rewrite Hall, Htot. simpl.
  split_and!; try done; try lia.
  intros k info Hinfo. rewrite (Hk k info Hinfo).
  rewrite Z.add_0_l. by destruct g.
Qed.

(** The outputs of a successful [_split_with_global_numbering] are
    numbered from the start index and below the start index plus
    [splits_created], which is not negative. *)
Lemma global_numbers_range self cuts skips excl sizes start r :
  split_with_global_numbering self cuts skips excl sizes start = Success r →
  0 ≤ SplitResult.splits_created r ∧
  Forall (λ d, start ≤ SegmentOutput.index d < start + SplitResult.splits_created r)
         (SplitResult.details r).
Proof.
  intros Hs.
  destruct (split_with_global_numbering_try _ _ _ _ _ _ _ Hs)
    as (path & sku_name & Hpath & _ & _ & _ & Htry).
  destruct (split_try_open _ _ _ _ _ _ _ _ _ _ Htry) as [img Hopen].
  destruct (Image_size img) as [W H] eqn:Hsize.
  destruct (split_try_shape _ _ _ _ _ _ _ _ _ _ _ _ _ Hopen Hsize Htry)
    as (Hgeo & Hlen & _ & _ & _ & _ & Hg & _).
  destruct (Hg eq_refl) as [_ Hrange].
  split; [lia|].
  eapply Forall_impl; [exact Hrange|]. simpl. intros d Hd.
  assert (length (survivors (boundaries cuts H) skips excl)
          ≤ length (SplitResult.details r))%nat.
  { rewrite <- (length_map geometry), Hgeo, flat_map_shape_length.
    unfold survivors. lia. }
  lia.
Qed.

Lemma created_nonneg_global self cuts skips excl sizes start :
  0 ≤ created (split_with_global_numbering self cuts skips excl sizes start).
Proof.
  destruct (split_with_global_numbering _ _ _ _ _ _) as [e|r] eqn:Hs; [done|].
  simpl. by destruct (global_numbers_range _ _ _ _ _ _ _ Hs).
Qed.
End BatchProcessFacts.

Lemma created_total_app l1 l2 :
  created_total (l1 ++ l2) = created_total l1 + created_total l2.
Proof.
  unfold created_total, sum. induction l1 as [|e l1 IH]; simpl; [done|].
  rewrite IH. lia.
Qed.

Lemma created_total_nonneg l :
  Forall (λ e, 0 ≤ created e.2) l → 0 ≤ created_total l.
Proof.
  unfold created_total, sum. induction 1 as [|e l He _ IH]; simpl; lia.
Qed.

Lemma created_total_take_mono l m n :
  Forall (λ e, 0 ≤ created e.2) l → (m ≤ n)%nat →
  created_total (take m l) ≤ created_total (take n l).
Proof.
  intros HF Hmn.
  replace n with (m + (n - m))%nat by lia.
  rewrite <- take_take_drop, created_total_app.
  assert (0 ≤ created_total (take (n - m) (drop m l))); [|lia].
  apply created_total_nonneg, Forall_take, Forall_drop, HF.
Qed.

(** X7.  The summary of the interactive [batch_process]: there is one
    entry per uploaded image, in upload order, with the image's file name
    and its position as [image_index]; [success_count] and [error_count]
    are not negative and add up to [total_images]; and
    [total_splits_created] is the sum of [splits_created] over the entries
    that are not errors. *)
Theorem batch_summary_consistent {C : Codec} self cuts skips excl sizes g r :
  batch_process self cuts skips excl sizes g = inr r →
  total_images r = Z.of_nat (length (uploaded_images self)) ∧
  map (λ e, e.1) (batch_results r)
    = imap (λ k info, (info_filename info, Z.of_nat k)) (uploaded_images self) ∧
  0 ≤ success_count r ∧ 0 ≤ error_count r ∧
  success_count r + error_count r = total_images r ∧
  total_splits_created r = created_total (batch_results r).
Proof.
  intros Hb.
  destruct (batch_process_spec _ _ _ _ _ _ _ Hb)
    as (_ & Htot & Hlen & Hsucc & Herr & Hsplits & _ & Hk).
  split_and!; try done.
  - apply list_eq. intros k. rewrite list_lookup_fmap, list_lookup_imap.
    destruct (uploaded_images self !! k) as [info|] eqn:Hinfo; simpl.
    + by rewrite (Hk k info Hinfo).
    + apply lookup_ge_None in Hinfo.
      rewrite (proj2 (lookup_ge_None (batch_results r) k)); [done|lia].
  - lia.
  - rewrite Herr, Hsucc.
    pose proof (length_filter (λ e, is_success e.2 = true) (batch_results r)). lia.
  - lia.
Qed.

Lemma batch_summary_consistent_witness :
  ∃ r, batch_process (C := example_codec) example_splitter
         [1000; 2000] [] [] [1] true = inr r ∧
       success_count r + error_count r = 2 ∧
       total_splits_created r = 8.
Proof.
  destruct (batch_process (C := example_codec) example_splitter
              [1000; 2000] [] [] [1] true) as [e|r] eqn:Hr;
    [vm_compute in Hr; discriminate|].
  exists r. split; [reflexivity|].
  destruct (batch_summary_consistent (C := example_codec) example_splitter
              [1000; 2000] [] [] [1] true r Hr)
    as (Htot & _ & _ & _ & Hsum & Hsp).
  split; [by rewrite Hsum, Htot|].
  vm_compute in Hr. injection Hr as <-. reflexivity.
Defined.

(** X8.  What each entry of the interactive [batch_process] holds: the
    split of that entry's image loaded on top of the session.  Under global
    numbering the split of entry [k] starts at 1 plus the sum of
    [splits_created] (the number of artifacts, [-size] duplicates included)
    of the earlier entries that are not errors; otherwise it is
    [split_by_positions], numbered from 1. *)
Theorem batch_entry_split {C : Codec} self cuts skips excl sizes g r k info :
  batch_process self cuts skips excl sizes g = inr r →
  uploaded_images self !! k = Some info →
  batch_results r !! k
  = Some (info_filename info, Z.of_nat k,
          if g then
            split_with_global_numbering (load_image self (info_path info)).1
              cuts skips excl sizes (1 + created_total (take k (batch_results r)))
          else
            split_by_positions (load_image self (info_path info)).1
              cuts skips excl sizes).
Proof.
  intros Hb Hinfo.
  destruct (batch_process_spec _ _ _ _ _ _ _ Hb) as (_ & _ & _ & _ & _ & _ & _ & Hk).
  by apply Hk.
Qed.

Lemma batch_entry_split_witness :
  ∃ r, batch_process (C := example_codec) example_splitter
         [1000; 2000] [] [] [1] true = inr r ∧
       batch_results r !! 1%nat
       = Some ("b.png", 1,
               split_with_global_numbering (C := example_codec)
                 (load_image (C := example_codec) example_splitter "b.png").1
                 [1000; 2000] [] [] [1] 5).
Proof.
  destruct (batch_process (C := example_codec) example_splitter
              [1000; 2000] [] [] [1] true) as [e|r] eqn:Hr;
    [vm_compute in Hr; discriminate|].
  exists r. split; [reflexivity|].
  rewrite (batch_entry_split (C := example_codec) example_splitter
             [1000; 2000] [] [] [1] true r 1
             {| info_path := "b.png"; info_filename := "b.png" |} Hr eq_refl).
  vm_compute in Hr. injection Hr as <-. reflexivity.
Defined.

(** X9.  Under global numbering the numbers grow from one file of a batch
    to the next: every output number of an earlier entry is below every
    output number of a later entry, so no two files of a batch share an
    output number. *)
Theorem global_numbers_increase {C : Codec}
    self cuts skips excl sizes r j k ej ek a b :
  batch_process self cuts skips excl sizes true = inr r →
  (j < k)%nat →
  batch_results r !! j = Some ej →
  batch_results r !! k = Some ek →
  a ∈ output_numbers ej.2 →
  b ∈ output_numbers ek.2 →
  a < b.
Proof.
  intros Hb Hjk Hj Hk Ha Hbn.
  destruct (batch_process_spec _ _ _ _ _ _ _ Hb)
    as (_ & _ & Hlen & _ & _ & _ & _ & Hspec).
  assert (Forall (λ e, 0 ≤ created e.2) (batch_results r)) as Hnn.
  { apply Forall_lookup. intros i e He.
    destruct (lookup_lt_is_Some_2 (uploaded_images self) i) as [info Hinfo].
    { rewrite <- Hlen. by eapply lookup_lt_Some. }
    rewrite (Hspec i info Hinfo) in He. injection He as <-. simpl.
    apply created_nonneg_global. }
  destruct (lookup_lt_is_Some_2 (uploaded_images self) j) as [ij Hij].
  { rewrite <- Hlen. by eapply lookup_lt_Some. }
  destruct (lookup_lt_is_Some_2 (uploaded_images self) k) as [ik Hik].
  { rewrite <- Hlen. by eapply lookup_lt_Some. }
  pose proof (Hspec j ij Hij) as Hej. rewrite Hj in Hej. injection Hej as ->.
  pose proof (Hspec k ik Hik) as Hek. rewrite Hk in Hek. injection Hek as ->.
  simpl in Ha, Hbn.
  destruct (split_with_global_numbering (load_image self (info_path ij)).1 _ _ _ _ _)
    as [?|rj] eqn:Hrj; [by apply elem_of_nil in Ha|].
  destruct (split_with_global_numbering (load_image self (info_path ik)).1 _ _ _ _ _)
    as [?|rk] eqn:Hrk; [by apply elem_of_nil in Hbn|].
  simpl in Ha, Hbn.
  apply list_elem_of_fmap in Ha as (da & -> & Hda).
  apply list_elem_of_fmap in Hbn as (db & -> & Hdb).
  destruct (global_numbers_range _ _ _ _ _ _ _ Hrj) as [_ Hfj].
  destruct (global_numbers_range _ _ _ _ _ _ _ Hrk) as [_ Hfk].
  rewrite Forall_forall in Hfj, Hfk.
  specialize (Hfj da Hda). specialize (Hfk db Hdb).
  pose proof (created_total_take_mono (batch_results r) (S j) k Hnn ltac:(lia)) as Hmono.
  rewrite (take_S_r _ _ _ Hj), created_total_app, created_total_cons in Hmono.
  change (created_total []) with 0 in Hmono. simpl in Hmono. lia.
Qed.

Lemma global_numbers_increase_witness :
  ∃ r ej ek,
    batch_process (C := example_codec) example_splitter
      [1000; 2000] [] [] [1] true = inr r ∧
    batch_results r !! 0%nat = Some ej ∧
    batch_results r !! 1%nat = Some ek ∧
    3 ∈ output_numbers ej.2 ∧ 5 ∈ output_numbers ek.2 ∧ 3 < 5.
Proof.
  destruct (batch_process (C := example_codec) example_splitter
              [1000; 2000] [] [] [1] true) as [e|r] eqn:Hr;
    [vm_compute in Hr; discriminate|].
  destruct (batch_results r !! 0%nat) as [ej|] eqn:Hj;
    [|vm_compute in Hr; injection Hr as <-; discriminate].
  destruct (batch_results r !! 1%nat) as [ek|] eqn:Hk;
    [|vm_compute in Hr; injection Hr as <-; discriminate].
  assert (3 ∈ output_numbers ej.2 ∧ 5 ∈ output_numbers ek.2) as [Ha Hb].
  { vm_compute in Hr. injection Hr as <-.
    injection Hj as <-. injection Hk as <-. simpl.
    split; apply (bool_decide_unpack _); by vm_compute. }
  exists r, ej, ek.
  split; [reflexivity|]. split; [exact Hj|]. split; [exact Hk|].
  split; [exact Ha|]. split; [exact Hb|].
  apply (global_numbers_increase (C := example_codec) example_splitter
           [1000; 2000] [] [] [1] r 0 1 ej ek 3 5 Hr); try assumption. lia.
Defined.

Lemma load_image_failed {C : Codec} self image_path e :
  (load_image self image_path).2 = Raise e →
  (load_image self image_path).1 = self.
Proof.
  unfold load_image. by destruct (Image_open image_path ≫= _).
Qed.

(** X10.  When the image of a batch entry cannot be loaded, [batch_process]
    does not report an error for it: the split runs on the image that was
    current before the batch, and its result is stored under the entry of
    the image that failed to load. *)
Theorem failed_load_splits_current_image {C : Codec}
    self cuts skips excl sizes g r k info e :
  batch_process self cuts skips excl sizes g = inr r →
  uploaded_images self !! k = Some info →
  (load_image self (info_path info)).2 = Raise e →
  batch_results r !! k
  = Some (info_filename info, Z.of_nat k,
          if g then
            split_with_global_numbering self cuts skips excl sizes
              (1 + created_total (take k (batch_results r)))
          else split_by_positions self cuts skips excl sizes).
Proof.
  intros Hb Hinfo Hload.
  destruct (batch_process_spec _ _ _ _ _ _ _ Hb) as (_ & _ & _ & _ & _ & _ & _ & Hk).
  rewrite (Hk k info Hinfo). by rewrite (load_image_failed _ _ _ Hload).
Qed.

Lemma failed_load_splits_current_image_witness :
  let self :=
    {| current_image_path := Some "a.png";
       current_image_data := None;
       current_sku := Some "SKU";
       uploaded_images := [ {| info_path := "missing.png";
                               info_filename := "missing.png" |} ];
       current_image_index := 0 |} in
  ∃ r res,
    batch_process (C := example_codec) self [1000; 2000] [] [] [] false = inr r ∧
    batch_results r !! 0%nat = Some ("missing.png", 0, Success res) ∧
    map SegmentOutput.crop_box (SplitResult.details res)
    = [(0, 0, 800, 1000); (0, 1000, 800, 2000); (0, 2000, 800, 3000)].
Proof.
  intros self.
  destruct (batch_process (C := example_codec) self [1000; 2000] [] [] [] false)
    as [e|r] eqn:Hr; [vm_compute in Hr; discriminate|].
  destruct (split_by_positions (C := example_codec) self [1000; 2000] [] [] [])
    as [e|res] eqn:Hres; [vm_compute in Hres; discriminate|].
  exists r, res. split; [reflexivity|].
  rewrite (failed_load_splits_current_image (C := example_codec) self
             [1000; 2000] [] [] [] false r 0
             {| info_path := "missing.png"; info_filename := "missing.png" |}
             "cannot identify image file 'missing.png'" Hr eq_refl eq_refl).
  rewrite Hres. split; [reflexivity|].
  vm_compute in Hres. injection Hres as <-. reflexivity.
Defined.

(** ** The preview *)

Lemma preview_loop_spec sp skips l : ∀ acc idx,
  foldl (λ st i, preview_body sp skips i st) (acc, idx) l
  = (acc ++ imap (λ j i, {| PreviewSegment.index := idx + Z.of_nat j;
                            PreviewSegment.top := nth i sp 0;
                            PreviewSegment.height := nth (S i) sp 0 - nth i sp 0;
                            PreviewSegment.bottom := nth (S i) sp 0;
                            PreviewSegment.is_skipped := false |})
            (filter (λ i, is_in_skip_area skips (nth i sp 0) (nth (S i) sp 0) = false) l),
     idx + Z.of_nat (length
       (filter (λ i, is_in_skip_area skips (nth i sp 0) (nth (S i) sp 0) = false) l))).
Proof.
  induction l as [|i l IH]; intros acc idx; simpl.
  - rewrite app_nil_r. f_equal. lia.
  - unfold preview_body at 2.
    destruct (is_in_skip_area skips (nth i sp 0) (nth (S i) sp 0)) eqn:Hs.
    + rewrite filter_cons_False by (by rewrite Hs). apply IH.
    + rewrite filter_cons_True by done. simpl. rewrite IH, <- app_assoc. simpl.
      f_equal; [|lia]. do 2 f_equal.
      * f_equal. lia.
      * apply imap_ext. intros j x _. simpl. f_equal. lia.
Qed.

(** The position of [i] among the numbers below [n] that satisfy [P]. *)
Lemma filter_seq_lookup (P : nat → Prop) `{∀ i, Decision (P i)} n : ∀ j i,
  filter P (seq 0 n) !! j = Some i →
  (i < n)%nat ∧ P i ∧ j = length (filter P (seq 0 i)).
Proof.
  induction n as [|n IH]; intros j i Hj; [done|].
  rewrite seq_S, filter_app in Hj. simpl in Hj.
  apply lookup_app_Some in Hj as [Hj|[Hlen Hj]].
  - destruct (IH j i Hj) as (? & ? & ?). split_and!; [lia|done|done].
  - destruct (decide (P n)) as [Hp|Hp].
    + rewrite filter_cons_True in Hj by done.
      apply list_lookup_singleton_Some in Hj as [Hj ->].
      split_and!; [lia|done|lia].
    + rewrite filter_cons_False in Hj by done. done.
Qed.

Lemma filter_complement_length {A} (P : A → Prop) `{∀ x, Decision (P x)} (l : list A) :
  (length (filter P l) + length (filter (λ x, ¬ P x) l))%nat = length l.
Proof.
  induction l as [|x l IH]; [done|]. destruct (decide (P x)).
  - rewrite filter_cons_True, (filter_cons_False (λ x, ¬ P x)) by tauto. simpl. lia.
  - rewrite filter_cons_False, (filter_cons_True (λ x, ¬ P x)) by tauto. simpl. lia.
Qed.

(** X11.  The preview numbers the segments it shows 1, 2, 3, ... without
    a gap: a segment that overlaps a skip area is left out and uses no
    number.  The segments shown are the boundary pairs of the display
    height that overlap no skip area, in order, each with
    [height = bottom - top]. *)
Theorem preview_numbers_contiguous display_height cuts skips segs :
  preview_splits (Some display_height) cuts skips = inr segs →
  let sp := boundaries cuts display_height in
  map PreviewSegment.index segs
    = map (λ j, 1 + Z.of_nat j) (seq 0 (length segs)) ∧
  map (λ s, (PreviewSegment.top s, PreviewSegment.bottom s)) segs
    = map (λ i, (nth i sp 0, nth (S i) sp 0))
          (filter (λ i, is_in_skip_area skips (nth i sp 0) (nth (S i) sp 0) = false)
                  (range_pairs sp)) ∧
  Forall (λ s, PreviewSegment.height s
               = PreviewSegment.bottom s - PreviewSegment.top s ∧
               PreviewSegment.is_skipped s = false) segs.
Proof.
  unfold preview_splits. rewrite preview_loop_spec. intros [= <-].
  cbn [fst app]. cbv zeta.
  set (sp := boundaries cuts display_height).
  generalize (filter (λ i, is_in_skip_area skips (nth i sp 0) (nth (S i) sp 0) = false)
                (range_pairs sp)).
  intros l. split_and!.
  - rewrite length_imap. generalize 1. induction l as [|i l IH]; intros z; [done|].
    rewrite imap_cons. simpl length. rewrite numbers_from_cons. simpl. f_equal; [lia|].
    rewrite <- (IH (z + 1)). f_equal. apply imap_ext. intros j x _. simpl.
    f_equal. lia.
  - generalize 1. induction l as [|i l IH]; intros z; [done|].
    rewrite imap_cons. simpl. f_equal. rewrite <- (IH (z + 1)). f_equal.
    apply imap_ext. intros j x _. simpl. f_equal. lia.
  - apply Forall_forall. intros s Hs.
    apply list_elem_of_lookup in Hs as [j Hs].
    rewrite list_lookup_imap in Hs.
    destruct (l !! j); simpl in Hs; [|done]. injection Hs as <-. done.
Qed.

Lemma preview_numbers_contiguous_witness :
  ∃ segs,
    preview_splits (Some 3000) [1000; 2000]
      [ {| skip_start := 900; skip_end := 950 |} ] = inr segs ∧
    map PreviewSegment.index segs = map (λ j, 1 + Z.of_nat j) (seq 0 (length segs)) ∧
    map (λ s, (PreviewSegment.top s, PreviewSegment.bottom s)) segs
    = [(1000, 2000); (2000, 3000)].
Proof.
  destruct (preview_splits (Some 3000) [1000; 2000]
              [ {| skip_start := 900; skip_end := 950 |} ]) as [e|segs] eqn:Hp;
    [vm_compute in Hp; discriminate|].
  exists segs. split; [reflexivity|].
  destruct (preview_numbers_contiguous 3000 [1000; 2000]
              [ {| skip_start := 900; skip_end := 950 |} ] segs Hp) as (Hidx & Hb & _).
  split; [exact Hidx|]. rewrite Hb. by vm_compute.
Defined.

(** X12.  The number the preview gives a segment is not the planner's
    index of that boundary pair when an earlier pair overlaps a skip area.
    The segment at position [j] of the preview has number [j + 1] and is a
    boundary pair [i] that overlaps no skip area; the planner's index of
    that pair, [i + 1], is the preview number plus the number of earlier
    pairs that overlap a skip area.  Without skip areas the two agree. *)
Theorem preview_number_offset display_height cuts skips segs j s :
  preview_splits (Some display_height) cuts skips = inr segs →
  segs !! j = Some s →
  let sp := boundaries cuts display_height in
  ∃ i, (S i < length sp)%nat ∧
       PreviewSegment.top s = nth i sp 0 ∧
       PreviewSegment.bottom s = nth (S i) sp 0 ∧
       is_in_skip_area skips (nth i sp 0) (nth (S i) sp 0) = false ∧
       PreviewSegment.index s = Z.of_nat j + 1 ∧
       Z.of_nat i + 1
       = PreviewSegment.index s
         + Z.of_nat (length (filter
             (λ i', ¬ is_in_skip_area skips (nth i' sp 0) (nth (S i') sp 0) = false)
             (seq 0 i))) ∧
       (skips = [] → PreviewSegment.index s = Z.of_nat i + 1).
Proof.
  unfold preview_splits. rewrite preview_loop_spec. intros [= <-].
  cbn [fst app]. cbv zeta. set (sp := boundaries cuts display_height).
  rewrite list_lookup_imap.
  destruct (filter _ (range_pairs sp) !! j) as [i|] eqn:Hi; [|done].
  simpl. intros [= <-]. simpl.
  unfold range_pairs in Hi.
  apply (filter_seq_lookup
           (λ i, is_in_skip_area skips (nth i sp 0) (nth (S i) sp 0) = false))
    in Hi as (Hlt & Hshown & Hj).
  pose proof (filter_complement_length
    (λ i, is_in_skip_area skips (nth i sp 0) (nth (S i) sp 0) = false) (seq 0 i)) as Hc.
  rewrite length_seq in Hc.
  exists i. split_and!; try done; try lia.
  intros ->.
  rewrite (filter_none
             (λ i', ¬ is_in_skip_area [] (nth i' sp 0) (nth (S i') sp 0) = false)
             (seq 0 i)) in Hc; [change (length []) with 0%nat in Hc; lia|].
  apply Forall_forall. intros i' _ Hn. by apply Hn.
Qed.

Lemma preview_number_offset_witness :
  ∃ segs s,
    preview_splits (Some 3000) [1000; 2000]
      [ {| skip_start := 900; skip_end := 950 |} ] = inr segs ∧
    segs !! 0%nat = Some s ∧
    PreviewSegment.index s = 1 ∧
    PreviewSegment.top s = 1000 ∧ PreviewSegment.bottom s = 2000.
Proof.
  destruct (preview_splits (Some 3000) [1000; 2000]
              [ {| skip_start := 900; skip_end := 950 |} ]) as [e|segs] eqn:Hp;
    [vm_compute in Hp; discriminate|].
  destruct (segs !! 0%nat) as [s|] eqn:Hs;
    [|vm_compute in Hp; injection Hp as <-; discriminate].
  exists segs, s. split; [reflexivity|]. split; [exact Hs|].
  destruct (preview_number_offset 3000 [1000; 2000]
              [ {| skip_start := 900; skip_end := 950 |} ] segs 0 s Hp Hs)
    as (i & _ & _ & _ & _ & Hidx & _).
  split; [exact Hidx|].
  vm_compute in Hp. injection Hp as <-. injection Hs as <-. by split.
Defined.

(** ** Navigation and sessions *)

Section NavigateFacts.
Context {C : Codec}.

Lemma load_image_ok self image_path data :
  (load_image self image_path).2 = Ok data →
  (load_image self image_path).1
  = {| current_image_path := Some image_path;
       current_image_data := Some data;
       current_sku := current_sku self;
       uploaded_images := uploaded_images self;
       current_image_index := current_image_index self |}.
Proof.
  unfold load_image. destruct (Image_open image_path ≫= _); simpl; congruence.
Qed.

(** What a successful navigation step leaves. *)
Lemma navigate_step_ok self direction self' data idx total name :
  navigate_image self direction = (self', inr (data, idx, total, name)) →
  total = Z.of_nat (length (uploaded_images self)) ∧ 0 < total ∧
  (direction = "next" ∧ idx = (current_image_index self + 1) `mod` total ∨
   direction = "prev" ∧ idx = (current_image_index self - 1) `mod` total) ∧
  self' = {| current_image_path :=
               Some (info_path (nth (Z.to_nat idx) (uploaded_images self) dummy_info));
             current_image_data := Some data;
             current_sku := current_sku self;
             uploaded_images := uploaded_images self;
             current_image_index := idx |} ∧
  name = info_filename (nth (Z.to_nat idx) (uploaded_images self) dummy_info).
Proof.
  unfold navigate_image.
  destruct (bool_decide (uploaded_images self = [])) eqn:Hup; [discriminate|].
  apply bool_decide_eq_false in Hup.
  assert (0 < Z.of_nat (length (uploaded_images self))) as Hpos.
  { destruct (uploaded_images self); [done|simpl; lia]. }
  destruct (bool_decide (direction = "next")) eqn:Hn;
    [apply bool_decide_eq_true in Hn
    |destruct (bool_decide (direction = "prev")) eqn:Hp;
      [apply bool_decide_eq_true in Hp|discriminate]].
  all: match goal with |- context [load_image ?s ?p] =>
         destruct (load_image s p) as [s1 [d|e]] eqn:Hload; [|discriminate];
         pose proof (load_image_ok s p d) as Hok;
         rewrite Hload in Hok; simpl in Hok; rewrite (Hok eq_refl) end.
  all: simpl; intros [= <- <- <- <- <-]; split_and!; auto.
Qed.
End NavigateFacts.

(** X13.  The route [navigate_image] keeps the session consistent: after a
    step that succeeds the stored index lies in
    [0 <= index < len(uploaded_images)], the current image is the uploaded
    image at that index, and the list of uploads and the SKU are unchanged;
    after a step that answers with an error (no upload, bad direction, image
    that cannot be loaded) the session is exactly as before. *)
Theorem navigate_keeps_session_consistent {C : Codec} self direction :
  match navigate_image self direction with
  | (self', inr (data, idx, total, name)) =>
      0 ≤ idx < Z.of_nat (length (uploaded_images self)) ∧
      current_image_index self' = idx ∧
      (∃ info, uploaded_images self !! Z.to_nat idx = Some info ∧
               current_image_path self' = Some (info_path info) ∧
               name = info_filename info) ∧
      uploaded_images self' = uploaded_images self ∧
      current_sku self' = current_sku self
  | (self', inl e) => self' = self
  end.
Proof.
  destruct (navigate_image self direction) as [self' [e|[[[data idx] total] name]]]
    eqn:Hnav.
  - revert Hnav. unfold navigate_image.
    destruct (bool_decide (uploaded_images self = [])); [congruence|].
    destruct (bool_decide (direction = "next"));
      [|destruct (bool_decide (direction = "prev")); [|congruence]].
    all: match goal with |- context [load_image ?s ?p] =>
           pose proof (load_image_failed s p) as Hf;
           destruct (load_image s p) as [s1 [d|e']]; [discriminate|];
           intros [= <- <-]; by apply (Hf e') end.
  - destruct (navigate_step_ok _ _ _ _ _ _ _ Hnav)
      as (-> & Hpos & Hidx & -> & ->).
    assert (0 ≤ idx < Z.of_nat (length (uploaded_images self))) as Hrange.
    { destruct Hidx as [[_ ->]|[_ ->]]; by apply Z.mod_pos_bound. }
    split_and!; try done; try lia.
    destruct (lookup_lt_is_Some_2 (uploaded_images self) (Z.to_nat idx))
      as [info Hinfo]; [lia|].
    exists info. simpl.
    rewrite (nth_lookup_Some _ _ _ _ Hinfo). done.
Qed.

(** X14.  Going to the next image and back returns to the image the
    session was on: when the stored index is in range and both steps
    succeed, [next] followed by [prev] (and [prev] followed by [next])
    leaves the index where it was, with the image at that index loaded. *)
Theorem navigate_round_trip {C : Codec} self d1 d2 s1 r1 s2 r2 :
  (d1 = "next" ∧ d2 = "prev") ∨ (d1 = "prev" ∧ d2 = "next") →
  0 ≤ current_image_index self < Z.of_nat (length (uploaded_images self)) →
  navigate_image self d1 = (s1, inr r1) →
  navigate_image s1 d2 = (s2, inr r2) →
  current_image_index s2 = current_image_index self ∧
  current_image_path s2
    = Some (info_path (nth (Z.to_nat (current_image_index self))
                           (uploaded_images self) dummy_info)).
Proof.
  intros Hd Hrange H1 H2.
  destruct r1 as [[[data1 idx1] total1] name1].
  destruct r2 as [[[data2 idx2] total2] name2].
  destruct (navigate_step_ok _ _ _ _ _ _ _ H1) as (-> & Hpos & Hi1 & -> & _).
  destruct (navigate_step_ok _ _ _ _ _ _ _ H2) as (Ht2 & _ & Hi2 & -> & _).
  simpl in *. subst total2.
  set (n := Z.of_nat (length (uploaded_images self))) in *.
  assert (idx2 = current_image_index self) as ->.
  { destruct Hd as [[-> ->]|[-> ->]].
    - destruct Hi1 as [[_ ->]|[? _]]; [|done].
      destruct Hi2 as [[? _]|[_ ->]]; [done|].
      rewrite Zminus_mod_idemp_l.
      replace (current_image_index self + 1 - 1) with (current_image_index self) by lia.
      by apply Z.mod_small.
    - destruct Hi1 as [[? _]|[_ ->]]; [done|].
      destruct Hi2 as [[_ ->]|[? _]]; [|done].
      rewrite Zplus_mod_idemp_l.
      replace (current_image_index self - 1 + 1) with (current_image_index self) by lia.
      by apply Z.mod_small. }
  done.
Qed.

Lemma navigate_round_trip_witness :
  ∃ s1 r1 s2 r2,
    navigate_image (C := example_codec) example_splitter "next" = (s1, inr r1) ∧
    navigate_image (C := example_codec) s1 "prev" = (s2, inr r2) ∧
    current_image_index s1 = 1 ∧
    current_image_index s2 = 0 ∧
    current_image_path s2 = Some "a.png".
Proof.
  destruct (navigate_image (C := example_codec) example_splitter "next")
    as [s1 [e|r1]] eqn:H1; [vm_compute in H1; discriminate|].
  destruct (navigate_image (C := example_codec) s1 "prev")
    as [s2 [e|r2]] eqn:H2;
    [vm_compute in H1; injection H1 as <- <-; vm_compute in H2; discriminate|].
  exists s1, r1, s2, r2. split; [reflexivity|]. split; [exact H2|].
  split; [vm_compute in H1; by injection H1 as <- <-|].
  apply (navigate_round_trip (C := example_codec) example_splitter
           "next" "prev" s1 r1 s2 r2); [by left|simpl; lia|exact H1|exact H2].
Defined.

(** X15.  After [clear_session] every operation is refused whatever its
    inputs: both split operations answer that no image is loaded, the batch
    answers that there is no image to process, and navigation that nothing
    is uploaded.  The SKU is the one field that survives the clearing. *)
Theorem cleared_session_refuses {C : Codec} self cuts skips excl sizes start g direction :
  split_by_positions (clear_session self) cuts skips excl sizes
    = Error msg_no_image_or_cuts ∧
  split_with_global_numbering (clear_session self) cuts skips excl sizes start
    = Error msg_no_image_or_cuts ∧
  batch_process (clear_session self) cuts skips excl sizes g = inl msg_no_images ∧
  navigate_image (clear_session self) direction
    = (clear_session self, inl msg_no_uploads) ∧
  current_sku (clear_session self) = current_sku self.
Proof. by split_and!. Qed.

(** ** Reports *)

Section HistogramFacts.
Context `{Countable K}.

Lemma count_up_lookup (k k' : K) (d : gmap K Z) :
  default 0 (count_up k d !! k')
  = default 0 (d !! k') + (if decide (k = k') then 1 else 0).
Proof.
  unfold count_up. destruct (decide (k = k')) as [->|Hne].
  - by rewrite lookup_insert_eq.
  - rewrite lookup_insert_ne by done. lia.
Qed.

(** A fold that adds [w k v] per entry grows by [w k 1] at a count-up,
    when [w] is additive in the count. *)
Lemma fold_count_up (w : K → Z → Z) (k : K) (d : gmap K Z) :
  (∀ k v v', w k (v + v') = w k v + w k v') →
  map_fold (λ k v acc, w k v + acc) 0 (count_up k d)
  = map_fold (λ k v acc, w k v + acc) 0 d + w k 1.
Proof.
  intros Hadd. unfold count_up.
  assert (∀ (m : gmap K Z) j1 j2 z1 z2 y,
            j1 ≠ j2 → m !! j1 = Some z1 → m !! j2 = Some z2 →
            w j1 z1 + (w j2 z2 + y) = w j2 z2 + (w j1 z1 + y)) as Hcomm
    by (intros; lia).
  destruct (d !! k) as [v|] eqn:Hk; simpl.
  - rewrite (map_fold_delete_L _ _ k v d); [|by apply Hcomm|done].
    rewrite <- (insert_delete_eq d k).
    rewrite map_fold_insert_L; [|by apply Hcomm|by rewrite lookup_delete_eq].
    rewrite Hadd. lia.
  - rewrite map_fold_insert_L; [|by apply Hcomm|done].
    replace (0 + 1) with 1 by lia. lia.
Qed.

Lemma histogram_total_count_up (k : K) (d : gmap K Z) :
  histogram_total (count_up k d) = histogram_total d + 1.
Proof. apply (fold_count_up (λ _ v, v)). intros; lia. Qed.

Lemma histogram_lookup {A} (key : A → K) (l : list A) : ∀ (d : gmap K Z) k,
  default 0 (foldl (λ d r, count_up (key r) d) d l !! k)
  = default 0 (d !! k) + Z.of_nat (length (filter (λ r, key r = k) l)).
Proof.
  induction l as [|r l IH]; intros d k; simpl; [lia|].
  rewrite IH, count_up_lookup. destruct (decide (key r = k)).
  - rewrite filter_cons_True by done. simpl. lia.
  - rewrite filter_cons_False by done. lia.
Qed.

Lemma histogram_total_foldl {A} (key : A → K) (l : list A) : ∀ (d : gmap K Z),
  histogram_total (foldl (λ d r, count_up (key r) d) d l)
  = histogram_total d + Z.of_nat (length l).
Proof.
  induction l as [|r l IH]; intros d; simpl; [lia|].
  rewrite IH, histogram_total_count_up. lia.
Qed.
End HistogramFacts.

Lemma weighted_total_count_up (k : Z) (d : gmap Z Z) :
  weighted_total (count_up k d) = weighted_total d + k.
Proof.
  unfold weighted_total. rewrite (fold_count_up (λ k v, k * v)); [lia|].
  intros; lia.
Qed.

(** The statistics loop of [generate_detailed_report]. *)
Lemma stats_loop_spec (l : list FileResult.t) : ∀ (d : gmap Z Z) t,
  let st := foldl (λ st r,
                     let splits := default 0 (FileResult.splits_created r) in
                     (count_up splits st.1, st.2 + splits)) (d, t) l in
  st.1 = foldl (λ d r, count_up (default 0 (FileResult.splits_created r)) d) d l ∧
  st.2 = t + sum (map (λ r, default 0 (FileResult.splits_created r)) l) ∧
  weighted_total st.1 = weighted_total d
                        + sum (map (λ r, default 0 (FileResult.splits_created r)) l).
Proof.
  induction l as [|r l IH]; intros d t; simpl.
  - unfold sum. simpl. split_and!; [done|lia|lia].
  - destruct (IH (count_up (default 0 (FileResult.splits_created r)) d)
                 (t + default 0 (FileResult.splits_created r))) as (H1 & H2 & H3).
    simpl in H1, H2, H3. rewrite H1, H2. rewrite H1 in H3. rewrite H3.
    rewrite weighted_total_count_up. unfold sum. simpl. split_and!; [done|lia|lia].
Qed.

(** X16.  The histograms of [generate_detailed_report] count what they are
    named for: the entry of [error_analysis] for a message is the number of
    failed results with that message (a failed result without a message
    counts under "Unknown"), and the entry of [split_statistics] for a
    number is the number of successful results that created that many
    splits; a key that is absent stands for 0. *)
Theorem report_histograms_count results e n :
  let report := generate_detailed_report results in
  default 0 (BatchReport.error_analysis report !! e)
  = Z.of_nat (length (filter (λ r, default "Unknown" (FileResult.error r) = e)
                        (filter (λ r, FileResult.success r ≠ true) results))) ∧
  default 0 (BatchReport.split_statistics report !! n)
  = Z.of_nat (length (filter (λ r, default 0 (FileResult.splits_created r) = n)
                        (filter (λ r, FileResult.success r = true) results))).
Proof.
  unfold generate_detailed_report. simpl. split.
  - rewrite (histogram_lookup (λ r, default "Unknown" (FileResult.error r))).
    by rewrite lookup_empty.
  - destruct (stats_loop_spec (filter (λ r, FileResult.success r = true) results) ∅ 0)
      as (Hs1 & _).
    simpl in Hs1. rewrite Hs1.
    rewrite (histogram_lookup (λ r, default 0 (FileResult.splits_created r))).
    by rewrite lookup_empty.
Qed.

(** X17.  The totals of [generate_detailed_report] are consistent: the
    successful and failed results add up to [total_processed], the counts
    in [error_analysis] add up to [failed], the counts in
    [split_statistics] add up to [successful], and the sum of key times
    count over [split_statistics] is [total_splits_created]. *)
Theorem report_totals_consistent results :
  let report := generate_detailed_report results in
  BatchReport.successful report + BatchReport.failed report
    = BatchReport.total_processed report ∧
  histogram_total (BatchReport.error_analysis report) = BatchReport.failed report ∧
  histogram_total (BatchReport.split_statistics report)
    = BatchReport.successful report ∧
  weighted_total (BatchReport.split_statistics report)
    = BatchReport.total_splits_created report ∧
  BatchReport.processing_details report = results.
Proof.
  unfold generate_detailed_report. simpl.
  destruct (stats_loop_spec (filter (λ r, FileResult.success r = true) results) ∅ 0)
    as (Hs1 & Hs2 & Hs3).
  simpl in Hs1, Hs2, Hs3. split_and!.
  - pose proof (filter_complement_length (λ r, FileResult.success r = true) results).
    lia.
  - rewrite (histogram_total_foldl (λ r, default "Unknown" (FileResult.error r))).
    unfold histogram_total. by rewrite map_fold_empty.
  - rewrite Hs1.
    rewrite (histogram_total_foldl (λ r, default 0 (FileResult.splits_created r))).
    unfold histogram_total. by rewrite map_fold_empty.
  - rewrite Hs3, Hs2. unfold weighted_total. by rewrite map_fold_empty.
  - done.
Qed.

Section ResultFacts.
Context {C : Codec}.
Variable stem : string → string.
Variable now : Z.
Variable config : Config.

(** A result of [split_image] is either a success that counts its detail
    records, or a failure with a message, no count and no record. *)
Lemma split_image_wf path fmt out r :
  split_image stem config path fmt out = Ok r →
  (FileResult.success r = true ∧ FileResult.error r = None ∧
   FileResult.splits_created r = Some (Z.of_nat (length (FileResult.details r)))) ∨
  (FileResult.success r = false ∧ (∃ e, FileResult.error r = Some e) ∧
   FileResult.splits_created r = None ∧ FileResult.details r = []).
Proof.
  unfold split_image.
  destruct (output_formats config !! fmt) as [dims|]; [|discriminate].
  destruct (mkdir _) as [[]|]; [simpl|discriminate].
  destruct (split_image_try _ _ _ _ _ _ _) as [r'|e] eqn:Htry.
  - intros [= <-]. left. unfold split_image_try in Htry.
    bind_inv Htry. destruct (Image_size a). do 2 bind_inv Htry.
    by injection Htry as <-.
  - intros [= <-]. right. simpl. eauto.
Qed.

Lemma process_single_image_wf path fmt out :
  let r := process_single_image stem now config path fmt out in
  FileResult.source_file r = Some path ∧
  ((FileResult.success r = true ∧ FileResult.error r = None ∧
    FileResult.splits_created r = Some (Z.of_nat (length (FileResult.details r)))) ∨
   (FileResult.success r = false ∧ (∃ e, FileResult.error r = Some e) ∧
    FileResult.splits_created r = None ∧ FileResult.details r = [])).
Proof.
  unfold process_single_image.
  destruct (split_image stem config path fmt out) as [r|e] eqn:Hs; simpl.
  - split; [done|]. apply (split_image_wf _ _ _ _ Hs).
  - split; [done|]. right. eauto.
Qed.
End ResultFacts.

Lemma wf_results_sums (results : list FileResult.t) :
  Forall (λ r,
            (FileResult.success r = true ∧
             FileResult.splits_created r = Some (Z.of_nat (length (FileResult.details r)))) ∨
            (FileResult.success r = false ∧
             FileResult.splits_created r = None ∧ FileResult.details r = []))
         results →
  sum (map (λ r, default 0 (FileResult.splits_created r))
           (filter (λ r, FileResult.success r = true) results))
    = Z.of_nat (length (concat (map FileResult.details results))) ∧
  sum (map (λ r, default 0 (FileResult.splits_created r)) results)
    = Z.of_nat (length (concat (map FileResult.details results))).
Proof.
  unfold sum. induction 1 as [|r l Hr _ [IH1 IH2]]; [done|]. simpl.
  rewrite length_app, IH2.
  destruct Hr as [(Hs & Hc)|(Hs & Hc & Hd)].
  - rewrite filter_cons_True by done. simpl. rewrite IH1, Hc. simpl. lia.
  - rewrite filter_cons_False by (by rewrite Hs). rewrite IH1, Hc, Hd. simpl. lia.
Qed.

(** X18.  Over the results that [process_single_image] returns for any
    list of files, [total_splits_created] of the detailed report is the
    number of segment records in [processing_details], and the report of
    [ImageSplitter.generate_report] gives the same totals: a failed result
    carries no [splits_created] and no segment record. *)
Theorem reports_count_segments {C : Codec} stem now config fmt out paths :
  let results := map (λ p, process_single_image stem now config p fmt out) paths in
  let detailed := generate_detailed_report results in
  let short := generate_report results in
  BatchReport.total_splits_created detailed
    = Z.of_nat (length (concat (map FileResult.details results))) ∧
  SplitReport.total_splits_created short = BatchReport.total_splits_created detailed ∧
  SplitReport.successful short = BatchReport.successful detailed ∧
  SplitReport.failed short = BatchReport.failed detailed ∧
  SplitReport.total_processed short = BatchReport.total_processed detailed.
Proof.
  intros results detailed short.
  assert (Forall (λ r,
            (FileResult.success r = true ∧
             FileResult.splits_created r = Some (Z.of_nat (length (FileResult.details r)))) ∨
            (FileResult.success r = false ∧
             FileResult.splits_created r = None ∧ FileResult.details r = []))
          results) as Hwf.
  { apply Forall_forall. intros r Hr. apply list_elem_of_In, in_map_iff in Hr
      as (p & <- & _).
    destruct (process_single_image_wf stem now config p fmt out)
      as (_ & [(? & _ & ?)|(? & _ & ? & ?)]); [by left|by right]. }
  destruct (wf_results_sums results Hwf) as [Hsum1 Hsum2].
  destruct (stats_loop_spec (filter (λ r, FileResult.success r = true) results) ∅ 0)
    as (_ & Hs2 & _).
  simpl in Hs2.
  assert (BatchReport.total_splits_created detailed
          = Z.of_nat (length (concat (map FileResult.details results)))) as Htot.
  { unfold detailed, generate_detailed_report. simpl. rewrite Hs2, Hsum1. lia. }
  split_and!; try done.
  rewrite Htot. unfold short, generate_report. simpl. by rewrite Hsum2.
Qed.

(** ** Edge cases of split_image *)

Section GridEdgeFacts.
Context {C : Codec}.
Variable stem : string → string.
Variable config : Config.

Lemma split_image_opened path fmt out dims img W H :
  output_formats config !! fmt = Some dims →
  is_ok (mkdir (path_join out fmt)) = true →
  Image_open path = Ok img →
  Image_size img = (W, H) →
  split_image stem config path fmt out
  = Ok (match
          (splits ← (if bool_decide (height dims = 0)
                     then Raise "integer division or modulo by zero"
                     else Ok (H `div` height dims));
           split_info ← grid_loop config img W H (width dims) (height dims)
                          (default 0 (overlap_pixels config)) (stem path) fmt
                          (path_join out fmt) (range splits) [];
           Ok {| FileResult.success := true;
                 FileResult.error := None;
                 FileResult.splits_created := Some (Z.of_nat (length split_info));
                 FileResult.output_directory := Some (path_join out fmt);
                 FileResult.details := split_info;
                 FileResult.source_file := None;
                 FileResult.timestamp := None |})
        with
        | Ok r => r
        | Raise e => failure e None None
        end).
Proof.
  intros Hfmt Hmk Hopen Hsize. unfold split_image. rewrite Hfmt.
  apply is_ok_Ok in Hmk as [[] ->]. simpl.
  unfold split_image_try. rewrite Hopen. simpl. rewrite Hsize.
  by destruct (_ ≫= _).
Qed.

(** The first iteration of the loop fails at the first missing key. *)
Lemma grid_body_missing_key img W H Tw T v base fmt out i acc :
  never_fails C →
  grid_body config img W H Tw T v base fmt out i acc
  = match output_format config, quality config with
    | None, _ => Raise "'output_format'"
    | Some _, None => Raise "'quality'"
    | Some _, Some _ =>
        Ok (acc ++ [grid_entry W H Tw T v base fmt i])
    end.
Proof.
  intros Hnf. destruct (output_format config) as [f|] eqn:Hf;
    [destruct (quality config) as [q|] eqn:Hq|].
  - by apply (grid_body_ok config img W H Tw T v base fmt out i acc f q).
  - destruct Hnf as (Hcrop & Hconv & Hres & _). unfold grid_body.
    destruct (is_ok_Ok _ (Hcrop img (grid_box W H T v i))) as [c ->]. simpl.
    assert (∃ c', (if bool_decide (mode c = "P") || bool_decide (mode c = "RGBA")
                   then convert c "RGB" else Ok c) = Ok c') as [c' ->].
    { destruct (_ || _); [apply is_ok_Ok, Hconv | eauto]. }
    simpl.
    assert (∃ c'', (if bool_decide (Image_size c' = (Tw, T))
                    then Ok c' else resize c' (Tw, T)) = Ok c'') as [c'' ->].
    { destruct (bool_decide _); [eauto | apply is_ok_Ok, Hres]. }
    simpl. by rewrite Hf, Hq.
  - destruct Hnf as (Hcrop & Hconv & Hres & _). unfold grid_body.
    destruct (is_ok_Ok _ (Hcrop img (grid_box W H T v i))) as [c ->]. simpl.
    assert (∃ c', (if bool_decide (mode c = "P") || bool_decide (mode c = "RGBA")
                   then convert c "RGB" else Ok c) = Ok c') as [c' ->].
    { destruct (_ || _); [apply is_ok_Ok, Hconv | eauto]. }
    simpl.
    assert (∃ c'', (if bool_decide (Image_size c' = (Tw, T))
                    then Ok c' else resize c' (Tw, T)) = Ok c'') as [c'' ->].
    { destruct (bool_decide _); [eauto | apply is_ok_Ok, Hres]. }
    simpl. by rewrite Hf.
Qed.
End GridEdgeFacts.

(** X19.  Edge cases of [split_image] for a configured format and an image
    that opens: a target height of 0 is a failure value with the division
    message, not an exception; and an image lower than the target height
    ([H div T <= 0]) is a success with no split at all, for which neither
    the codec nor the keys [output_format] and [quality] are needed. *)
Theorem split_image_edge_cases {C : Codec} stem config path fmt out dims img W H :
  output_formats config !! fmt = Some dims →
  is_ok (mkdir (path_join out fmt)) = true →
  Image_open path = Ok img →
  Image_size img = (W, H) →
  (height dims = 0 →
   split_image stem config path fmt out
   = Ok (failure "integer division or modulo by zero" None None)) ∧
  (height dims ≠ 0 → H `div` height dims ≤ 0 →
   ∃ r, split_image stem config path fmt out = Ok r ∧
        FileResult.success r = true ∧
        FileResult.splits_created r = Some 0 ∧
        FileResult.details r = []).
Proof.
  intros Hfmt Hmk Hopen Hsize.
  rewrite (split_image_opened stem config path fmt out dims img W H) by done.
  split.
  - intros ->. by rewrite bool_decide_eq_true_2.
  - intros HT Hdiv. rewrite bool_decide_eq_false_2 by done. simpl.
    unfold range. replace (Z.to_nat (H `div` height dims)) with 0%nat by lia.
    simpl. eexists. split; [reflexivity|]. done.
Qed.

Lemma split_image_edge_cases_witness :
  ∃ r, split_image (C := example_codec) (λ p, p)
         {| output_formats := <["tall" := {| width := 800; height := 4000 |}]> ∅;
            overlap_pixels := None; quality := None; output_format := None |}
         "a.png" "tall" "output" = Ok r ∧
       FileResult.success r = true ∧
       FileResult.splits_created r = Some 0 ∧
       FileResult.details r = [].
Proof.
  apply (split_image_edge_cases (C := example_codec) (λ p, p)
           {| output_formats := <["tall" := {| width := 800; height := 4000 |}]> ∅;
              overlap_pixels := None; quality := None; output_format := None |}
           "a.png" "tall" "output" {| width := 800; height := 4000 |}
           (800, 3000) 800 3000);
    [reflexivity|reflexivity|reflexivity|reflexivity|simpl; lia
    |vm_compute; discriminate].
Defined.

(** X20.  A configuration file without the key [quality] (or
    [output_format]) is not completed with defaults: with a codec that does
    not fail, every image that is at least one target height high comes
    back as a failure whose message is the name of the missing key, while
    [overlap_pixels] alone may be absent (it defaults to 0). *)
Theorem missing_config_key_fails {C : Codec} stem config path fmt out dims img W H :
  never_fails C →
  output_formats config !! fmt = Some dims →
  Image_open path = Ok img →
  Image_size img = (W, H) →
  height dims ≠ 0 →
  1 ≤ H `div` height dims →
  (output_format config = None →
   split_image stem config path fmt out = Ok (failure "'output_format'" None None)) ∧
  (is_Some (output_format config) → quality config = None →
   split_image stem config path fmt out = Ok (failure "'quality'" None None)) ∧
  (is_Some (output_format config) → is_Some (quality config) →
   ∃ r, split_image stem config path fmt out = Ok r ∧ FileResult.success r = true).
Proof.
  intros Hnf Hfmt Hopen Hsize HT Hdiv.
  pose proof Hnf as (_ & _ & _ & _ & Hmk).
  rewrite (split_image_opened stem config path fmt out dims img W H) by done.
  rewrite bool_decide_eq_false_2 by done. simpl.
  assert (∃ n, range (H `div` height dims) = 0%nat :: seq 1 n) as [n ->].
  { unfold range. destruct (Z.to_nat (H `div` height dims)) as [|n] eqn:Hn; [lia|].
    by exists n. }
  split_and!.
  - intros Hf. simpl. rewrite grid_body_missing_key by done. by rewrite Hf.
  - intros [f Hf] Hq. simpl. rewrite grid_body_missing_key by done.
    by rewrite Hf, Hq.
  - intros [f Hf] [q Hq].
    rewrite (grid_loop_ok config img W H (width dims) (height dims) _ _ _ _ _ f q)
      by done.
    simpl. eexists. split; [reflexivity|done].
Qed.

Lemma missing_config_key_fails_witness :
  split_image (C := example_codec) (λ p, p)
    {| output_formats := output_formats default_config;
       overlap_pixels := None; quality := None; output_format := Some "JPEG" |}
    "a.png" "custom" "output" = Ok (failure "'quality'" None None).
Proof.
  apply (missing_config_key_fails (C := example_codec) (λ p, p)
           {| output_formats := output_formats default_config;
              overlap_pixels := None; quality := None; output_format := Some "JPEG" |}
           "a.png" "custom" "output" {| width := 800; height := 600 |}
           (800, 3000) 800 3000);
    [apply table_codec_never_fails|reflexivity..|simpl; lia|by vm_compute
    |by eexists|reflexivity].
Defined.



(** ** Configuration, analysis and the batch of image_splitter.py *)

(** X22.  [load_config] never merges defaults into a file that exists: an
    existing configuration is returned as stored and the file system is
    untouched; a missing file is created with the default configuration
    and no other file changes; and loading again returns the same
    configuration without a further write. *)
Theorem load_config_round_trip fs config_file :
  let out := load_config fs config_file in
  load_config out.1 config_file = out ∧
  (∀ config, fs !! config_file = Some config → out = (fs, config)) ∧
  (fs !! config_file = None →
   out.2 = default_config ∧
   out.1 !! config_file = Some default_config ∧
   ∀ other, other ≠ config_file → out.1 !! other = fs !! other).
Proof.
  unfold load_config. destruct (fs !! config_file) as [config|] eqn:Hc; simpl.
  - rewrite Hc. split; [reflexivity|]. split.
    + by intros ? [= ->].
    + discriminate.
  - rewrite lookup_insert_eq. split; [reflexivity|]. split; [discriminate|].
    intros _. split; [reflexivity|]. split; [reflexivity|].
    intros other Hne. by rewrite lookup_insert_ne.
Qed.

Section ImageBatchFacts.
Context {C : Codec}.
Variable stem : string → string.
Variable config : Config.
Variable getsize : string → result Z.
Variable iterdir : string → option (list string).
Variable suffix_lower : string → string.

Local Abbreviation is_image := (λ f, suffix_lower f ∈ image_extensions).
Local Abbreviation batch_loop' :=
  (image_batch_loop stem config getsize suffix_lower).

Lemma image_batch_loop_unsupported fmt files : ∀ acc,
  output_formats config !! fmt = None →
  batch_loop' fmt files acc
  = if bool_decide (filter is_image files = []) then Ok acc
    else Raise (msg_unsupported fmt).
Proof.
  induction files as [|f files IH]; intros acc Hfmt; simpl; [done|].
  destruct (bool_decide (is_image f)) eqn:Hf.
  - apply bool_decide_eq_true in Hf. rewrite filter_cons_True by done.
    rewrite (bool_decide_eq_false_2 (_ :: _ = [])) by done.
    rewrite (bool_decide_eq_true_2 _ Hf).
    unfold split_image. by rewrite Hfmt.
  - apply bool_decide_eq_false in Hf. rewrite filter_cons_False by done.
    rewrite (bool_decide_eq_false_2 _ Hf). by apply IH.
Qed.

Lemma image_batch_loop_supported fmt dims files : ∀ acc,
  output_formats config !! fmt = Some dims →
  is_ok (mkdir (path_join "output" fmt)) = true →
  ∃ new,
    batch_loop' fmt files acc = Ok (acc ++ new) ∧
    map (λ e, FileResult.source_file e.1) new
      = map Some (filter is_image files).
Proof.
  induction files as [|f files IH]; intros acc Hfmt Hmk; simpl.
  - exists []. by rewrite app_nil_r.
  - destruct (bool_decide (is_image f)) eqn:Hf.
    + apply bool_decide_eq_true in Hf. rewrite filter_cons_True by done.
      rewrite (bool_decide_eq_true_2 _ Hf).
      assert (∃ r, split_image stem config f fmt "output" = Ok r) as [r Hr].
      { unfold split_image. rewrite Hfmt.
        destruct (is_ok_Ok _ Hmk) as [[] ->]. simpl.
        destruct (split_image_try _ _ _ _ _ _ _); eauto. }
      rewrite Hr. simpl.
      match goal with |- context [batch_loop' _ _ (acc ++ [?e])] =>
        destruct (IH (acc ++ [e]) Hfmt Hmk) as (new & -> & Hsrc);
        exists (e :: new) end.
      rewrite <- app_assoc. simpl. by rewrite Hsrc.
    + apply bool_decide_eq_false in Hf. rewrite filter_cons_False by done.
      rewrite (bool_decide_eq_false_2 _ Hf). by apply IH.
Qed.
End ImageBatchFacts.

(** X23.  [ImageSplitter.batch_process] has no [try] around [split_image]:
    with an output format that is not configured the whole batch raises as
    soon as the directory holds one image file (and returns the empty list
    when it holds none), while with a configured format it returns one
    result per image file of the directory, in directory order, each with
    its source path, failures included. *)
Theorem image_batch_process_results {C : Codec}
    stem config getsize iterdir suffix_lower input_dir fmt files :
  iterdir input_dir = Some files →
  let images := filter (λ f, suffix_lower f ∈ image_extensions) files in
  (output_formats config !! fmt = None → images ≠ [] →
   image_batch_process stem config getsize iterdir suffix_lower input_dir fmt
   = Raise (msg_unsupported fmt)) ∧
  (output_formats config !! fmt = None → images = [] →
   image_batch_process stem config getsize iterdir suffix_lower input_dir fmt
   = Ok []) ∧
  (is_Some (output_formats config !! fmt) →
   is_ok (mkdir (path_join "output" fmt)) = true →
   ∃ results,
     image_batch_process stem config getsize iterdir suffix_lower input_dir fmt
     = Ok results ∧
     map (λ e, FileResult.source_file e.1) results = map Some images).
Proof.
  intros Hdir images. unfold image_batch_process. rewrite Hdir. split_and!.
  - intros Hfmt Himg. rewrite image_batch_loop_unsupported by done.
    by rewrite bool_decide_eq_false_2.
  - intros Hfmt Himg. rewrite image_batch_loop_unsupported by done.
    by rewrite bool_decide_eq_true_2.
  - intros [dims Hfmt] Hmk.
    destruct (image_batch_loop_supported stem config getsize suffix_lower
                fmt dims files [] Hfmt Hmk) as (new & -> & Hsrc).
    by exists new.
Qed.

Lemma image_batch_process_results_witness :
  image_batch_process (C := example_codec) (λ p, p) default_config
    (λ _, Ok 1) (λ _, Some ["a.png"; "notes.txt"])
    (λ f, if bool_decide (f = "notes.txt") then ".txt" else ".png")
    "dir" "bogus" = Raise (msg_unsupported "bogus").
Proof.
  apply (image_batch_process_results (C := example_codec) (λ p, p) default_config
           (λ _, Ok 1) (λ _, Some ["a.png"; "notes.txt"])
           (λ f, if bool_decide (f = "notes.txt") then ".txt" else ".png")
           "dir" "bogus" ["a.png"; "notes.txt"]);
    [reflexivity|reflexivity|by vm_compute].
Defined.

(** ** Analysis and split of image_splitter.py *)

(** X24.  [analyze_image] and [split_image] on the same file.  With a
    codec that does not fail, a complete configuration whose target heights
    are above 0, and an image that opens with a width other than 0, the
    split creates [height // target_height] files whatever the shape of the
    image, while the analysis lists that number under [splits_possible]
    only when the image is higher than wide: for a square or landscape
    image the analysis has no entry for the format (the batch then prints 0)
    although the split still creates the files. *)
Theorem analysis_and_split {C : Codec}
    stem config getsize path fmt dims f q img W H sz :
  never_fails C →
  output_formats config !! fmt = Some dims →
  output_format config = Some f → quality config = Some q →
  Image_open path = Ok img → Image_size img = (W, H) →
  getsize path = Ok sz →
  W ≠ 0 → 0 ≤ H →
  map_Forall (λ _ d, 0 < height d) (output_formats config) →
  ∃ a r,
    analyze_image config getsize path = Some a ∧
    split_image stem config path fmt "output" = Ok r ∧
    FileResult.splits_created r = Some (H `div` height dims) ∧
    Analysis.splits_possible a !! fmt
      = if bool_decide (H > W) then Some (H `div` height dims) else None.
Proof.
  intros Hnf Hfmt Hf Hq Hopen Hsize Hsz HW HH Hpos.
  assert (0 < height dims) as HT by apply (Hpos _ _ Hfmt).
  destruct (split_image_grid stem config path fmt "output" dims f q img W H
              Hnf Hfmt Hf Hq Hopen Hsize ltac:(lia))
    as (r & Hr & _ & Hcreated & _).
  unfold analyze_image. rewrite Hopen. simpl. rewrite Hsize, Hsz. simpl.
  rewrite (bool_decide_eq_false_2 (W = 0)) by done. simpl.
  assert (Z.of_nat (length (range (H `div` height dims))) = H `div` height dims)
    as Hlen.
  { unfold range. rewrite length_seq, Z2Nat.id; [done|]. by apply Z.div_pos. }
  destruct (bool_decide (H > W)) eqn:Hv.
  - rewrite bool_decide_eq_true_2.
    + simpl. eexists _, r. split; [reflexivity|]. split; [done|].
      split; [by rewrite Hcreated, Hlen|]. simpl.
      by rewrite lookup_fmap, Hfmt.
    + eapply map_Forall_impl; [exact Hpos|]. simpl. intros; lia.
  - simpl. eexists _, r. split; [reflexivity|]. split; [done|].
    split; [by rewrite Hcreated, Hlen|]. simpl. apply lookup_empty.
Qed.

Lemma analysis_and_split_witness :
  ∃ a r,
    analyze_image (C := table_codec [("wide.png", (2000, 2000))])
      default_config (λ _, Ok 1) "wide.png" = Some a ∧
    split_image (C := table_codec [("wide.png", (2000, 2000))])
      (λ p, p) default_config "wide.png" "instagram_square" "output" = Ok r ∧
    FileResult.splits_created r = Some 1 ∧
    Analysis.splits_possible a !! "instagram_square" = None.
Proof.
  apply (analysis_and_split (C := table_codec [("wide.png", (2000, 2000))])
           (λ p, p) default_config (λ _, Ok 1) "wide.png" "instagram_square"
           {| width := 1080; height := 1080 |} "JPEG" 95 (2000, 2000) 2000 2000 1);
    [apply table_codec_never_fails | reflexivity.. | lia | lia |].
  repeat (apply map_Forall_insert_2; [simpl; lia|]). apply map_Forall_empty.
Defined.

(** ** Runs of the batch processor *)


Section ResumeFacts.
Context {C : Codec}.
Variable stem : string → string.
Variable now : Z.
Variable config : Config.
Variables fmt out : string.

(** Without a resume file the loop only appends results. *)
Lemma completed_loop_plain resume_file files : ∀ st,
  truthy resume_file = false →
  foldl (λ st f, completed_body stem now config fmt out resume_file f st) st files
  = {| results := results st
         ++ map (λ f, process_single_image stem now config f fmt out) files;
       completed := completed st + Z.of_nat (length files);
       processed := processed st;
       resume_files := resume_files st |}.
Proof.
  induction files as [|f files IH]; intros st Hrf.
  - destruct st. simpl. f_equal; [by rewrite app_nil_r | lia].
  - simpl. rewrite IH by done. unfold completed_body. rewrite Hrf. simpl.
    f_equal; [by rewrite <- app_assoc | lia].
Qed.

Variable rf : string.
Hypothesis rf_nonempty : rf ≠ "".

Local Abbreviation body := (completed_body stem now config fmt out (Some rf)).

End ResumeFacts.

(** X25.  A run of [process_directory_parallel] without a resume file
    (none given, or the empty string): every image file under the input
    directory is submitted, no resume file is written or changed, and the
    results of the run are appended, in completion order, to the results
    the processor already held. *)
Theorem run_without_resume_file {C : Codec}
    stem now config rglob suffix_lower as_completed fmt out resume_file
    results0 fs dir run1 :
  truthy resume_file = false →
  process_directory_parallel stem now config rglob suffix_lower as_completed
    results0 fs dir fmt out resume_file = Ok run1 →
  ∃ entries,
    rglob dir = Some entries ∧
    run_submitted run1
      = filter (λ f, suffix_lower f ∈ image_extensions) entries ∧
    run_resume_files run1 = fs ∧
    run_results run1
      = results0 ++
        (if bool_decide (run_submitted run1 = []) then []
         else map (λ f, process_single_image stem now config f fmt out)
                  (as_completed (run_submitted run1))).
Proof.
  intros Hrf. unfold process_directory_parallel.
  destruct (rglob dir) as [entries|]; [|discriminate].
  rewrite Hrf. simpl.
  set (images := filter (λ f, suffix_lower f ∈ image_extensions) entries).
  match goal with |- context [bool_decide (?l = [])] =>
    assert (l = images) as ->
      by (apply filter_all, Forall_forall; intros f _; apply not_elem_of_empty)
  end.
  destruct (bool_decide (images = [])) eqn:Himg.
  - apply bool_decide_eq_true in Himg. intros [= <-]. simpl. exists entries.
    split; [done|]. split; [done|]. split; [done|]. by rewrite app_nil_r.
  - intros [= <-]. simpl. exists entries. rewrite Himg.
    by rewrite completed_loop_plain.
Qed.

Lemma run_without_resume_file_witness :
  ∃ run1,
    process_directory_parallel (C := example_codec) (λ p, p) 0 default_config
      (λ _, Some ["a.png"; "notes.txt"])
      (λ f, if bool_decide (f = "notes.txt") then ".txt" else ".png")
      (λ l, l) [] ∅ "dir" "custom" "output" None = Ok run1 ∧
    run_submitted run1 = ["a.png"] ∧ run_resume_files run1 = ∅.
Proof.
  destruct (process_directory_parallel (C := example_codec) (λ p, p) 0
              default_config (λ _, Some ["a.png"; "notes.txt"])
              (λ f, if bool_decide (f = "notes.txt") then ".txt" else ".png")
              (λ l, l) [] ∅ "dir" "custom" "output" None) as [run1|] eqn:Hr;
    [|vm_compute in Hr; discriminate].
  exists run1. split; [reflexivity|].
  destruct (run_without_resume_file (C := example_codec) (λ p, p) 0
              default_config (λ _, Some ["a.png"; "notes.txt"])
              (λ f, if bool_decide (f = "notes.txt") then ".txt" else ".png")
              (λ l, l) "custom" "output" None [] ∅ "dir" run1 eq_refl Hr)
    as (entries & [= <-] & Hsub & Hfs & _).
  split; [exact Hsub | exact Hfs].
Defined.



(** ** File names and download URLs *)

Lemma occurs_app c a b : occurs c (a +:+ b) = occurs c a || occurs c b.
Proof. induction a as [|x a IH]; simpl; [done|]. by rewrite IH, orb_assoc. Qed.

Lemma pretty_N_char_digit d :
  (d < 10)%N →
  Ascii.is_nat (pretty_N_char d) = Some (N.to_nat d) ∧ pretty_N_char d ≠ slash.
Proof.
  intros Hd.
  assert (d = 0 ∨ d = 1 ∨ d = 2 ∨ d = 3 ∨ d = 4 ∨ d = 5 ∨ d = 6 ∨ d = 7
          ∨ d = 8 ∨ d = 9)%N as Hcases by lia.
  repeat (destruct Hcases as [->|Hcases]; [by split|]). by subst.
Qed.

Lemma pretty_N_go_app x : ∀ s rest,
  pretty_N_go x s +:+ rest = pretty_N_go x (s +:+ rest).
Proof.
  induction (N.lt_wf_0 x) as [x _ IH]; intros s rest.
  assert (x = 0 ∨ 0 < x)%N as [->|Hx] by lia; [by rewrite !pretty_N_go_0|].
  rewrite (pretty_N_go_step x s), (pretty_N_go_step x (s +:+ rest)) by done.
  rewrite IH by (by apply N.div_lt). done.
Qed.

Lemma read_number_pretty_N_go x : ∀ s,
  read_number 0 (pretty_N_go x s) = read_number x s.
Proof.
  induction (N.lt_wf_0 x) as [x _ IH]; intros s.
  assert (x = 0 ∨ 0 < x)%N as [->|Hx] by lia; [by rewrite pretty_N_go_0|].
  rewrite pretty_N_go_step, IH by (done || by apply N.div_lt). simpl.
  destruct (pretty_N_char_digit (x `mod` 10)%N) as [-> _];
    [by apply N.mod_lt|].
  f_equal. rewrite N2Nat.id. rewrite (N.div_mod x 10) at 3 by done. lia.
Qed.

Lemma occurs_pretty_N_go x : ∀ s,
  occurs slash (pretty_N_go x s) = occurs slash s.
Proof.
  induction (N.lt_wf_0 x) as [x _ IH]; intros s.
  assert (x = 0 ∨ 0 < x)%N as [->|Hx] by lia; [by rewrite pretty_N_go_0|].
  rewrite pretty_N_go_step, IH by (done || by apply N.div_lt). simpl.
  destruct (pretty_N_char_digit (x `mod` 10)%N) as [_ Hne];
    [by apply N.mod_lt|].
  by rewrite bool_decide_eq_false_2.
Qed.

Lemma pretty_N_app (x : N) rest :
  pretty x +:+ rest = if decide (x = 0)%N then "0" +:+ rest
                      else pretty_N_go x rest.
Proof.
  unfold pretty, pretty_N. destruct (decide (x = 0)%N); [done|].
  by rewrite pretty_N_go_app.
Qed.

Lemma read_number_stop acc rest :
  no_digit_ahead rest → read_number acc rest = (acc, rest).
Proof. destruct rest as [|c rest]; simpl; [done|]. by intros ->. Qed.

Lemma read_number_pretty (x : N) rest :
  no_digit_ahead rest → read_number 0 (pretty x +:+ rest) = (x, rest).
Proof.
  intros Hrest. rewrite pretty_N_app. destruct (decide (x = 0)%N) as [->|Hx].
  - simpl. by apply read_number_stop.
  - rewrite read_number_pretty_N_go. by apply read_number_stop.
Qed.

Lemma read_number_zeros k s : read_number 0 (zeros k +:+ s) = read_number 0 s.
Proof. induction k as [|k IH]; simpl; [done|]. exact IH. Qed.

Lemma occurs_zeros k : occurs slash (zeros k) = false.
Proof. induction k as [|k IH]; simpl; [done|]. exact IH. Qed.

Lemma occurs_pretty (x : N) : occurs slash (pretty x) = false.
Proof.
  unfold pretty, pretty_N. destruct (decide (x = 0)%N); [done|].
  by rewrite occurs_pretty_N_go.
Qed.

Lemma occurs_fmt_03d n : occurs slash (fmt_03d n) = false.
Proof.
  unfold fmt_03d, zfill.
  destruct (n <? 0); by rewrite !occurs_app, occurs_zeros, occurs_pretty.
Qed.

Lemma string_app_assoc (a b c : string) : (a +:+ b) +:+ c = a +:+ (b +:+ c).
Proof.
  induction a as [|x a IH]; [done|].
  change (String x ((a +:+ b) +:+ c) = String x (a +:+ (b +:+ c))).
  by rewrite IH.
Qed.

Lemma read_number_fmt_03d n rest :
  0 ≤ n → no_digit_ahead rest →
  read_number 0 (fmt_03d n +:+ rest) = (Z.to_N n, rest).
Proof.
  intros Hn Hrest. unfold fmt_03d, zfill.
  destruct (n <? 0) eqn:Hneg; [lia|].
  rewrite string_app_assoc, read_number_zeros, read_number_pretty by done.
  f_equal. lia.
Qed.

Lemma artifact_name_inj sku_name n m b b' :
  0 ≤ n → 0 ≤ m →
  artifact_name sku_name n b = artifact_name sku_name m b' → n = m ∧ b = b'.
Proof.
  intros Hn Hm. unfold artifact_name, size_filename, output_filename.
  intros Heq.
  assert (∃ rest rest', no_digit_ahead rest ∧ no_digit_ahead rest' ∧
            fmt_03d n +:+ rest = fmt_03d m +:+ rest' ∧
            (rest = rest' → b = b')) as (rest & rest' & Hr & Hr' & Hfmt & Hb).
  { destruct b, b'; apply (inj (String.app sku_name)) in Heq;
      injection Heq as Heq; eexists _, _; (split; [|split; [|split; [exact Heq|]]]);
      done. }
  apply (f_equal (read_number 0)) in Hfmt.
  rewrite !read_number_fmt_03d in Hfmt by done.
  injection Hfmt as Hnm Hrest. split; [lia | by apply Hb].
Qed.

Lemma occurs_artifact_name sku_name n b :
  occurs slash (artifact_name sku_name n b) = occurs slash sku_name.
Proof.
  unfold artifact_name, size_filename, output_filename.
  destruct b; rewrite !occurs_app, occurs_fmt_03d; simpl; by rewrite orb_false_r.
Qed.

(** ** Splitting at a character *)

Lemma split_on_nonempty c s : split_on c s ≠ [].
Proof.
  destruct s as [|a s]; simpl; [done|].
  destruct (bool_decide (a = c)); [done|]. by destruct (split_on c s).
Qed.

Lemma split_on_whole c s : occurs c s = false → split_on c s = [s].
Proof.
  induction s as [|a s IH]; simpl; [done|].
  intros [Ha Hs]%orb_false_elim. rewrite Ha, IH by done. done.
Qed.

Lemma split_on_sep c a b :
  split_on c (a +:+ String c b) = split_on c a ++ split_on c b.
Proof.
  induction a as [|x a IH]; simpl.
  - by rewrite bool_decide_eq_true_2.
  - rewrite IH. destruct (bool_decide (x = c)); [done|].
    pose proof (split_on_nonempty c a). by destruct (split_on c a).
Qed.

Lemma split_on_parts c s p : p ∈ split_on c s → occurs c p = false.
Proof.
  revert p. induction s as [|a s IH]; simpl; intros p.
  - by intros ->%list_elem_of_singleton.
  - destruct (bool_decide (a = c)) eqn:Ha.
    + intros [->|Hp]%elem_of_cons; [done|by apply IH].
    + pose proof (split_on_nonempty c s).
      destruct (split_on c s) as [|q qs]; [done|].
      intros [->|Hp]%elem_of_cons.
      * simpl. rewrite Ha. apply IH. by left.
      * apply IH. by right.
Qed.

Lemma parse_download_url_parts url sku_name name :
  parse_download_url url = Some (sku_name, name) →
  occurs slash sku_name = false ∧ occurs slash name = false.
Proof.
  unfold parse_download_url. destruct (bool_decide _); [|done].
  intros [= <- <-].
  split; match goal with |- occurs _ (nth ?n ?l _) = _ =>
    destruct (nth_in_or_default n l "") as [Hin| ->];
      [eapply split_on_parts, list_elem_of_In, Hin | done] end.
Qed.

Lemma parse_download_url_spec sku_name name :
  occurs slash name = false →
  (occurs slash sku_name = false →
   parse_download_url ("/download/" +:+ sku_name +:+ "/" +:+ name)
   = Some (sku_name, name)) ∧
  (occurs slash sku_name = true →
   ∀ name', parse_download_url ("/download/" +:+ sku_name +:+ "/" +:+ name)
            ≠ Some (sku_name, name')).
Proof.
  intros Hname. split.
  - intros Hsku. unfold parse_download_url.
    change ("/download/" +:+ sku_name +:+ "/" +:+ name)
      with ("" +:+ String slash ("download" +:+ String slash
              (sku_name +:+ String slash name))).
    rewrite !split_on_sep, (split_on_whole _ sku_name),
      (split_on_whole _ name) by done. done.
  - intros Hsku name' Hp. apply parse_download_url_parts in Hp as [Hp _].
    congruence.
Qed.

Section NameFacts.
Context {C : Codec}.
Variables (img : image) (img_width : Z) (sku_name sku_output_path : string).
Variables (sorted_positions : list Z) (skip_areas : list skip_area).
Variables (excluded_segments size_segments : list Z).

Local Abbreviation loop := (split_loop img img_width sku_name sku_output_path
                              sorted_positions skip_areas excluded_segments
                              size_segments).

(** Whatever the numbering, the outputs the loop appends are named after
    their number and suffix flag, carry numbers between the counter before
    and the counter after, and no two of them share number and flag. *)
Lemma split_loop_names g idxs : ∀ st st',
  loop g idxs st = Ok st' →
  ∃ new,
    split_info st' = split_info st ++ new ∧
    counter g st ≤ counter g st' ∧
    Forall (well_named sku_name) new ∧
    Forall (λ d, counter g st ≤ SegmentOutput.index d < counter g st') new ∧
    NoDup (map label new).
Proof.
  induction idxs as [|i idxs IH]; intros st st' Hloop; simpl in Hloop.
  - injection Hloop as <-. exists []. rewrite app_nil_r.
    split; [done|]. split; [lia|]. split; [constructor|].
    split; constructor.
  - bind_inv Hloop. rename a into st1.
    apply IH in Hloop as (new & Hinfo & Hle & Hnamed & Hrange & Hnd).
    unfold loop_body in E.
    destruct (inb _ excluded_segments).
    { injection E as <-. simpl in Hinfo. exists new.
      split; [done|]. split; [destruct g; simpl in *; lia|].
      split; [done|]. split; [|done].
      eapply Forall_impl; [exact Hrange|].
      intros d. destruct g; simpl; lia. }
    destruct (is_in_skip_area _ _ _).
    { injection E as <-. simpl in Hinfo. exists new.
      split; [done|]. split; [destruct g; simpl in *; lia|].
      split; [done|]. split; [|done].
      eapply Forall_impl; [exact Hrange|].
      intros d. destruct g; simpl; lia. }
    bind_inv E. injection E as <-. rename a into es.
    apply emit_segment_inv in E0 as (sz & sz' & ->).
    simpl in Hinfo. rewrite <- app_assoc in Hinfo.
    eexists. split; [exact Hinfo|].
    assert (counter g st + 1 ≤ counter g st') as Hstep
      by (destruct g; simpl in *; lia).
    split; [lia|].
    assert (∀ d, d ∈ new → counter g st + 1 ≤ SegmentOutput.index d) as Hnew.
    { intros d Hd. rewrite Forall_forall in Hrange.
      specialize (Hrange d Hd). destruct g; simpl in *; lia. }
    split_and!.
    + apply Forall_app. split; [|done].
      destruct (inb _ size_segments); repeat constructor.
    + apply Forall_app. split.
      * destruct (inb _ size_segments); repeat constructor;
          destruct g; simpl in *; lia.
      * eapply Forall_impl; [exact Hrange|].
        intros d. destruct g; simpl in *; lia.
    + rewrite map_app. apply NoDup_app. split_and!; [|  |done].
      * destruct (inb _ size_segments); simpl;
          [apply NoDup_cons; split;
             [by intros [=]%list_elem_of_singleton|] |];
          apply NoDup_singleton.
      * intros lb [e [-> He]]%list_elem_of_fmap [d [Hl Hd]]%list_elem_of_fmap.
        specialize (Hnew d Hd). injection Hl as Hl _.
        assert (SegmentOutput.index e = counter g st) as Hidx.
        { destruct (inb _ size_segments);
            repeat (apply elem_of_cons in He as [->|He]; [by destruct g|]);
            by apply elem_of_nil in He. }
        lia.
Qed.
End NameFacts.

Section LabelFacts.
Context {C : Codec}.
Variables (img : image) (img_width : Z) (sku_name sku_output_path : string).
Variables (sorted_positions : list Z) (skip_areas : list skip_area).
Variables (excluded_segments size_segments : list Z).

Local Abbreviation loop := (split_loop img img_width sku_name sku_output_path
                              sorted_positions skip_areas excluded_segments
                              size_segments).
Local Abbreviation labels :=
  (segment_labels sorted_positions skip_areas excluded_segments size_segments).

(** Without global numbering the numbers and flags of the outputs are
    those of the surviving iterations, in order. *)
Lemma split_loop_labels n : ∀ a st st',
  segment_index st = Z.of_nat a + 1 →
  loop false (seq a n) st = Ok st' →
  ∃ new,
    split_info st' = split_info st ++ new ∧
    map label new = flat_map labels (seq a n).
Proof.
  induction n as [|n IH]; intros a st st' Hidx Hloop.
  - injection Hloop as <-. exists []. by rewrite app_nil_r.
  - change (seq a (S n)) with (a :: seq (S a) n) in *. simpl in Hloop.
    bind_inv Hloop. rename a0 into st1.
    unfold loop_body in E. rewrite Hidx in E.
    change (flat_map labels (a :: seq (S a) n))
      with (labels a ++ flat_map labels (seq (S a) n)).
    unfold segment_labels at 1. unfold dropped.
    destruct (inb (Z.of_nat a + 1) excluded_segments) eqn:Hex.
    + injection E as <-.
      apply IH in Hloop as (new & Hinfo & Hlab); [|simpl; lia].
      exists new. by split.
    + destruct (is_in_skip_area _ _ _) eqn:Hskip.
      * injection E as <-.
        apply IH in Hloop as (new & Hinfo & Hlab); [|simpl; lia].
        exists new. by split.
      * bind_inv E. injection E as <-. rename a0 into es.
        apply emit_segment_inv in E0 as (sz & sz' & ->).
        apply IH in Hloop as (new & Hinfo & Hlab); [|simpl; lia].
        simpl in Hinfo. rewrite <- app_assoc in Hinfo.
        eexists. split; [exact Hinfo|].
        rewrite map_app, Hlab. simpl. by destruct (inb _ size_segments).
Qed.
End LabelFacts.

Section SplitNames.
Context {C : Codec}.

Lemma split_try_names g path sku_name dir cuts skips excl sizes start r :
  split_try g path sku_name dir cuts skips excl sizes start = Ok r →
  SplitResult.sku r = sku_name ∧
  SplitResult.output_directory r
    = path_join (path_join dir "manual_split") sku_name ∧
  Forall (well_named sku_name) (SplitResult.details r) ∧
  Forall (λ d, (if g then start else 1) ≤ SegmentOutput.index d)
         (SplitResult.details r) ∧
  NoDup (map label (SplitResult.details r)).
Proof.
  unfold split_try. intros Ht. bind_inv Ht.
  destruct (Image_size a) as [W H]. bind_inv Ht. bind_inv Ht.
  injection Ht as <-. simpl.
  apply split_loop_names in E1 as (new & Hinfo & _ & Hnamed & Hrange & Hnd).
  simpl in Hinfo. subst new. split_and!; try done.
  eapply Forall_impl; [exact Hrange|]. intros d. destruct g; simpl; lia.
Qed.

Lemma split_try_labels path sku_name dir cuts excl sizes r :
  split_try false path sku_name dir cuts [] excl sizes 1 = Ok r →
  map label (SplitResult.details r)
  = flat_map (segment_labels [] [] excl sizes) (seq 0 (length cuts + 1)).
Proof.
  unfold split_try. intros Ht. bind_inv Ht.
  destruct (Image_size a) as [W H]. bind_inv Ht. bind_inv Ht.
  injection Ht as <-. simpl.
  apply split_loop_labels in E1 as (new & Hinfo & Hlab); [|done].
  simpl in Hinfo. subst new. rewrite Hlab. unfold range_pairs.
  assert (length (boundaries cuts H) - 1 = length cuts + 1)%nat as ->
    by (rewrite boundaries_length; lia).
  apply flat_map_ext. intros i. by unfold segment_labels, dropped.
Qed.

Lemma load_image_sku self image_path :
  current_sku (load_image self image_path).1 = current_sku self.
Proof. unfold load_image. by destruct (Image_open image_path ≫= _). Qed.

(** Either split operation, when it succeeds, ran the shared [try] block
    with the session's SKU. *)
Lemma split_names self cuts skips excl sizes start r :
  split_by_positions self cuts skips excl sizes = Success r ∨
  split_with_global_numbering self cuts skips excl sizes start = Success r →
  ∃ sku_name,
    current_sku self = Some sku_name ∧
    SplitResult.sku r = sku_name ∧
    SplitResult.output_directory r
      = path_join (path_join "output" "manual_split") sku_name ∧
    Forall (well_named sku_name) (SplitResult.details r).
Proof.
  intros [Hs|Hs].
  - destruct (split_by_positions_try _ _ _ _ _ _ Hs)
      as (path & sku_name & _ & _ & Hsku & _ & _ & Htry).
    destruct (split_try_names _ _ _ _ _ _ _ _ _ _ Htry) as (? & ? & ? & _).
    by exists sku_name.
  - destruct (split_with_global_numbering_try _ _ _ _ _ _ _ Hs)
      as (path & sku_name & _ & _ & Hsku & _ & Htry).
    destruct (split_try_names _ _ _ _ _ _ _ _ _ _ Htry) as (? & ? & ? & _).
    by exists sku_name.
Qed.
End SplitNames.

(** X27.  The download URL of an output leads back to its file.  When the
    SKU has no ['/'], the parsing of [download_multiple] recovers the SKU
    and the file name from the [download_url] of every output of a
    successful split, and the path built from them is the path the output
    was saved under.  When the SKU has a ['/'], no output's URL is parsed
    back to its SKU and file name. *)
Theorem download_url_round_trip {C : Codec} self cuts skips excl sizes start r :
  split_by_positions self cuts skips excl sizes = Success r ∨
  split_with_global_numbering self cuts skips excl sizes start = Success r →
  ∀ d, d ∈ SplitResult.details r →
    (occurs slash (SplitResult.sku r) = false →
     parse_download_url (SegmentOutput.download_url d)
       = Some (SplitResult.sku r, SegmentOutput.filename d) ∧
     download_path (SplitResult.sku r) (SegmentOutput.filename d)
       = path_join (SplitResult.output_directory r) (SegmentOutput.filename d)) ∧
    (occurs slash (SplitResult.sku r) = true →
     parse_download_url (SegmentOutput.download_url d)
       ≠ Some (SplitResult.sku r, SegmentOutput.filename d)).
Proof.
  intros Hs d Hd.
  destruct (split_names _ _ _ _ _ _ _ Hs)
    as (sku_name & _ & -> & -> & Hnamed).
  rewrite Forall_forall in Hnamed. destruct (Hnamed d Hd) as (_ & Hname & ->).
  split.
  - intros Hsku. split; [|done].
    apply parse_download_url_spec; [|done].
    by rewrite Hname, occurs_artifact_name.
  - intros Hsku Hp. apply parse_download_url_parts in Hp as [Hp _]. congruence.
Qed.

Lemma download_url_round_trip_witness :
  ∃ r d, split_by_positions (C := example_codec) example_splitter
           [1000; 2000] [] [] [1] = Success r ∧
         d ∈ SplitResult.details r ∧
         parse_download_url (SegmentOutput.download_url d)
         = Some (SplitResult.sku r, SegmentOutput.filename d).
Proof.
  destruct (split_by_positions (C := example_codec) example_splitter
              [1000; 2000] [] [] [1]) as [e|r] eqn:Hr;
    [vm_compute in Hr; discriminate|].
  assert (occurs slash (SplitResult.sku r) = false ∧
          ∃ d, d ∈ SplitResult.details r) as (Hsku & d & Hd).
  { vm_compute in Hr. injection Hr as <-.
    split; [reflexivity|]. eexists. apply list_elem_of_here. }
  exists r, d. split; [reflexivity|]. split; [exact Hd|].
  apply (download_url_round_trip (C := example_codec) example_splitter
           [1000; 2000] [] [] [1] 1 r (or_introl Hr) d Hd).
  exact Hsku.
Defined.

Lemma names_NoDup sku_name details :
  Forall (well_named sku_name) details →
  Forall (λ d, 0 ≤ SegmentOutput.index d) details →
  NoDup (map label details) →
  NoDup (map SegmentOutput.filename details).
Proof.
  intros Hnamed Hrange Hnd. rewrite Forall_forall in Hnamed, Hrange.
  assert (map SegmentOutput.filename details
          = map (λ l, artifact_name sku_name l.1 l.2) (map label details)) as ->.
  { rewrite map_map. apply map_ext_in. intros d Hd%list_elem_of_In.
    by destruct (Hnamed d Hd) as (_ & -> & _). }
  apply NoDup_fmap_2_strong; [|done].
  intros [n b] [m b'] [d [Hl Hd]]%list_elem_of_fmap
    [d' [Hl' Hd']]%list_elem_of_fmap Heq.
  injection Hl as -> ->. injection Hl' as -> ->. simpl in Heq.
  apply artifact_name_inj in Heq as [-> ->]; auto.
Qed.

(** X28.  No output of a split overwrites another: in a successful
    [split_by_positions], and in a successful
    [_split_with_global_numbering] started at a number that is not
    negative, the file names of the outputs are pairwise distinct. *)
Theorem output_names_distinct {C : Codec} self cuts skips excl sizes start r :
  split_by_positions self cuts skips excl sizes = Success r ∨
  (0 ≤ start ∧
   split_with_global_numbering self cuts skips excl sizes start = Success r) →
  NoDup (map SegmentOutput.filename (SplitResult.details r)).
Proof.
  intros [Hs|[Hstart Hs]].
  - destruct (split_by_positions_try _ _ _ _ _ _ Hs)
      as (path & sku_name & _ & _ & _ & _ & _ & Htry).
    destruct (split_try_names _ _ _ _ _ _ _ _ _ _ Htry)
      as (_ & _ & Hnamed & Hrange & Hnd).
    apply (names_NoDup sku_name); [done| |done].
    eapply Forall_impl; [exact Hrange|]. simpl. intros d. lia.
  - destruct (split_with_global_numbering_try _ _ _ _ _ _ _ Hs)
      as (path & sku_name & _ & _ & _ & _ & Htry).
    destruct (split_try_names _ _ _ _ _ _ _ _ _ _ Htry)
      as (_ & _ & Hnamed & Hrange & Hnd).
    apply (names_NoDup sku_name); [done| |done].
    eapply Forall_impl; [exact Hrange|]. simpl. intros d. lia.
Qed.

Lemma output_names_distinct_witness :
  ∃ r, split_by_positions (C := example_codec) example_splitter
         [1000; 2000] [] [] [1] = Success r ∧
       NoDup (map SegmentOutput.filename (SplitResult.details r)).
Proof.
  destruct (split_by_positions (C := example_codec) example_splitter
              [1000; 2000] [] [] [1]) as [e|r] eqn:Hr;
    [vm_compute in Hr; discriminate|].
  exists r. split; [reflexivity|].
  apply (output_names_distinct (C := example_codec) example_splitter
           [1000; 2000] [] [] [1] 1 r (or_introl Hr)).
Defined.

Section BatchNames.
Context {C : Codec}.

(** An entry of a batch under global numbering: its outputs are named
    after the session's SKU and numbered from one plus the outputs created
    before it up to the outputs created with it. *)
Lemma global_batch_numbers self cuts skips excl sizes b k e r :
  batch_process self cuts skips excl sizes true = inr b →
  batch_results b !! k = Some e → e.2 = Success r →
  ∃ sku_name,
    current_sku self = Some sku_name ∧
    Forall (well_named sku_name) (SplitResult.details r) ∧
    Forall (λ d, 1 + created_total (take k (batch_results b))
                 ≤ SegmentOutput.index d
                 < 1 + created_total (take (S k) (batch_results b)))
           (SplitResult.details r) ∧
    Forall (λ e, 0 ≤ created e.2) (batch_results b).
Proof.
  intros Hb Hk Hr.
  destruct (batch_process_spec _ _ _ _ _ _ _ Hb)
    as (_ & _ & Hlen & _ & _ & _ & _ & Hspec).
  assert (Forall (λ e, 0 ≤ created e.2) (batch_results b)) as Hnn.
  { apply Forall_lookup. intros i e' He.
    destruct (lookup_lt_is_Some_2 (uploaded_images self) i) as [info Hinfo].
    { rewrite <- Hlen. by eapply lookup_lt_Some. }
    rewrite (Hspec i info Hinfo) in He. injection He as <-. simpl.
    apply created_nonneg_global. }
  destruct (lookup_lt_is_Some_2 (uploaded_images self) k) as [info Hinfo].
  { rewrite <- Hlen. by eapply lookup_lt_Some. }
  pose proof (Hspec k info Hinfo) as He. rewrite Hk in He.
  injection He as ->. simpl in Hr.
  destruct (split_with_global_numbering_try _ _ _ _ _ _ _ Hr)
    as (path & sku_name & _ & _ & Hsku & _ & Htry).
  rewrite load_image_sku in Hsku.
  destruct (split_try_names _ _ _ _ _ _ _ _ _ _ Htry)
    as (_ & _ & Hnamed & _ & _).
  destruct (global_numbers_range _ _ _ _ _ _ _ Hr) as [_ Hrange].
  exists sku_name. split_and!; [done|done| |done].
  rewrite (take_S_r _ _ _ Hk), created_total_app, created_total_cons.
  change (created_total []) with 0. simpl. rewrite Hr. simpl.
  eapply Forall_impl; [exact Hrange|]. simpl. intros d. lia.
Qed.

(** An entry of a batch without global numbering and without skip areas:
    the file names depend on the SKU, the number of cuts and the two
    segment lists only. *)
Lemma plain_batch_names self cuts excl sizes b k e r :
  batch_process self cuts [] excl sizes false = inr b →
  batch_results b !! k = Some e → e.2 = Success r →
  ∃ sku_name,
    current_sku self = Some sku_name ∧
    SplitResult.output_directory r
      = path_join (path_join "output" "manual_split") sku_name ∧
    map SegmentOutput.filename (SplitResult.details r)
      = map (λ l, artifact_name sku_name l.1 l.2)
            (flat_map (segment_labels [] [] excl sizes)
                      (seq 0 (length cuts + 1))).
Proof.
  intros Hb Hk Hr.
  destruct (batch_process_spec _ _ _ _ _ _ _ Hb)
    as (_ & _ & Hlen & _ & _ & _ & _ & Hspec).
  destruct (lookup_lt_is_Some_2 (uploaded_images self) k) as [info Hinfo].
  { rewrite <- Hlen. by eapply lookup_lt_Some. }
  pose proof (Hspec k info Hinfo) as He. rewrite Hk in He.
  injection He as ->. simpl in Hr.
  destruct (split_by_positions_try _ _ _ _ _ _ Hr)
    as (path & sku_name & _ & _ & Hsku & _ & _ & Htry).
  rewrite load_image_sku in Hsku.
  destruct (split_try_names _ _ _ _ _ _ _ _ _ _ Htry)
    as (_ & Hdir & Hnamed & _ & _).
  exists sku_name. split_and!; [done|done|].
  rewrite <- (split_try_labels _ _ _ _ _ _ _ Htry), map_map.
  apply map_ext_in. intros d Hd%list_elem_of_In.
  rewrite Forall_forall in Hnamed. by destruct (Hnamed d Hd) as (_ & -> & _).
Qed.
End BatchNames.

(** X29.  Under global numbering no file of a batch is written twice:
    outputs of two different entries of a [batch_process] never have the
    same file name. *)
Theorem global_batch_names_distinct {C : Codec}
    self cuts skips excl sizes b j k ej ek rj rk dj dk :
  batch_process self cuts skips excl sizes true = inr b →
  batch_results b !! j = Some ej → batch_results b !! k = Some ek →
  ej.2 = Success rj → ek.2 = Success rk →
  j ≠ k →
  dj ∈ SplitResult.details rj → dk ∈ SplitResult.details rk →
  SegmentOutput.filename dj ≠ SegmentOutput.filename dk.
Proof.
  intros Hb Hj Hk Hrj Hrk Hjk Hdj Hdk Heq.
  destruct (global_batch_numbers _ _ _ _ _ _ _ _ _ Hb Hj Hrj)
    as (sku_name & Hsku & Hnj & Hfj & Hnn).
  destruct (global_batch_numbers _ _ _ _ _ _ _ _ _ Hb Hk Hrk)
    as (sku_name' & Hsku' & Hnk & Hfk & _).
  rewrite Hsku in Hsku'. injection Hsku' as <-.
  rewrite Forall_forall in Hnj, Hnk, Hfj, Hfk.
  destruct (Hnj dj Hdj) as (_ & Hname_j & _).
  destruct (Hnk dk Hdk) as (_ & Hname_k & _).
  specialize (Hfj dj Hdj). specialize (Hfk dk Hdk).
  assert (∀ n, 0 ≤ created_total (take n (batch_results b))) as Hpos
    by (intros n; apply created_total_nonneg, Forall_take, Hnn).
  pose proof (Hpos j). pose proof (Hpos k).
  rewrite Hname_j, Hname_k in Heq.
  apply artifact_name_inj in Heq as [Hidx _]; [|lia..].
  destruct (decide (j < k)%nat) as [Hlt|Hge].
  - pose proof (created_total_take_mono (batch_results b) (S j) k Hnn
                  ltac:(lia)). lia.
  - pose proof (created_total_take_mono (batch_results b) (S k) j Hnn
                  ltac:(lia)). lia.
Qed.

Lemma global_batch_names_distinct_witness :
  ∃ b ej ek rj rk dj dk,
    batch_process (C := example_codec) example_splitter
      [1000; 2000] [] [] [1] true = inr b ∧
    batch_results b !! 0%nat = Some ej ∧
    batch_results b !! 1%nat = Some ek ∧
    ej.2 = Success rj ∧ ek.2 = Success rk ∧
    dj ∈ SplitResult.details rj ∧ dk ∈ SplitResult.details rk ∧
    SegmentOutput.filename dj ≠ SegmentOutput.filename dk.
Proof.
  destruct (batch_process (C := example_codec) example_splitter
              [1000; 2000] [] [] [1] true) as [e|b] eqn:Hb;
    [vm_compute in Hb; discriminate|].
  destruct (batch_results b !! 0%nat) as [ej|] eqn:Hj;
    [|vm_compute in Hb; injection Hb as <-; discriminate].
  destruct (batch_results b !! 1%nat) as [ek|] eqn:Hk;
    [|vm_compute in Hb; injection Hb as <-; discriminate].
  assert (∃ rj rk dj dk,
            ej.2 = Success rj ∧ ek.2 = Success rk ∧
            dj ∈ SplitResult.details rj ∧ dk ∈ SplitResult.details rk)
    as (rj & rk & dj & dk & Hrj & Hrk & Hdj & Hdk).
  { vm_compute in Hb. injection Hb as <-.
    injection Hj as <-. injection Hk as <-.
    eexists _, _, _, _. split; [reflexivity|]. split; [reflexivity|].
    split; apply list_elem_of_here. }
  exists b, ej, ek, rj, rk, dj, dk.
  split; [reflexivity|]. split; [exact Hj|]. split; [exact Hk|].
  split; [exact Hrj|]. split; [exact Hrk|].
  split; [exact Hdj|]. split; [exact Hdk|].
  apply (global_batch_names_distinct (C := example_codec) example_splitter
           [1000; 2000] [] [] [1] b 0 1 ej ek rj rk dj dk Hb Hj Hk Hrj Hrk);
    [lia | exact Hdj | exact Hdk].
Defined.

(** X30.  Without global numbering and without skip areas every
    successful entry of a [batch_process] has the same output directory and
    the same list of file names: each image of the batch is written over
    the files of the image before it. *)
Theorem plain_batch_reuses_names {C : Codec}
    self cuts excl sizes b j k ej ek rj rk :
  batch_process self cuts [] excl sizes false = inr b →
  batch_results b !! j = Some ej → batch_results b !! k = Some ek →
  ej.2 = Success rj → ek.2 = Success rk →
  SplitResult.output_directory rj = SplitResult.output_directory rk ∧
  map SegmentOutput.filename (SplitResult.details rj)
    = map SegmentOutput.filename (SplitResult.details rk).
Proof.
  intros Hb Hj Hk Hrj Hrk.
  destruct (plain_batch_names _ _ _ _ _ _ _ _ Hb Hj Hrj)
    as (sku_name & Hsku & -> & ->).
  destruct (plain_batch_names _ _ _ _ _ _ _ _ Hb Hk Hrk)
    as (sku_name' & Hsku' & -> & ->).
  rewrite Hsku in Hsku'. by injection Hsku' as <-.
Qed.

Lemma plain_batch_reuses_names_witness :
  ∃ b ej ek rj rk,
    batch_process (C := example_codec) example_splitter
      [1000; 2000] [] [] [1] false = inr b ∧
    batch_results b !! 0%nat = Some ej ∧
    batch_results b !! 1%nat = Some ek ∧
    ej.2 = Success rj ∧ ek.2 = Success rk ∧
    map SegmentOutput.filename (SplitResult.details rj)
    = map SegmentOutput.filename (SplitResult.details rk).
Proof.
  destruct (batch_process (C := example_codec) example_splitter
              [1000; 2000] [] [] [1] false) as [e|b] eqn:Hb;
    [vm_compute in Hb; discriminate|].
  destruct (batch_results b !! 0%nat) as [ej|] eqn:Hj;
    [|vm_compute in Hb; injection Hb as <-; discriminate].
  destruct (batch_results b !! 1%nat) as [ek|] eqn:Hk;
    [|vm_compute in Hb; injection Hb as <-; discriminate].
  assert (∃ rj rk, ej.2 = Success rj ∧ ek.2 = Success rk)
    as (rj & rk & Hrj & Hrk).
  { vm_compute in Hb. injection Hb as <-.
    injection Hj as <-. injection Hk as <-.
    eexists _, _. split; reflexivity. }
  exists b, ej, ek, rj, rk.
  split; [reflexivity|]. split; [exact Hj|]. split; [exact Hk|].
  split; [exact Hrj|]. split; [exact Hrk|].
  apply (plain_batch_reuses_names (C := example_codec) example_splitter
           [1000; 2000] [] [1] b 0 1 ej ek rj rk Hb Hj Hk Hrj Hrk).
Defined.
